(** * Heart Chaser (STM32F031): a shallow embedding of [main.c]

    The development follows the source file top to bottom: machine
    integers, the rectangle test [isInside], the tick interrupt
    [SysTick_Handler] with the blocking [delay], the maze query
    [isWallCollision], the pumpkin enemies, the drifting hearts, the win
    check and finally the body of the game loop of [main].

    Conventions.
    - [uint16_t] and [uint32_t] values are integers of [Z]; every store
      into such a variable is written with its wrap-around ([wrap16],
      [wrap32]).  [int] variables hold small values only (flags, levels,
      indices) and are plain [Z].
    - A C truth value is a [Z]; [truthy] is the test "non zero".
    - Calls into the display driver and the serial log have no effect on
      the state modelled here and are left out; calls to [playNote] are
      recorded in the trace [Isr.tones].
    - The tick interrupt is taken where the foreground waits: once per
      [wfi] inside [delay], in the wait loops of the two information
      screens, and between two iterations of the loop ([Input.irq]).  The
      statements in between run without a tick. *)

From stdpp Require Import base list numbers.
From Stdlib Require Import ZArith Lia.

Local Open Scope Z_scope.

(** ** Machine integers *)

Definition wrap16 (z : Z) : Z := z mod 65536.
Definition wrap32 (z : Z) : Z := z mod 4294967296.

(** Conversion of a 32-bit unsigned value to [int]. *)
Definition to_int (z : Z) : Z :=
  let m := wrap32 z in if m <? 2147483648 then m else m - 4294967296.

Definition truthy (z : Z) : bool := negb (z =? 0).

(** ** Rectangle containment *)

(** [isInside]: the far corner is computed in 16 bits. *)
Definition isInside (x1 y1 w h px py : Z) : Z :=
  let x2 := wrap16 (x1 + w) in
  let y2 := wrap16 (y1 + h) in
  let rvalue := 0 in
  if (px >=? x1) && (px <=? x2) then
    if (py >=? y1) && (py <=? y2) then 1 else rvalue
  else rvalue.

(** ** State *)

Module Isr.

(** State owned by the tick interrupt: the millisecond counter, the
    background tune descriptor (a null pointer is [None]), the two static
    locals of [SysTick_Handler] and the trace of [playNote] requests, most
    recent first. *)
Record t : Type := mk {
  milliseconds : Z;
  background_tune_notes : option (list Z);
  background_tune_times : option (list Z);
  background_tune_note_count : Z;
  background_repeat_tune : Z;
  index : Z;
  current_note_timer : Z;
  tones : list Z
}.

Definition set_milliseconds (v : Z) (s : t) : t :=
  mk v (background_tune_notes s) (background_tune_times s)
     (background_tune_note_count s) (background_repeat_tune s) (index s)
     (current_note_timer s) (tones s).

Definition set_background_tune_notes (v : option (list Z)) (s : t) : t :=
  mk (milliseconds s) v (background_tune_times s)
     (background_tune_note_count s) (background_repeat_tune s) (index s)
     (current_note_timer s) (tones s).

Definition set_background_tune_times (v : option (list Z)) (s : t) : t :=
  mk (milliseconds s) (background_tune_notes s) v
     (background_tune_note_count s) (background_repeat_tune s) (index s)
     (current_note_timer s) (tones s).

Definition set_background_tune_note_count (v : Z) (s : t) : t :=
  mk (milliseconds s) (background_tune_notes s) (background_tune_times s) v
     (background_repeat_tune s) (index s) (current_note_timer s) (tones s).

Definition set_background_repeat_tune (v : Z) (s : t) : t :=
  mk (milliseconds s) (background_tune_notes s) (background_tune_times s)
     (background_tune_note_count s) v (index s) (current_note_timer s)
     (tones s).

Definition set_index (v : Z) (s : t) : t :=
  mk (milliseconds s) (background_tune_notes s) (background_tune_times s)
     (background_tune_note_count s) (background_repeat_tune s) v
     (current_note_timer s) (tones s).

Definition set_current_note_timer (v : Z) (s : t) : t :=
  mk (milliseconds s) (background_tune_notes s) (background_tune_times s)
     (background_tune_note_count s) (background_repeat_tune s) (index s) v
     (tones s).

Definition set_tones (v : list Z) (s : t) : t :=
  mk (milliseconds s) (background_tune_notes s) (background_tune_times s)
     (background_tune_note_count s) (background_repeat_tune s) (index s)
     (current_note_timer s) v.

End Isr.

Module Enemy.

(** [Enemy]: a pumpkin. *)
Record t : Type := mk {
  x : Z;
  y : Z;
  active : Z;
  speed : Z
}.

Definition set_x (v : Z) (s : t) : t :=
  mk v (y s) (active s) (speed s).

Definition set_y (v : Z) (s : t) : t :=
  mk (x s) v (active s) (speed s).

Definition set_active (v : Z) (s : t) : t :=
  mk (x s) (y s) v (speed s).

Definition set_speed (v : Z) (s : t) : t :=
  mk (x s) (y s) (active s) v.

End Enemy.

Module Heart.

(** The five variables the source keeps per heart
    ([heartN_x], [heartN_y], [heartN_direction_x], [heartN_direction_y],
    [heartN_eaten]), grouped. *)
Record t : Type := mk {
  x : Z;
  y : Z;
  direction_x : Z;
  direction_y : Z;
  eaten : Z
}.

Definition set_x (v : Z) (s : t) : t :=
  mk v (y s) (direction_x s) (direction_y s) (eaten s).

Definition set_y (v : Z) (s : t) : t :=
  mk (x s) v (direction_x s) (direction_y s) (eaten s).

Definition set_direction_x (v : Z) (s : t) : t :=
  mk (x s) (y s) v (direction_y s) (eaten s).

Definition set_direction_y (v : Z) (s : t) : t :=
  mk (x s) (y s) (direction_x s) v (eaten s).

Definition set_eaten (v : Z) (s : t) : t :=
  mk (x s) (y s) (direction_x s) (direction_y s) v.

End Heart.

Module Game.

(** The global variables.  [repeat_tune] and [boss] are never read or
    written by the program and are left out. *)
Record t : Type := mk {
  isr : Isr.t;
  pumpkin_move_delay : Z;
  game_won : Z;
  game_over : Z;
  show_game_over_menu : Z;
  game_over_selection : Z;
  heart1 : Heart.t;
  heart2 : Heart.t;
  heart_move_delay : Z;
  current_level : Z;
  hearts_collected : Z;
  heart3 : Heart.t;
  heart4 : Heart.t;
  heart5 : Heart.t;
  heart6 : Heart.t;
  enemies : list Enemy.t;
  in_menu : Z;
  selected_option : Z
}.

Definition set_isr (v : Isr.t) (s : t) : t :=
  mk v (pumpkin_move_delay s) (game_won s) (game_over s)
     (show_game_over_menu s) (game_over_selection s) (heart1 s) (heart2 s)
     (heart_move_delay s) (current_level s) (hearts_collected s) (heart3 s)
     (heart4 s) (heart5 s) (heart6 s) (enemies s) (in_menu s)
     (selected_option s).

Definition set_pumpkin_move_delay (v : Z) (s : t) : t :=
  mk (isr s) v (game_won s) (game_over s) (show_game_over_menu s)
     (game_over_selection s) (heart1 s) (heart2 s) (heart_move_delay s)
     (current_level s) (hearts_collected s) (heart3 s) (heart4 s) (heart5 s)
     (heart6 s) (enemies s) (in_menu s) (selected_option s).

Definition set_game_won (v : Z) (s : t) : t :=
  mk (isr s) (pumpkin_move_delay s) v (game_over s) (show_game_over_menu s)
     (game_over_selection s) (heart1 s) (heart2 s) (heart_move_delay s)
     (current_level s) (hearts_collected s) (heart3 s) (heart4 s) (heart5 s)
     (heart6 s) (enemies s) (in_menu s) (selected_option s).

Definition set_game_over (v : Z) (s : t) : t :=
  mk (isr s) (pumpkin_move_delay s) (game_won s) v (show_game_over_menu s)
     (game_over_selection s) (heart1 s) (heart2 s) (heart_move_delay s)
     (current_level s) (hearts_collected s) (heart3 s) (heart4 s) (heart5 s)
     (heart6 s) (enemies s) (in_menu s) (selected_option s).

Definition set_show_game_over_menu (v : Z) (s : t) : t :=
  mk (isr s) (pumpkin_move_delay s) (game_won s) (game_over s) v
     (game_over_selection s) (heart1 s) (heart2 s) (heart_move_delay s)
     (current_level s) (hearts_collected s) (heart3 s) (heart4 s) (heart5 s)
     (heart6 s) (enemies s) (in_menu s) (selected_option s).

Definition set_game_over_selection (v : Z) (s : t) : t :=
  mk (isr s) (pumpkin_move_delay s) (game_won s) (game_over s)
     (show_game_over_menu s) v (heart1 s) (heart2 s) (heart_move_delay s)
     (current_level s) (hearts_collected s) (heart3 s) (heart4 s) (heart5 s)
     (heart6 s) (enemies s) (in_menu s) (selected_option s).

Definition set_heart1 (v : Heart.t) (s : t) : t :=
  mk (isr s) (pumpkin_move_delay s) (game_won s) (game_over s)
     (show_game_over_menu s) (game_over_selection s) v (heart2 s)
     (heart_move_delay s) (current_level s) (hearts_collected s) (heart3 s)
     (heart4 s) (heart5 s) (heart6 s) (enemies s) (in_menu s)
     (selected_option s).

Definition set_heart2 (v : Heart.t) (s : t) : t :=
  mk (isr s) (pumpkin_move_delay s) (game_won s) (game_over s)
     (show_game_over_menu s) (game_over_selection s) (heart1 s) v
     (heart_move_delay s) (current_level s) (hearts_collected s) (heart3 s)
     (heart4 s) (heart5 s) (heart6 s) (enemies s) (in_menu s)
     (selected_option s).

Definition set_heart_move_delay (v : Z) (s : t) : t :=
  mk (isr s) (pumpkin_move_delay s) (game_won s) (game_over s)
     (show_game_over_menu s) (game_over_selection s) (heart1 s) (heart2 s) v
     (current_level s) (hearts_collected s) (heart3 s) (heart4 s) (heart5 s)
     (heart6 s) (enemies s) (in_menu s) (selected_option s).

Definition set_current_level (v : Z) (s : t) : t :=
  mk (isr s) (pumpkin_move_delay s) (game_won s) (game_over s)
     (show_game_over_menu s) (game_over_selection s) (heart1 s) (heart2 s)
     (heart_move_delay s) v (hearts_collected s) (heart3 s) (heart4 s)
     (heart5 s) (heart6 s) (enemies s) (in_menu s) (selected_option s).

Definition set_hearts_collected (v : Z) (s : t) : t :=
  mk (isr s) (pumpkin_move_delay s) (game_won s) (game_over s)
     (show_game_over_menu s) (game_over_selection s) (heart1 s) (heart2 s)
     (heart_move_delay s) (current_level s) v (heart3 s) (heart4 s) (heart5
     s) (heart6 s) (enemies s) (in_menu s) (selected_option s).

Definition set_heart3 (v : Heart.t) (s : t) : t :=
  mk (isr s) (pumpkin_move_delay s) (game_won s) (game_over s)
     (show_game_over_menu s) (game_over_selection s) (heart1 s) (heart2 s)
     (heart_move_delay s) (current_level s) (hearts_collected s) v (heart4
     s) (heart5 s) (heart6 s) (enemies s) (in_menu s) (selected_option s).

Definition set_heart4 (v : Heart.t) (s : t) : t :=
  mk (isr s) (pumpkin_move_delay s) (game_won s) (game_over s)
     (show_game_over_menu s) (game_over_selection s) (heart1 s) (heart2 s)
     (heart_move_delay s) (current_level s) (hearts_collected s) (heart3 s)
     v (heart5 s) (heart6 s) (enemies s) (in_menu s) (selected_option s).

Definition set_heart5 (v : Heart.t) (s : t) : t :=
  mk (isr s) (pumpkin_move_delay s) (game_won s) (game_over s)
     (show_game_over_menu s) (game_over_selection s) (heart1 s) (heart2 s)
     (heart_move_delay s) (current_level s) (hearts_collected s) (heart3 s)
     (heart4 s) v (heart6 s) (enemies s) (in_menu s) (selected_option s).

Definition set_heart6 (v : Heart.t) (s : t) : t :=
  mk (isr s) (pumpkin_move_delay s) (game_won s) (game_over s)
     (show_game_over_menu s) (game_over_selection s) (heart1 s) (heart2 s)
     (heart_move_delay s) (current_level s) (hearts_collected s) (heart3 s)
     (heart4 s) (heart5 s) v (enemies s) (in_menu s) (selected_option s).

Definition set_enemies (v : list Enemy.t) (s : t) : t :=
  mk (isr s) (pumpkin_move_delay s) (game_won s) (game_over s)
     (show_game_over_menu s) (game_over_selection s) (heart1 s) (heart2 s)
     (heart_move_delay s) (current_level s) (hearts_collected s) (heart3 s)
     (heart4 s) (heart5 s) (heart6 s) v (in_menu s) (selected_option s).

Definition set_in_menu (v : Z) (s : t) : t :=
  mk (isr s) (pumpkin_move_delay s) (game_won s) (game_over s)
     (show_game_over_menu s) (game_over_selection s) (heart1 s) (heart2 s)
     (heart_move_delay s) (current_level s) (hearts_collected s) (heart3 s)
     (heart4 s) (heart5 s) (heart6 s) (enemies s) v (selected_option s).

Definition set_selected_option (v : Z) (s : t) : t :=
  mk (isr s) (pumpkin_move_delay s) (game_won s) (game_over s)
     (show_game_over_menu s) (game_over_selection s) (heart1 s) (heart2 s)
     (heart_move_delay s) (current_level s) (hearts_collected s) (heart3 s)
     (heart4 s) (heart5 s) (heart6 s) (enemies s) (in_menu s) v.

End Game.

Module Main.

(** The local variables of [main], with its static [menu_drawn]. *)
Record t : Type := mk {
  hinverted : Z;
  vinverted : Z;
  toggle : Z;
  hmoved : Z;
  vmoved : Z;
  x : Z;
  y : Z;
  oldx : Z;
  oldy : Z;
  menu_drawn : Z
}.

Definition set_hinverted (v : Z) (s : t) : t :=
  mk v (vinverted s) (toggle s) (hmoved s) (vmoved s) (x s) (y s) (oldx s)
     (oldy s) (menu_drawn s).

Definition set_vinverted (v : Z) (s : t) : t :=
  mk (hinverted s) v (toggle s) (hmoved s) (vmoved s) (x s) (y s) (oldx s)
     (oldy s) (menu_drawn s).

Definition set_toggle (v : Z) (s : t) : t :=
  mk (hinverted s) (vinverted s) v (hmoved s) (vmoved s) (x s) (y s) (oldx
     s) (oldy s) (menu_drawn s).

Definition set_hmoved (v : Z) (s : t) : t :=
  mk (hinverted s) (vinverted s) (toggle s) v (vmoved s) (x s) (y s) (oldx
     s) (oldy s) (menu_drawn s).

Definition set_vmoved (v : Z) (s : t) : t :=
  mk (hinverted s) (vinverted s) (toggle s) (hmoved s) v (x s) (y s) (oldx
     s) (oldy s) (menu_drawn s).

Definition set_x (v : Z) (s : t) : t :=
  mk (hinverted s) (vinverted s) (toggle s) (hmoved s) (vmoved s) v (y s)
     (oldx s) (oldy s) (menu_drawn s).

Definition set_y (v : Z) (s : t) : t :=
  mk (hinverted s) (vinverted s) (toggle s) (hmoved s) (vmoved s) (x s) v
     (oldx s) (oldy s) (menu_drawn s).

Definition set_oldx (v : Z) (s : t) : t :=
  mk (hinverted s) (vinverted s) (toggle s) (hmoved s) (vmoved s) (x s) (y
     s) v (oldy s) (menu_drawn s).

Definition set_oldy (v : Z) (s : t) : t :=
  mk (hinverted s) (vinverted s) (toggle s) (hmoved s) (vmoved s) (x s) (y
     s) (oldx s) v (menu_drawn s).

Definition set_menu_drawn (v : Z) (s : t) : t :=
  mk (hinverted s) (vinverted s) (toggle s) (hmoved s) (vmoved s) (x s) (y
     s) (oldx s) (oldy s) v.

End Main.

(** ** The tick interrupt and the background tune *)

Definition playNote (note : Z) (s : Isr.t) : Isr.t :=
  Isr.set_tones (note :: Isr.tones s) s.

(** Element [i] of a C array reached through a pointer. *)
Definition load (a : option (list Z)) (i : Z) : Z :=
  match a with
  | Some l => default 0 (l !! Z.to_nat i)
  | None => 0
  end.

(** [SysTick_Handler]: one millisecond tick.  The comparison of the
    [int] index with the [uint32_t] note count is unsigned. *)
Definition SysTick_Handler (s : Isr.t) : Isr.t :=
  let s := Isr.set_milliseconds (wrap32 (Isr.milliseconds s + 1)) s in
  match Isr.background_tune_notes s with
  | None => s
  | Some _ =>
    let s :=
      if Isr.current_note_timer s =? 0 then
        let s := Isr.set_index (Isr.index s + 1) s in
        if wrap32 (Isr.index s) >=? Isr.background_tune_note_count s then
          if Isr.background_repeat_tune s =? 0
          then Isr.set_background_tune_notes None s
          else Isr.set_index 0 s
        else
          let s := Isr.set_current_note_timer
                     (to_int (load (Isr.background_tune_times s) (Isr.index s))) s in
          playNote (load (Isr.background_tune_notes s) (Isr.index s)) s
      else s in
    if negb (Isr.current_note_timer s =? 0)
    then Isr.set_current_note_timer (Isr.current_note_timer s - 1) s
    else s
  end.

(** The loop of [delay]: [while (milliseconds != end_time) wfi].  Each
    [wfi] returns after the next tick.  The result carries the number of
    ticks slept through; [None] when [fuel] ticks were not enough. *)
Fixpoint delay_wait (fuel : nat) (end_time : Z) (s : Isr.t)
  : option (Isr.t * nat) :=
  if Isr.milliseconds s =? end_time then Some (s, 0%nat)
  else
    match fuel with
    | O => None
    | S fuel' =>
      match delay_wait fuel' end_time (SysTick_Handler s) with
      | Some (s', n) => Some (s', S n)
      | None => None
      end
    end.

Definition delay_upto (fuel : nat) (dly : Z) (s : Isr.t)
  : option (Isr.t * nat) :=
  let end_time := wrap32 (dly + Isr.milliseconds s) in
  delay_wait fuel end_time s.

(** [delay] as the rest of the program calls it: the loop run with as
    many ticks as it can need ([delay_upto_enough] below shows that it
    then always returns). *)
Definition delay (dly : Z) (s : Isr.t) : Isr.t :=
  match delay_upto (Z.to_nat (wrap32 dly)) dly s with
  | Some (s', _) => s'
  | None => s
  end.

(** Ticks taken while the foreground does not sleep. *)
Definition ticks (n : nat) (s : Isr.t) : Isr.t := Nat.iter n SysTick_Handler s.

(** ** The maze *)

Definition WALL_SIZE : Z := 8.

(** [maze]: 20 rows of 16 tiles; the initialiser gives 17 rows, the
    remaining three are zero. *)
Definition maze : list (list Z) :=
  [ [1;1;1;1;1;1;1;1;1;1;1;1;1;1;1;1];
    [1;0;0;0;0;0;1;0;0;0;0;0;0;0;0;1];
    [1;0;1;1;1;0;1;0;1;1;1;1;1;1;0;1];
    [1;0;0;0;1;0;0;0;0;0;1;0;0;0;0;1];
    [1;1;1;0;1;1;1;1;1;0;1;0;1;1;0;1];
    [1;0;0;0;0;0;0;0;1;0;0;0;1;0;0;1];
    [1;0;1;1;1;1;1;0;1;1;1;1;1;0;1;1];
    [1;0;0;0;0;0;1;0;0;0;0;0;0;0;0;1];
    [1;1;1;1;1;0;1;1;1;1;1;0;1;1;0;1];
    [1;0;0;0;0;0;1;0;0;0;0;0;1;0;0;1];
    [1;0;1;1;1;1;1;0;1;1;1;1;1;0;1;1];
    [1;0;0;0;0;0;0;0;1;0;0;0;0;0;0;1];
    [1;0;1;1;1;1;1;1;1;0;1;1;1;1;0;1];
    [1;0;0;0;0;0;0;0;0;0;0;0;0;1;0;1];
    [1;0;1;1;1;1;1;1;1;1;1;1;0;1;0;1];
    [1;0;0;0;0;0;0;0;0;0;0;0;0;0;0;1];
    [1;1;1;1;1;1;1;1;1;1;1;1;1;1;1;1];
    [0;0;0;0;0;0;0;0;0;0;0;0;0;0;0;0];
    [0;0;0;0;0;0;0;0;0;0;0;0;0;0;0;0];
    [0;0;0;0;0;0;0;0;0;0;0;0;0;0;0;0] ].

(** [maze[gridY][gridX]]; [None] is a read outside the array. *)
Definition maze_at (gridY gridX : Z) : option Z :=
  row ← maze !! Z.to_nat gridY; row !! Z.to_nat gridX.

(** [isWallCollision]; the result is [None] only if the array were read
    out of range. *)
Definition isWallCollision (x y : Z) : option Z :=
  let gridX := Z.quot x WALL_SIZE in
  let gridY := Z.quot y WALL_SIZE in
  if (gridX >=? 0) && (gridX <? 16) && (gridY >=? 0) && (gridY <? 20) then
    tile ← maze_at gridY gridX; Some (if tile =? 1 then 1 else 0)
  else Some 1.

(** ** Enemies *)

Definition MAX_ENEMIES : nat := 6.

(** [initEnemies], without the drawing. *)
Definition initEnemies (current_level : Z) (enemies : list Enemy.t)
  : list Enemy.t :=
  if current_level =? 1 then
    <[0%nat := Enemy.mk 10 10 1 1]> enemies
  else
    <[2%nat := Enemy.mk 60 140 1 1]>
      (<[1%nat := Enemy.mk 100 10 1 1]>
         (<[0%nat := Enemy.mk 10 10 1 1]> enemies)).

(** The body of the loop of [moveEnemies] for one enemy. *)
Definition moveEnemy (current_level milliseconds pacman_x pacman_y : Z)
  (e : Enemy.t) : Enemy.t :=
  if truthy (Enemy.active e) then
    let current_speed :=
      if current_level =? 2
      then (if milliseconds mod 2 =? 0 then 1 else 0)
      else Enemy.speed e in
    let x := Enemy.x e in
    let y := Enemy.y e in
    let x := if x <? pacman_x then wrap16 (x + current_speed) else x in
    let x := if x >? pacman_x then wrap16 (x - current_speed) else x in
    let y := if y <? pacman_y then wrap16 (y + current_speed) else y in
    let y := if y >? pacman_y then wrap16 (y - current_speed) else y in
    let x := if x <=? 0 then 0 else if x >=? 115 then 115 else x in
    let y := if y <=? 0 then 0 else if y >=? 144 then 144 else y in
    Enemy.set_y y (Enemy.set_x x e)
  else e.

(** [checkEnemyCollision]: the first active enemy whose 12x16 box holds
    the player ends the search. *)
Fixpoint checkEnemyCollision (pacman_x pacman_y : Z) (enemies : list Enemy.t)
  : Z :=
  match enemies with
  | [] => 0
  | e :: rest =>
    if truthy (Enemy.active e) &&
       truthy (isInside (Enemy.x e) (Enemy.y e) 12 16 pacman_x pacman_y)
    then 1
    else checkEnemyCollision pacman_x pacman_y rest
  end.

(** ** Hearts *)

(** [rand()]: the next value of the generator, taken from a supply. *)
Definition rand (rs : list Z) : Z * list Z := (hd 0 rs, tl rs).

(** One "Heart N Movement" section of the loop: two directions are drawn,
    the heart moves 3 pixels per axis in 16-bit arithmetic and is then
    clamped. *)
Definition driftHeart (rs : list Z) (h : Heart.t) : list Z * Heart.t :=
  if negb (truthy (Heart.eaten h)) then
    let '(r, rs) := rand rs in
    let direction_x := Z.rem r 3 - 1 in
    let '(r, rs) := rand rs in
    let direction_y := Z.rem r 3 - 1 in
    let x := wrap16 (Heart.x h + 3 * direction_x) in
    let y := wrap16 (Heart.y h + 3 * direction_y) in
    let x := if x <=? 0 then 0 else x in
    let x := if x >=? 115 then 115 else x in
    let y := if y <=? 0 then 0 else y in
    let y := if y >=? 144 then 144 else y in
    (rs, Heart.mk x y direction_x direction_y (Heart.eaten h))
  else (rs, h).

(** ** Foreground helpers on the global state *)

Definition now (g : Game.t) : Z := Isr.milliseconds (Game.isr g).

Definition fg_delay (dly : Z) (g : Game.t) : Game.t :=
  Game.set_isr (delay dly (Game.isr g)) g.

Definition fg_playNote (note : Z) (g : Game.t) : Game.t :=
  Game.set_isr (playNote note (Game.isr g)) g.

(** The sound and the waiting of a sequence of statements. *)
Inductive Cue : Type :=
| Note (note : Z)
| Wait (dly : Z).

Definition cue (g : Game.t) (c : Cue) : Game.t :=
  match c with
  | Note n => fg_playNote n g
  | Wait d => fg_delay d g
  end.

Definition perform (cs : list Cue) (g : Game.t) : Game.t := fold_left cue cs g.

(** [playTune]. *)
Definition playTune (notes times : list Z) (len : nat) (g : Game.t) : Game.t :=
  let step g i :=
    fg_delay (default 0 (times !! i)) (fg_playNote (default 0 (notes !! i)) g) in
  fg_playNote 0 (fold_left step (seq 0 len) g).

(** [showWinScreen]: the fanfare and the pauses of the animation. *)
Definition showWinScreen_cues : list Cue :=
  [Note 800; Wait 200; Note 1000; Wait 200; Note 1200; Wait 200;
   Note 1500; Wait 400; Note 0]
  ++ replicate 4 (Wait 100)
  ++ [Wait 500]
  ++ omap (fun i => if (Z.of_nat i) mod 4 =? 0 then Some (Wait 1) else None)
          (seq 20 88)
  ++ replicate 4 (Wait 200)
  ++ [Wait 200].

Definition showWinScreen (g : Game.t) : Game.t := perform showWinScreen_cues g.

(** ** The win check *)

Definition required_hearts (current_level : Z) : Z :=
  if current_level =? 1 then 2 else 4.

Definition clear_eaten (g : Game.t) : Game.t :=
  let g := Game.set_heart4 (Heart.set_eaten 0 (Game.heart4 g)) g in
  let g := Game.set_heart3 (Heart.set_eaten 0 (Game.heart3 g)) g in
  let g := Game.set_heart2 (Heart.set_eaten 0 (Game.heart2 g)) g in
  Game.set_heart1 (Heart.set_eaten 0 (Game.heart1 g)) g.

(** The body of [checkWinCondition].  [x] and [y] are its parameters,
    passed by value; the second component is their value when the
    function returns. *)
Definition checkWinCondition_body (x y : Z) (g : Game.t) : Game.t * (Z * Z) :=
  let g := Game.set_hearts_collected
             (Heart.eaten (Game.heart1 g) + Heart.eaten (Game.heart2 g)) g in
  let g :=
    if Game.current_level g =? 2 then
      Game.set_hearts_collected
        (Game.hearts_collected g
         + (Heart.eaten (Game.heart3 g) + Heart.eaten (Game.heart4 g))) g
    else g in
  if (Game.hearts_collected g =? required_hearts (Game.current_level g))
     && negb (truthy (Game.game_won g)) then
    if Game.current_level g =? 1 then
      let g := Game.set_current_level 2 g in
      let g := clear_eaten g in
      let g := fg_delay 2000 g in
      let g := Game.set_enemies
                 (initEnemies (Game.current_level g) (Game.enemies g)) g in
      (g, (50, 50))
    else
      let g := Game.set_game_won 1 g in
      (showWinScreen g, (x, y))
  else (g, (x, y)).

(** [checkWinCondition] returns nothing: what the caller sees is the
    global state. *)
Definition checkWinCondition (x y : Z) (g : Game.t) : Game.t :=
  fst (checkWinCondition_body x y g).

(** [moveEnemies]. *)
Definition moveEnemies (pacman_x pacman_y : Z) (g : Game.t) : Game.t :=
  if truthy (Game.game_won g) then g
  else
    let delay_time := if Game.current_level g =? 1 then 30 else 65 in
    if wrap32 (now g - Game.pumpkin_move_delay g) <? delay_time then g
    else
      let g := Game.set_pumpkin_move_delay (now g) g in
      Game.set_enemies
        (map (moveEnemy (Game.current_level g) (now g) pacman_x pacman_y)
             (Game.enemies g)) g.

(** ** The game loop of [main] *)

Module World.

(** The state the loop works on: the globals and the locals of [main]. *)
Record t : Type := mk {
  glob : Game.t;
  loc : Main.t
}.

Definition set_glob (v : Game.t) (w : t) : t := mk v (loc w).

Definition set_loc (v : Main.t) (w : t) : t := mk (glob w) v.

End World.

Module Input.

(** What one iteration reads from outside.  Every read of a button is a
    field of its own ([true]: the pin reads low, the button is pressed). *)
Record t : Type := mk {
  irq : nat;             (* ticks taken since the previous iteration *)
  serial_char : Z;       (* [egetchar()], 0 when nothing is available *)
  menu_down : bool;      (* main menu: GPIOA bit 11 *)
  menu_up : bool;        (* main menu: GPIOA bit 8 *)
  menu_select : bool;    (* main menu: GPIOB bit 4 *)
  menu_hold : nat;       (* ticks spent in the wait loop of an info screen *)
  right : bool;          (* movement: GPIOB bit 4 *)
  left : bool;           (* movement: GPIOB bit 5 *)
  down : bool;           (* movement: GPIOA bit 11 *)
  up : bool;             (* movement: GPIOA bit 8 *)
  rnd : list Z;          (* results of the calls of [rand()] *)
  over_down : bool;      (* result menu: GPIOA bit 11 *)
  over_up : bool;        (* result menu: GPIOA bit 8 *)
  over_select : bool     (* result menu: GPIOB bit 4 *)
}.

End Input.

(** Static initialisers of the globals. *)
Definition Game_init : Game.t :=
  Game.mk
    (Isr.mk 0 None None 0 0 0 0 [])
    0 0 0 0 0
    (Heart.mk 40 80 1 1 0) (Heart.mk 60 90 1 1 0)
    0 1 0
    (Heart.mk 80 70 1 1 0) (Heart.mk 30 100 1 1 0)
    (Heart.mk 90 110 1 1 0) (Heart.mk 20 60 1 1 0)
    (replicate MAX_ENEMIES (Enemy.mk 0 0 0 0))
    1 0.

Definition Main_init : Main.t := Main.mk 0 0 0 0 0 50 50 50 50 0.

Definition my_note_times : list Z := [200; 300; 400; 100; 500].

(** [main] up to the loop.  The five note values of [my_notes] come from
    [musical_notes.h], which is not part of the sources at hand: they are
    the parameter [my_notes]. *)
Definition main_setup (my_notes : list Z) : World.t :=
  let g := Game_init in
  let g := Game.set_enemies
             (initEnemies (Game.current_level g) (Game.enemies g)) g in
  let g := playTune my_notes my_note_times 5 g in
  let s := Game.isr g in
  let s := Isr.set_background_tune_notes (Some my_notes) s in
  let s := Isr.set_background_tune_times (Some my_note_times) s in
  let s := Isr.set_background_tune_note_count 5 s in
  let s := Isr.set_background_repeat_tune 1 s in
  World.mk (Game.set_isr s g) Main_init.

Definition NUM_MENU_OPTIONS : Z := 3.

(** Player and hearts 1 and 2 back at their start; shared by "Start Game"
    and "Play Again". *)
Definition reset_positions (w : World.t) : World.t :=
  let m := World.loc w in
  let m := Main.set_y 50 (Main.set_x 50 m) in
  let m := Main.set_oldy (Main.y m) (Main.set_oldx (Main.x m) m) in
  let g := World.glob w in
  let g := Game.set_heart1
             (Heart.set_y 80 (Heart.set_x 40 (Game.heart1 g))) g in
  let g := Game.set_heart2
             (Heart.set_y 90 (Heart.set_x 60 (Game.heart2 g))) g in
  World.mk g m.

(** The branch [if (in_menu) { ... continue; }]. *)
Definition menuStep (i : Input.t) (w : World.t) : World.t :=
  let w := if negb (truthy (Main.menu_drawn (World.loc w)))
           then World.set_loc (Main.set_menu_drawn 1 (World.loc w)) w else w in
  let press (pressed : bool) (f : Z -> Z) (w : World.t) : World.t :=
    if pressed then
      let g := fg_delay 200 (World.glob w) in
      World.set_glob (Game.set_selected_option (f (Game.selected_option g)) g) w
    else w in
  let w := press (Input.menu_down i)
             (fun o => Z.rem (o + 1) NUM_MENU_OPTIONS) w in
  let w := press (Input.menu_up i)
             (fun o => Z.rem (o - 1 + NUM_MENU_OPTIONS) NUM_MENU_OPTIONS) w in
  if Input.menu_select i then
    let w := World.set_glob (fg_delay 200 (World.glob w)) w in
    let g := World.glob w in
    if Game.selected_option g =? 0 then
      let g := Game.set_in_menu 0 g in
      let w := World.mk g (Main.set_menu_drawn 0 (World.loc w)) in
      let g := Game.set_enemies
                 (initEnemies (Game.current_level g) (Game.enemies g)) g in
      let g := Game.set_game_over 0 g in
      let g := Game.set_game_won 0 g in
      let g := Game.set_heart1 (Heart.set_eaten 0 (Game.heart1 g)) g in
      let g := Game.set_heart2 (Heart.set_eaten 0 (Game.heart2 g)) g in
      reset_positions (World.set_glob g w)
    else if (Game.selected_option g =? 1) || (Game.selected_option g =? 2) then
      let s := ticks (Input.menu_hold i) (Game.isr g) in
      World.set_glob (fg_delay 200 (Game.set_isr s g)) w
    else w
  else w.

(** "Game State Updates": flags cleared, win check, enemy update. *)
Definition gameStateUpdates (w : World.t) : World.t :=
  let m := World.loc w in
  let m := Main.set_hmoved 0 (Main.set_vmoved 0 m) in
  let m := Main.set_hinverted 0 (Main.set_vinverted 0 m) in
  let g := checkWinCondition (Main.x m) (Main.y m) (World.glob w) in
  let g := if negb (truthy (Game.game_won g))
           then moveEnemies (Main.x m) (Main.y m) g else g in
  World.mk g m.

(** "Player Movement". *)
Definition playerMovement (i : Input.t) (w : World.t) : World.t :=
  let g := World.glob w in
  if negb (truthy (Game.game_over g)) && negb (truthy (Game.game_won g)) then
    let m := World.loc w in
    let m :=
      if Input.right i || (Input.serial_char i =? 114) then
        if Main.x m <? 115 then
          Main.set_hinverted 0 (Main.set_hmoved 1
            (Main.set_x (wrap16 (Main.x m + 1)) m))
        else m
      else m in
    let m :=
      if Input.left i then
        if Main.x m >? 2 then
          Main.set_hinverted 1 (Main.set_hmoved 1
            (Main.set_x (wrap16 (Main.x m - 1)) m))
        else m
      else m in
    let m :=
      if Input.down i then
        if Main.y m <? 144 then
          Main.set_vinverted 0 (Main.set_vmoved 1
            (Main.set_y (wrap16 (Main.y m + 1)) m))
        else m
      else m in
    let m :=
      if Input.up i then
        if Main.y m >? 1 then
          Main.set_vinverted 1 (Main.set_vmoved 1
            (Main.set_y (wrap16 (Main.y m - 1)) m))
        else m
      else m in
    World.set_loc m w
  else w.

(** One "Heart N Collection" block; [get] and [set] select the heart. *)
Definition collectHeart (get : Game.t -> Heart.t)
  (set : Heart.t -> Game.t -> Game.t) (x y : Z) (g : Game.t) : Game.t :=
  let h := get g in
  if negb (truthy (Heart.eaten h))
     && truthy (isInside (Heart.x h) (Heart.y h) 12 16 x y) then
    let g := set (Heart.set_eaten 1 h) g in
    let g := perform [Note 500; Wait 500; Note 0] g in
    checkWinCondition x y g
  else g.

(** "Update Player Position", with the pickup of hearts 1 and 2. *)
Definition updatePlayerPosition (w : World.t) : World.t :=
  let m := World.loc w in
  if truthy (Main.vmoved m) || truthy (Main.hmoved m) then
    let m := Main.set_oldy (Main.y m) (Main.set_oldx (Main.x m) m) in
    let m := if truthy (Main.hmoved m)
             then Main.set_toggle (Z.lxor (Main.toggle m) 1) m else m in
    let g := World.glob w in
    let g := collectHeart Game.heart1 Game.set_heart1 (Main.x m) (Main.y m) g in
    let g := collectHeart Game.heart2 Game.set_heart2 (Main.x m) (Main.y m) g in
    World.mk g m
  else w.

(** The heart sections of the 400 ms block. *)
Definition heartMovement (rs : list Z) (g : Game.t) : Game.t :=
  let '(rs, h) := driftHeart rs (Game.heart1 g) in
  let g := Game.set_heart1 h g in
  let '(rs, h) := driftHeart rs (Game.heart2 g) in
  let g := Game.set_heart2 h g in
  if Game.current_level g =? 2 then
    let '(rs, h) := driftHeart rs (Game.heart3 g) in
    let g := Game.set_heart3 h g in
    let '(rs, h) := driftHeart rs (Game.heart4 g) in
    Game.set_heart4 h g
  else g.

Definition deactivate (e : Enemy.t) : Enemy.t :=
  if truthy (Enemy.active e) then Enemy.set_active 0 e else e.

(** "Enemy Collision Check", as it stands inside the 400 ms block. *)
Definition enemyCollisionCheck (x y : Z) (g : Game.t) : Game.t :=
  if negb (truthy (Game.game_won g))
     && truthy (checkEnemyCollision x y (Game.enemies g)) then
    let g := Game.set_game_over 1 g in
    let g := Game.set_enemies (map deactivate (Game.enemies g)) g in
    let g := Game.set_show_game_over_menu 1 g in
    Game.set_game_over_selection 0 g
  else g.

(** The guard of the 400 ms block. *)
Definition heart_timer_due (g : Game.t) : bool :=
  (wrap32 (now g - Game.heart_move_delay g) >=? 400)
  && negb (truthy (Game.game_over g)).

(** "Heart Movement and Collision System": the whole 400 ms block. *)
Definition heartMovementAndCollision (i : Input.t) (w : World.t) : World.t :=
  let g := World.glob w in
  if heart_timer_due g then
    let g := heartMovement (Input.rnd i) g in
    let g := enemyCollisionCheck (Main.x (World.loc w)) (Main.y (World.loc w)) g in
    World.set_glob (Game.set_heart_move_delay (now g) g) w
  else w.

(** "Level 2 Heart Collection Logic". *)
Definition level2HeartCollection (w : World.t) : World.t :=
  let g := World.glob w in
  let m := World.loc w in
  if Game.current_level g =? 2 then
    let g := collectHeart Game.heart3 Game.set_heart3 (Main.x m) (Main.y m) g in
    let g := collectHeart Game.heart4 Game.set_heart4 (Main.x m) (Main.y m) g in
    World.set_glob g w
  else w.

(** The C operator [!]. *)
Definition lnot (z : Z) : Z := if z =? 0 then 1 else 0.

(** "Game Over/Win Menu Navigation". *)
Definition gameOverMenuNavigation (i : Input.t) (w : World.t) : World.t :=
  let g := World.glob w in
  if truthy (Game.game_over g) || truthy (Game.game_won g) then
    let toggle_selection (pressed : bool) (g : Game.t) : Game.t :=
      if pressed then
        let g := fg_delay 200 g in
        Game.set_game_over_selection (lnot (Game.game_over_selection g)) g
      else g in
    let g := toggle_selection (Input.over_down i) g in
    let g := toggle_selection (Input.over_up i) g in
    if Input.over_select i then
      let g := fg_delay 200 g in
      if Game.game_over_selection g =? 0 then
        let g := Game.set_current_level 1 g in
        let g := Game.set_game_over 0 g in
        let g := Game.set_game_won 0 g in
        let g := clear_eaten g in
        let g := Game.set_show_game_over_menu 0 g in
        let w := reset_positions (World.set_glob g w) in
        let g := World.glob w in
        World.set_glob
          (Game.set_enemies
             (initEnemies (Game.current_level g) (Game.enemies g)) g) w
      else
        let g := Game.set_in_menu 1 g in
        let g := Game.set_show_game_over_menu 0 g in
        World.set_glob (Game.set_current_level 1 g) w
    else World.set_glob g w
  else w.

(** The part of the loop body below the menu branch. *)
Definition playStep (i : Input.t) (w : World.t) : World.t :=
  let w := gameStateUpdates w in
  let w := playerMovement i w in
  let w := updatePlayerPosition w in
  let w := heartMovementAndCollision i w in
  let w := level2HeartCollection w in
  let w := gameOverMenuNavigation i w in
  World.set_glob (fg_delay 20 (World.glob w)) w.

(** One iteration of [while (1)]. *)
Definition loopBody (i : Input.t) (w : World.t) : World.t :=
  let g := World.glob w in
  let w := World.set_glob (Game.set_isr (ticks (Input.irq i) (Game.isr g)) g) w in
  if truthy (Game.in_menu (World.glob w)) then menuStep i w else playStep i w.

(** ** Vocabulary of the statements *)

(** The six hearts, in the order of their numbers. *)
Definition hearts (g : Game.t) : list Heart.t :=
  [Game.heart1 g; Game.heart2 g; Game.heart3 g; Game.heart4 g;
   Game.heart5 g; Game.heart6 g].

Definition heart_in_bounds (h : Heart.t) : Prop :=
  0 <= Heart.x h <= 115 /\ 0 <= Heart.y h <= 144.

(** Any number of drift steps, each with its own supply of random
    values. *)
Definition driftSteps (supplies : list (list Z)) (g : Game.t) : Game.t :=
  fold_left (fun g rs => heartMovement rs g) supplies g.

Definition inactive (e : Enemy.t) : Prop := Enemy.active e = 0.

(** What every state the loop reaches satisfies: an enemy in play is as
    [initEnemies] made it and on the playfield, hearts and player are on
    the playfield, and level 1 is never played with the game already
    won. *)
Definition enemy_ok (e : Enemy.t) : Prop :=
  Enemy.active e <> 0 ->
  Enemy.speed e = 1 /\ 0 <= Enemy.x e <= 115 /\ 0 <= Enemy.y e <= 144.

Definition player_ok (m : Main.t) : Prop :=
  0 <= Main.x m <= 115 /\ 0 <= Main.y m <= 144.

Definition game_ok (g : Game.t) : Prop :=
  Forall enemy_ok (Game.enemies g) /\
  Forall heart_in_bounds (hearts g) /\
  (Game.in_menu g = 0 -> Game.current_level g = 1 -> Game.game_won g = 0).

Definition world_ok (w : World.t) : Prop :=
  game_ok (World.glob w) /\ player_ok (World.loc w).

(** Inputs of the scenarios below: nothing pressed and no tick between
    iterations; [rand()] returns 1 throughout, so every heart draws the
    direction 0 and stays where it is. *)
Definition no_input : Input.t :=
  Input.mk 0 0 false false false 0 false false false false
           [1; 1; 1; 1; 1; 1; 1; 1] false false false.

(** The confirm button in the main menu. *)
Definition press_start : Input.t :=
  Input.mk 0 0 false false true 0 false false false false [] false false false.

(** Direction buttons held during play. *)
Definition hold (right left down up : bool) : Input.t :=
  Input.mk 0 0 false false false 0 right left down up
           [1; 1; 1; 1; 1; 1; 1; 1] false false false.

(** The states of the loop: [main_setup], then any inputs. *)
Definition run (my_notes : list Z) (inputs : list Input.t) : World.t :=
  fold_left (fun w i => loopBody i w) inputs (main_setup my_notes).

(** ** Pin setup *)

Module Gpio.

(** The two registers of a port that the program configures. *)
Record t : Type := mk {
  MODER : Z;
  PUPDR : Z
}.

End Gpio.

(** [enablePullUp]: the two pull-up bits of the pin are cleared, then the
    lower one is set; all in 32 bits. *)
Definition enablePullUp (Port : Gpio.t) (BitNumber : Z) : Gpio.t :=
  let pupdr :=
    Z.land (Gpio.PUPDR Port)
           (wrap32 (Z.lnot (wrap32 (Z.shiftl 3 (BitNumber * 2))))) in
  let pupdr := Z.lor pupdr (wrap32 (Z.shiftl 1 (BitNumber * 2))) in
  Gpio.mk (Gpio.MODER Port) pupdr.

(** [pinMode]. *)
Definition pinMode (Port : Gpio.t) (BitNumber Mode : Z) : Gpio.t :=
  let mode_value := Gpio.MODER Port in
  let Mode := wrap32 (Z.shiftl Mode (2 * BitNumber)) in
  let mode_value :=
    Z.land mode_value (wrap32 (Z.lnot (wrap32 (Z.shiftl 3 (BitNumber * 2))))) in
  let mode_value := Z.lor mode_value Mode in
  Gpio.mk mode_value (Gpio.PUPDR Port).

Module Periph.

(** The peripheral registers [setupIO] works on. *)
Record t : Type := mk {
  AHBENR : Z;
  GPIOA : Gpio.t;
  GPIOB : Gpio.t
}.

End Periph.

(** [setupIO].  [display_begin] belongs to the display driver, which is
    not part of the sources at hand: it is a parameter. *)
Definition setupIO (display_begin : Periph.t -> Periph.t) (p : Periph.t)
  : Periph.t :=
  let p := Periph.mk (Z.lor (Periph.AHBENR p) (Z.shiftl 1 18 + Z.shiftl 1 17))
                     (Periph.GPIOA p) (Periph.GPIOB p) in
  let p := display_begin p in
  let a := Periph.GPIOA p in
  let b := Periph.GPIOB p in
  let b := pinMode b 4 0 in
  let b := pinMode b 5 0 in
  let a := pinMode a 8 0 in
  let a := pinMode a 11 0 in
  let a := pinMode a 12 0 in
  let b := enablePullUp b 4 in
  let b := enablePullUp b 5 in
  let a := enablePullUp a 11 in
  let a := enablePullUp a 8 in
  Periph.mk (Periph.AHBENR p) a b.

(** ** Heart reset *)


(** ** Drawing the maze *)

(** [maze_level2]: as [maze], 17 rows given and three rows of zeros. *)
Definition maze_level2 : list (list Z) :=
  [ [1;1;1;1;1;1;1;1;1;1;1;1;1;1;1;1];
    [1;0;0;0;1;0;0;0;0;0;1;0;0;0;0;1];
    [1;0;1;0;1;0;1;1;1;0;1;0;1;1;0;1];
    [1;0;1;0;0;0;0;0;1;0;0;0;0;1;0;1];
    [1;0;1;1;1;1;1;0;1;1;1;1;0;1;0;1];
    [1;0;0;0;0;0;1;0;0;0;0;0;0;0;0;1];
    [1;1;1;1;1;0;1;1;1;0;1;1;1;1;0;1];
    [1;0;0;0;1;0;0;0;1;0;1;0;0;0;0;1];
    [1;0;1;0;1;1;1;0;1;0;1;0;1;1;1;1];
    [1;0;1;0;0;0;0;0;0;0;1;0;0;0;0;1];
    [1;0;1;1;1;1;1;1;1;1;1;1;1;1;0;1];
    [1;0;0;0;0;0;1;0;0;0;0;0;0;1;0;1];
    [1;0;1;1;1;0;1;0;1;1;1;1;0;1;0;1];
    [1;0;0;0;1;0;0;0;1;0;0;0;0;0;0;1];
    [1;1;1;0;1;1;1;1;1;0;1;1;1;1;0;1];
    [1;0;0;0;0;0;0;0;0;0;0;0;0;0;0;1];
    [1;1;1;1;1;1;1;1;1;1;1;1;1;1;1;1];
    [0;0;0;0;0;0;0;0;0;0;0;0;0;0;0;0];
    [0;0;0;0;0;0;0;0;0;0;0;0;0;0;0;0];
    [0;0;0;0;0;0;0;0;0;0;0;0;0;0;0;0] ].

(** The two colours of [drawBackground], by the names of their macros. *)
Inductive Color : Type :=
| PATH_COLOR
| WALL_COLOR.

(** A call of the display driver's [fillRectangle]. *)
Inductive Draw : Type :=
| fillRectangle (x y w h : Z) (colour : Color).

(** [current_maze[y][x]] for loop counters inside the array. *)
Definition tile_of (current_maze : list (list Z)) (y x : nat) : Z :=
  default 0 (row ← current_maze !! y; row !! x).

(** [drawBackground]: the calls it makes, in order. *)
Definition drawBackground (current_level : Z) : list Draw :=
  let current_maze := if current_level =? 1 then maze else maze_level2 in
  fillRectangle 0 0 128 160 PATH_COLOR ::
  flat_map
    (fun y =>
       flat_map
         (fun x =>
            if tile_of current_maze y x =? 1
            then [fillRectangle (Z.of_nat x * WALL_SIZE) (Z.of_nat y * WALL_SIZE)
                                WALL_SIZE WALL_SIZE WALL_COLOR]
            else [])
         (seq 0 16))
    (seq 0 20).

(** ** More vocabulary *)

(** The two configuration bits of pin [pin] in a 32-bit port register. *)
Definition pin_field (register pin : Z) : Z :=
  Z.land (Z.shiftr register (2 * pin)) 3.

(** The ticks a note of the given duration holds the sequencer. *)
Definition note_ticks (duration : Z) : Z := Z.max (to_int duration) 1.

(** The count the win check computes, and its test. *)
Definition eaten_count (g : Game.t) : Z :=
  if Game.current_level g =? 2 then
    Heart.eaten (Game.heart1 g) + Heart.eaten (Game.heart2 g)
    + (Heart.eaten (Game.heart3 g) + Heart.eaten (Game.heart4 g))
  else Heart.eaten (Game.heart1 g) + Heart.eaten (Game.heart2 g).

Definition win_check_fires (g : Game.t) : bool :=
  (eaten_count g =? required_hearts (Game.current_level g))
  && negb (truthy (Game.game_won g)).

Definition flag (z : Z) : Prop := z = 0 \/ z = 1.

(** The enemy array has its six entries and the last three are off. *)
Definition roster_ok (es : list Enemy.t) : Prop :=
  length es = MAX_ENEMIES /\
  forall k e, (3 <= k)%nat -> es !! k = Some e -> Enemy.active e = 0.

(** Values the variables of the game never leave. *)
Definition game_shape (g : Game.t) : Prop :=
  roster_ok (Game.enemies g) /\
  (Game.current_level g = 1 \/ Game.current_level g = 2) /\
  0 <= Game.selected_option g <= 2 /\
  flag (Game.game_over_selection g) /\
  flag (Game.game_over g) /\ flag (Game.game_won g) /\
  flag (Heart.eaten (Game.heart1 g)) /\ flag (Heart.eaten (Game.heart2 g)) /\
  flag (Heart.eaten (Game.heart3 g)) /\ flag (Heart.eaten (Game.heart4 g)) /\
  Game.heart5 g = Heart.mk 90 110 1 1 0 /\
  Game.heart6 g = Heart.mk 20 60 1 1 0.

Definition player_shape (m : Main.t) : Prop :=
  2 <= Main.x m <= 115 /\ 1 <= Main.y m <= 144.

Definition world_shape (w : World.t) : Prop :=
  game_shape (World.glob w) /\ player_shape (World.loc w).

(** Where the six hearts are. *)
Definition heart_positions (g : Game.t) : list (Z * Z) :=
  map (fun h => (Heart.x h, Heart.y h)) (hearts g).

(** The global state after [n] more ticks of the interrupt and nothing
    else. *)
Definition after_ticks (n : nat) (g : Game.t) : Game.t :=
  Game.set_isr (ticks n (Game.isr g)) g.

(** From [g] to [g'] neither heart 1 nor heart 2 became eaten: each flag
    is as it was, or cleared. *)
Definition not_newly_eaten (g g' : Game.t) : Prop :=
  (Heart.eaten (Game.heart1 g') = Heart.eaten (Game.heart1 g)
   \/ Heart.eaten (Game.heart1 g') = 0) /\
  (Heart.eaten (Game.heart2 g') = Heart.eaten (Game.heart2 g)
   \/ Heart.eaten (Game.heart2 g') = 0).

(** * Properties *)

(** Boolean comparisons in the context, as propositions. *)
Ltac zbool :=
  repeat match goal with
    | H : (_ <? _) = true |- _ => apply Z.ltb_lt in H
    | H : (_ <? _) = false |- _ => apply Z.ltb_ge in H
    | H : (_ <=? _) = true |- _ => apply Z.leb_le in H
    | H : (_ <=? _) = false |- _ => apply Z.leb_gt in H
    | H : (_ >? _) = true |- _ => rewrite Z.gtb_ltb in H
    | H : (_ >? _) = false |- _ => rewrite Z.gtb_ltb in H
    | H : (_ >=? _) = true |- _ => rewrite Z.geb_leb in H
    | H : (_ >=? _) = false |- _ => rewrite Z.geb_leb in H
    | H : (_ =? _) = true |- _ => apply Z.eqb_eq in H
    | H : (_ =? _) = false |- _ => apply Z.eqb_neq in H
    end.

(** Case analysis on the innermost test of the goal. *)
Ltac case_test :=
  match goal with
  | |- context [if ?c then _ else _] =>
    lazymatch c with
    | context [if _ then _ else _] => fail
    | _ => destruct c eqn:?
    end
  end; zbool.

Lemma wrap16_small z : 0 <= z < 65536 -> wrap16 z = z.
Proof. intros H. unfold wrap16. apply Z.mod_small. lia. Qed.

Lemma wrap32_small z : 0 <= z < 4294967296 -> wrap32 z = z.
Proof. intros H. unfold wrap32. apply Z.mod_small. lia. Qed.

Lemma wrap16_range z : 0 <= wrap16 z < 65536.
Proof. unfold wrap16. apply Z.mod_pos_bound. lia. Qed.

Lemma wrap32_range z : 0 <= wrap32 z < 4294967296.
Proof. unfold wrap32. apply Z.mod_pos_bound. lia. Qed.

Lemma isInside_bool x1 y1 w h px py :
  isInside x1 y1 w h px py = 0 \/ isInside x1 y1 w h px py = 1.
Proof.
  unfold isInside.
  destruct ((px >=? x1) && (px <=? wrap16 (x1 + w)));
    destruct ((py >=? y1) && (py <=? wrap16 (y1 + h))); auto.
Qed.

Lemma isInside_true_iff x1 y1 w h px py :
  isInside x1 y1 w h px py = 1 <->
  (x1 <= px <= wrap16 (x1 + w)) /\ (y1 <= py <= wrap16 (y1 + h)).
Proof.
  unfold isInside.
  destruct (px >=? x1) eqn:Ex1; destruct (px <=? wrap16 (x1 + w)) eqn:Ex2;
    destruct (py >=? y1) eqn:Ey1; destruct (py <=? wrap16 (y1 + h)) eqn:Ey2;
    simpl; split; intros H; try discriminate; try reflexivity; lia.
Qed.

(** Without 16-bit overflow of the far corner the test is the closed
    interval test on both axes. *)
Lemma isInside_closed_interval x1 y1 w h px py :
  0 <= x1 + w < 65536 -> 0 <= y1 + h < 65536 ->
  (isInside x1 y1 w h px py = 1 <->
   (x1 <= px <= x1 + w) /\ (y1 <= py <= y1 + h)).
Proof.
  intros Hx Hy. rewrite isInside_true_iff.
  rewrite (wrap16_small (x1 + w)) by assumption.
  rewrite (wrap16_small (y1 + h)) by assumption.
  reflexivity.
Qed.

(** C5 (as stated): "for all rectangle parameters ... [isInside] returns
    true iff x1 <= px <= x1+w and y1 <= py <= y1+h" fails when the far
    corner overflows 16 bits: the rectangle at x1 = 65530 of width 12 has
    its far edge stored as 6, so the point px = 65535, which lies in
    [65530, 65542], is rejected. *)
Lemma isInside_overflow_counterexample :
  (65530 <= 65535 <= 65530 + 12) /\ (0 <= 0 <= 0 + 16) /\
  isInside 65530 0 12 16 65535 0 = 0.
Proof. repeat split; try lia. Qed.

(** C5 (amended): for all rectangle parameters and all points, [isInside]
    returns 1 iff x1 <= px <= (x1+w) mod 2^16 and
    y1 <= py <= (y1+h) mod 2^16, and returns 0 otherwise; whenever x1+w
    and y1+h are at most 65535 this is the closed interval test
    x1 <= px <= x1+w and y1 <= py <= y1+h; for the rectangle at (10,10)
    sized 12x16 the points (10,10) and (22,26) are contained and (23,10)
    is not. *)
Theorem isInside_spec :
  (forall x1 y1 w h px py,
      (isInside x1 y1 w h px py = 1 <->
       (x1 <= px <= wrap16 (x1 + w)) /\ (y1 <= py <= wrap16 (y1 + h))) /\
      (isInside x1 y1 w h px py = 0 \/ isInside x1 y1 w h px py = 1)) /\
  (forall x1 y1 w h px py,
      0 <= x1 + w < 65536 -> 0 <= y1 + h < 65536 ->
      (isInside x1 y1 w h px py = 1 <->
       (x1 <= px <= x1 + w) /\ (y1 <= py <= y1 + h))) /\
  isInside 10 10 12 16 10 10 = 1 /\
  isInside 10 10 12 16 22 26 = 1 /\
  isInside 10 10 12 16 23 10 = 0.
Proof.
  split; [| split; [| repeat split]].
  - intros x1 y1 w h px py. split.
    + apply isInside_true_iff.
    + apply isInside_bool.
  - intros x1 y1 w h px py. apply isInside_closed_interval.
Qed.

(** The box of a pumpkin in the far corner of the playfield, with a point
    on its far edges and a point just beyond. *)
Lemma isInside_spec_witness :
  isInside 115 144 12 16 127 160 = 1 /\ isInside 115 144 12 16 128 160 <> 1.
Proof.
  destruct isInside_spec as (_ & Hclosed & _).
  split.
  - apply Hclosed; lia.
  - intros H. apply Hclosed in H; lia.
Defined.

(** ** The tick interrupt *)

Lemma SysTick_milliseconds s :
  Isr.milliseconds (SysTick_Handler s) = wrap32 (Isr.milliseconds s + 1).
Proof.
  unfold SysTick_Handler.
  destruct s as [ms notes times count rep idx timer tr]; simpl.
  destruct notes as [ns|]; simpl; [| reflexivity].
  destruct (timer =? 0) eqn:Et; simpl.
  - destruct (wrap32 (idx + 1) >=? count); simpl.
    + destruct (rep =? 0); simpl; rewrite Et; reflexivity.
    + destruct (to_int _ =? 0); reflexivity.
  - rewrite Et. reflexivity.
Qed.

Lemma ticks_succ n s : ticks (S n) s = ticks n (SysTick_Handler s).
Proof. unfold ticks. apply Nat.iter_succ_r. Qed.

Lemma ticks_milliseconds n s :
  0 <= Isr.milliseconds s < 4294967296 ->
  Isr.milliseconds (ticks n s) = wrap32 (Isr.milliseconds s + Z.of_nat n).
Proof.
  revert s. induction n as [|n IH]; intros s Hs.
  - simpl. rewrite Z.add_0_r, wrap32_small; [reflexivity | assumption].
  - rewrite ticks_succ, IH, SysTick_milliseconds.
    + unfold wrap32. rewrite Zplus_mod_idemp_l. f_equal. lia.
    + rewrite SysTick_milliseconds. apply wrap32_range.
Qed.

(** The loop of [delay] leaves after exactly as many ticks as the counter
    is away from [end_time], and not with fewer. *)
Lemma delay_wait_exact fuel :
  forall (k : nat) (end_time : Z) (s : Isr.t),
    0 <= Isr.milliseconds s < 4294967296 ->
    0 <= end_time < 4294967296 ->
    wrap32 (end_time - Isr.milliseconds s) = Z.of_nat k ->
    ((k <= fuel)%nat -> delay_wait fuel end_time s = Some (ticks k s, k)) /\
    ((fuel < k)%nat -> delay_wait fuel end_time s = None).
Proof.
  induction fuel as [|fuel IH]; intros k end_time s Hs He Hk.
  - simpl. destruct (Isr.milliseconds s =? end_time) eqn:E.
    + apply Z.eqb_eq in E. rewrite E, Z.sub_diag in Hk.
      change (wrap32 0) with 0 in Hk.
      assert (k = 0%nat) by lia. subst k. split; [reflexivity | lia].
    + apply Z.eqb_neq in E. split; [| reflexivity].
      intros Hle. assert (k = 0%nat) by lia. subst k.
      unfold wrap32 in Hk. exfalso. apply E.
      apply Z.mod_divide in Hk; [| lia]. destruct Hk as [q Hq]. nia.
  - simpl. destruct (Isr.milliseconds s =? end_time) eqn:E.
    + apply Z.eqb_eq in E. rewrite E, Z.sub_diag in Hk.
      change (wrap32 0) with 0 in Hk.
      assert (k = 0%nat) by lia. subst k. split; [reflexivity | lia].
    + apply Z.eqb_neq in E.
      destruct k as [|k].
      { unfold wrap32 in Hk. exfalso. apply E.
        apply Z.mod_divide in Hk; [| lia]. destruct Hk as [q Hq]. nia. }
      destruct (IH k end_time (SysTick_Handler s)) as [Hin Hout].
      * rewrite SysTick_milliseconds. apply wrap32_range.
      * assumption.
      * rewrite SysTick_milliseconds. unfold wrap32 in *.
        pose proof (Z.mod_pos_bound (end_time - Isr.milliseconds s)
                      4294967296 ltac:(lia)) as Hb.
        rewrite Zminus_mod_idemp_r.
        replace (end_time - (Isr.milliseconds s + 1))
          with ((end_time - Isr.milliseconds s) - 1) by lia.
        rewrite <- Zminus_mod_idemp_l, Hk.
        rewrite Z.mod_small; lia.
      * split; intros Hf.
        -- rewrite Hin by lia. rewrite ticks_succ. reflexivity.
        -- rewrite Hout by lia. reflexivity.
Qed.

Lemma delay_distance d t :
  0 <= d < 4294967296 ->
  wrap32 (wrap32 (d + t) - t) = Z.of_nat (Z.to_nat d).
Proof.
  intros Hd. unfold wrap32. rewrite Zminus_mod_idemp_l.
  replace (d + t - t) with d by lia.
  rewrite Z.mod_small by lia. lia.
Qed.

(** With as many ticks of fuel as the requested duration, [delay_upto]
    returns: [delay] is the state after exactly [dly] ticks. *)
Lemma delay_upto_enough dly s :
  0 <= Isr.milliseconds s < 4294967296 ->
  delay dly s = ticks (Z.to_nat (wrap32 dly)) s.
Proof.
  intros Hs. unfold delay, delay_upto.
  destruct (delay_wait_exact (Z.to_nat (wrap32 dly)) (Z.to_nat (wrap32 dly))
              (wrap32 (dly + Isr.milliseconds s)) s) as [Hin _].
  - assumption.
  - apply wrap32_range.
  - unfold wrap32. rewrite Zminus_mod_idemp_l.
    replace (dly + Isr.milliseconds s - Isr.milliseconds s) with dly by lia.
    pose proof (Z.mod_pos_bound dly 4294967296). lia.
  - rewrite Hin by lia. reflexivity.
Qed.

(** C6: a [delay d] entered when the counter reads [t1] (both 32-bit
    values) leaves its loop after exactly [d] ticks, when the counter
    reads [t1 + d] modulo 2^32: with at least [d] ticks it returns, having
    slept through [d] of them; with fewer it is still waiting; and
    [delay 0] returns at once, without a single tick. *)
Theorem delay_unblocks_exactly (s : Isr.t) (d : Z) :
  0 <= Isr.milliseconds s < 4294967296 ->
  0 <= d < 4294967296 ->
  let t1 := Isr.milliseconds s in
  let s' := ticks (Z.to_nat d) s in
  (forall fuel, (Z.to_nat d <= fuel)%nat ->
                delay_upto fuel d s = Some (s', Z.to_nat d)) /\
  (forall fuel, (fuel < Z.to_nat d)%nat -> delay_upto fuel d s = None) /\
  Isr.milliseconds s' = wrap32 (t1 + d) /\
  delay d s = s' /\
  (forall fuel, delay_upto fuel 0 s = Some (s, 0%nat)).
Proof.
  intros Hs Hd t1 s'. subst t1 s'.
  assert (Hex : forall fuel,
             ((Z.to_nat d <= fuel)%nat ->
              delay_upto fuel d s = Some (ticks (Z.to_nat d) s, Z.to_nat d)) /\
             ((fuel < Z.to_nat d)%nat -> delay_upto fuel d s = None)).
  { intros fuel. unfold delay_upto. apply delay_wait_exact.
    - assumption.
    - apply wrap32_range.
    - apply delay_distance. assumption. }
  repeat split.
  - intros fuel. apply Hex.
  - intros fuel. apply Hex.
  - rewrite ticks_milliseconds by assumption. f_equal. lia.
  - rewrite delay_upto_enough by assumption.
    rewrite wrap32_small by assumption. reflexivity.
  - intros fuel. unfold delay_upto. rewrite Z.add_0_l.
    rewrite wrap32_small by assumption.
    destruct fuel; simpl; rewrite Z.eqb_refl; reflexivity.
Qed.

(** A delay of 10 ms entered 6 ticks before the counter wraps. *)
Lemma delay_unblocks_exactly_witness :
  let s := Isr.mk 4294967290 None None 0 0 0 0 [] in
  delay_upto 10 10 s = Some (Isr.mk 4 None None 0 0 0 0 [], 10%nat) /\
  delay_upto 9 10 s = None.
Proof.
  intros s.
  destruct (delay_unblocks_exactly s 10) as (Hin & Hout & _).
  - simpl. lia.
  - lia.
  - split.
    + rewrite (Hin 10%nat) by (simpl; lia). reflexivity.
    + apply Hout. simpl. lia.
Defined.

(** From here on [delay] is used through the lemmas above only. *)
Opaque delay.

(** ** The background tune *)

(** Whatever the state, a tick requests at most one tone, and then it is
    the note at the incremented index, which the timer is loaded for.  An
    index that was not negative therefore never leads to note 0. *)
Lemma SysTick_requests s :
  Isr.tones (SysTick_Handler s) = Isr.tones s \/
  (Isr.index (SysTick_Handler s) = Isr.index s + 1 /\
   Isr.tones (SysTick_Handler s)
   = load (Isr.background_tune_notes s) (Isr.index s + 1) :: Isr.tones s).
Proof.
  unfold SysTick_Handler.
  destruct s as [ms notes times count rep idx timer tr]; simpl.
  destruct notes as [ns|]; simpl; [| left; reflexivity].
  destruct (timer =? 0) eqn:Et; simpl.
  - destruct (wrap32 (idx + 1) >=? count); simpl.
    + destruct (rep =? 0); simpl; rewrite Et; left; reflexivity.
    + destruct (to_int _ =? 0); right; split; reflexivity.
  - rewrite Et. left. reflexivity.
Qed.

(** The step to a next note that exists: its duration is loaded, its
    tone requested, and the first of its ticks is counted at once. *)
Lemma SysTick_advance s ns :
  Isr.background_tune_notes s = Some ns ->
  Isr.current_note_timer s = 0 ->
  wrap32 (Isr.index s + 1) < Isr.background_tune_note_count s ->
  let duration := to_int (load (Isr.background_tune_times s) (Isr.index s + 1)) in
  Isr.index (SysTick_Handler s) = Isr.index s + 1 /\
  Isr.tones (SysTick_Handler s) = load (Some ns) (Isr.index s + 1) :: Isr.tones s /\
  Isr.current_note_timer (SysTick_Handler s)
  = (if duration =? 0 then 0 else duration - 1).
Proof.
  intros Hn Ht Hc. unfold SysTick_Handler.
  destruct s as [ms notes times count rep idx timer tr]; simpl in *.
  subst notes timer. simpl.
  destruct (wrap32 (idx + 1) >=? count) eqn:E; [lia |]. simpl.
  destruct (to_int (load times (idx + 1)) =? 0) eqn:Ed; simpl;
    repeat split.
  apply Z.eqb_eq in Ed. exact Ed.
Qed.

(** The wrap-around of a repeating tune: the index goes back to 0, and
    that is all; no duration is loaded and no tone is requested. *)
Lemma SysTick_wrap s ns :
  Isr.background_tune_notes s = Some ns ->
  Isr.current_note_timer s = 0 ->
  Isr.background_tune_note_count s <= wrap32 (Isr.index s + 1) ->
  Isr.background_repeat_tune s <> 0 ->
  Isr.index (SysTick_Handler s) = 0 /\
  Isr.current_note_timer (SysTick_Handler s) = 0 /\
  Isr.tones (SysTick_Handler s) = Isr.tones s.
Proof.
  intros Hn Ht Hc Hr. unfold SysTick_Handler.
  destruct s as [ms notes times count rep idx timer tr]; simpl in *.
  subst notes timer. simpl.
  destruct (wrap32 (idx + 1) >=? count) eqn:E; [| lia].
  destruct (rep =? 0) eqn:Er; [lia |]. simpl. repeat split.
Qed.

(** C3, at the failing input: the tune of [main] (five notes, durations
    200, 300, 400, 100, 500, repeating) on its last note with no tick
    remaining.  The tick takes the index back to 0 but loads no duration
    and requests no tone; the tick after it goes on to index 1 and
    requests the second note, so the first note is passed over. *)
Theorem SysTick_repeat_skips_first_note (A3 C5 B2 D1 F6 ms : Z) :
  let s := Isr.mk ms (Some [A3; C5; B2; D1; F6]) (Some my_note_times)
                  5 1 4 0 [] in
  let s1 := SysTick_Handler s in
  let s2 := SysTick_Handler s1 in
  (Isr.index s1 = 0 /\ Isr.current_note_timer s1 = 0 /\ Isr.tones s1 = []) /\
  (Isr.index s2 = 1 /\ Isr.current_note_timer s2 = 299 /\ Isr.tones s2 = [C5]).
Proof.
  intros s s1 s2. repeat split.
Qed.

(** The tune as [main] installs it, from the first tick on: the notes
    requested over the first cycle and into the second are the second,
    third, fourth and fifth, then the second again (most recent first
    below); the first note never sounds. *)
Lemma background_tune_first_cycle (A3 C5 B2 D1 F6 : Z) :
  let s := Isr.mk 0 (Some [A3; C5; B2; D1; F6]) (Some my_note_times)
                  5 1 0 0 [] in
  Isr.tones (ticks 1301 s) = [F6; D1; B2; C5] /\
  Isr.index (ticks 1301 s) = 0 /\
  Isr.tones (ticks 1302 s) = [C5; F6; D1; B2; C5].
Proof. intros s. vm_compute. repeat split. Qed.

(** ** The maze *)

Lemma maze_at_in_bounds gy gx :
  0 <= gy < 20 -> 0 <= gx < 16 -> exists tile, maze_at gy gx = Some tile.
Proof.
  intros Hy Hx. unfold maze_at.
  assert (Hrows : forall r, (r < 20)%nat ->
            exists row, maze !! r = Some row /\ length row = 16%nat).
  { intros r Hr. do 20 (destruct r as [|r]; [eexists; split; reflexivity |]). lia. }
  destruct (Hrows (Z.to_nat gy)) as (row & Hrow & Hlen); [lia |].
  rewrite Hrow. simpl.
  destruct (lookup_lt_is_Some_2 row (Z.to_nat gx)) as [tile Ht]; [lia |].
  exists tile. exact Ht.
Qed.

(** C9: [isWallCollision] maps a pixel to the cell (x / 8, y / 8); when
    that cell is outside the 16 x 20 grid it answers 1 (wall), and inside
    it reads the tile, which is always there, and answers 1 exactly when
    the tile is 1 (wall). *)
Theorem isWallCollision_fail_closed (x y : Z) :
  let gridX := Z.quot x 8 in
  let gridY := Z.quot y 8 in
  (~ (0 <= gridX < 16 /\ 0 <= gridY < 20) -> isWallCollision x y = Some 1) /\
  (0 <= gridX < 16 /\ 0 <= gridY < 20 ->
   exists tile, maze_at gridY gridX = Some tile /\
                isWallCollision x y = Some (if tile =? 1 then 1 else 0) /\
                (isWallCollision x y = Some 1 <-> tile = 1)) /\
  (0 <= x < 65536 -> 0 <= y < 65536 ->
   (128 <= x \/ 160 <= y) -> isWallCollision x y = Some 1).
Proof.
  intros gridX gridY.
  assert (Hout : ~ (0 <= gridX < 16 /\ 0 <= gridY < 20) ->
                 isWallCollision x y = Some 1).
  { intros Hn. unfold isWallCollision, WALL_SIZE. fold gridX gridY.
    destruct ((gridX >=? 0) && (gridX <? 16) && (gridY >=? 0) && (gridY <? 20))
      eqn:E; [| reflexivity].
    exfalso. apply Hn.
    repeat (apply andb_prop in E; destruct E as [E ?]). lia. }
  split; [exact Hout |]. split.
  - intros [Hx Hy].
    destruct (maze_at_in_bounds gridY gridX Hy Hx) as [tile Ht].
    exists tile. split; [exact Ht |].
    assert (Hres : isWallCollision x y = Some (if tile =? 1 then 1 else 0)).
    { unfold isWallCollision, WALL_SIZE. fold gridX gridY.
      replace ((gridX >=? 0) && (gridX <? 16) && (gridY >=? 0) && (gridY <? 20))
        with true.
      - rewrite Ht. reflexivity.
      - symmetry. repeat (apply andb_true_intro; split); lia. }
    split; [exact Hres |]. rewrite Hres.
    destruct (tile =? 1) eqn:E.
    + apply Z.eqb_eq in E. split; intros _; [exact E | reflexivity].
    + apply Z.eqb_neq in E. split; intros H; [discriminate | contradiction].
  - intros Hx Hy Hfar. apply Hout. subst gridX gridY. intros [Hgx Hgy].
    destruct Hfar as [Hfar | Hfar].
    + assert (16 <= Z.quot x 8) by (apply Z.quot_le_lower_bound; lia). lia.
    + assert (20 <= Z.quot y 8) by (apply Z.quot_le_lower_bound; lia). lia.
Qed.

(** A pixel right of the grid, a path tile and a wall tile. *)
Lemma isWallCollision_fail_closed_witness :
  isWallCollision 200 50 = Some 1 /\
  isWallCollision 12 12 = Some 0 /\
  isWallCollision 50 20 = Some 1.
Proof.
  destruct (isWallCollision_fail_closed 200 50) as (_ & _ & Hfar).
  destruct (isWallCollision_fail_closed 12 12) as (_ & Hin & _).
  destruct (isWallCollision_fail_closed 50 20) as (_ & Hin2 & _).
  split; [apply Hfar; lia |].
  assert (H1 : 0 <= Z.quot 12 8 < 16 /\ 0 <= Z.quot 12 8 < 20)
    by (repeat split;
        first [apply Z.leb_le; reflexivity | apply Z.ltb_lt; reflexivity]).
  assert (H2 : 0 <= Z.quot 50 8 < 16 /\ 0 <= Z.quot 20 8 < 20)
    by (repeat split;
        first [apply Z.leb_le; reflexivity | apply Z.ltb_lt; reflexivity]).
  destruct (Hin H1) as (tile & Ht & Hres & _).
  destruct (Hin2 H2) as (tile2 & Ht2 & Hres2 & _).
  injection Ht as <-. injection Ht2 as <-.
  split; [exact Hres | exact Hres2].
Defined.

(** ** Enemy pursuit *)

Lemma truthy_true z : z <> 0 -> truthy z = true.
Proof. intros H. unfold truthy. destruct (z =? 0) eqn:E; zbool; [contradiction | reflexivity]. Qed.

Lemma truthy_false z : z = 0 -> truthy z = false.
Proof. intros ->. reflexivity. Qed.

Lemma moveEnemy_inactive level ms px py e :
  Enemy.active e = 0 -> moveEnemy level ms px py e = e.
Proof. intros H. unfold moveEnemy. rewrite truthy_false by assumption. reflexivity. Qed.

(** The x coordinate after the step, for a pumpkin as [initEnemies] makes
    it (speed 1) that is on the playfield. *)
Lemma moveEnemy_x level ms px py e :
  Enemy.active e <> 0 -> Enemy.speed e = 1 ->
  0 <= Enemy.x e <= 115 -> 0 <= px ->
  let x' := Enemy.x (moveEnemy level ms px py e) in
  Z.abs (x' - Enemy.x e) <= 1 /\ Z.abs (px - x') <= Z.abs (px - Enemy.x e) /\
  0 <= x' <= 115 /\
  (level <> 2 \/ ms mod 2 = 0 -> px <= 115 ->
   x' = Enemy.x e + Z.sgn (px - Enemy.x e)) /\
  (level = 2 -> ms mod 2 <> 0 -> x' = Enemy.x e).
Proof.
  intros Ha Hs Hx Hp. unfold moveEnemy. rewrite truthy_true by assumption.
  rewrite Hs. cbn [Enemy.x Enemy.set_x Enemy.set_y].
  destruct (level =? 2) eqn:El; [destruct (ms mod 2 =? 0) eqn:Em |]; zbool;
    repeat (case_test; rewrite ?wrap16_small in * by lia);
    try rewrite Z.add_0_r in *; try rewrite Z.sub_0_r in *;
    repeat (case_test; rewrite ?wrap16_small in * by lia); lia.
Qed.

Lemma moveEnemy_y level ms px py e :
  Enemy.active e <> 0 -> Enemy.speed e = 1 ->
  0 <= Enemy.y e <= 144 -> 0 <= py ->
  let y' := Enemy.y (moveEnemy level ms px py e) in
  Z.abs (y' - Enemy.y e) <= 1 /\ Z.abs (py - y') <= Z.abs (py - Enemy.y e) /\
  0 <= y' <= 144 /\
  (level <> 2 \/ ms mod 2 = 0 -> py <= 144 ->
   y' = Enemy.y e + Z.sgn (py - Enemy.y e)) /\
  (level = 2 -> ms mod 2 <> 0 -> y' = Enemy.y e).
Proof.
  intros Ha Hs Hy Hp. unfold moveEnemy. rewrite truthy_true by assumption.
  rewrite Hs. cbn [Enemy.y Enemy.set_x Enemy.set_y].
  destruct (level =? 2) eqn:El; [destruct (ms mod 2 =? 0) eqn:Em |]; zbool;
    repeat (case_test; rewrite ?wrap16_small in * by lia);
    try rewrite Z.add_0_r in *; try rewrite Z.sub_0_r in *;
    repeat (case_test; rewrite ?wrap16_small in * by lia); lia.
Qed.

Lemma moveEnemy_flags level ms px py e :
  Enemy.active (moveEnemy level ms px py e) = Enemy.active e /\
  Enemy.speed (moveEnemy level ms px py e) = Enemy.speed e.
Proof.
  unfold moveEnemy. destruct (truthy (Enemy.active e)); split; reflexivity.
Qed.

(** An enemy-update pass (game not won, the level's delay elapsed) runs
    the body of the loop on every entry of the array. *)
Lemma moveEnemies_pass px py g :
  Game.game_won g = 0 ->
  (if Game.current_level g =? 1 then 30 else 65)
  <= wrap32 (now g - Game.pumpkin_move_delay g) ->
  Game.enemies (moveEnemies px py g)
  = map (moveEnemy (Game.current_level g) (now g) px py) (Game.enemies g).
Proof.
  intros Hw Hd. unfold moveEnemies. rewrite truthy_false by assumption.
  destruct (wrap32 (now g - Game.pumpkin_move_delay g)
            <? (if Game.current_level g =? 1 then 30 else 65)) eqn:E; zbool.
  - lia.
  - reflexivity.
Qed.

(** C8: on an enemy-update pass every active enemy (speed 1 and on the
    playfield, as [initEnemies] creates them) moves by at most one unit
    on each axis, never away from the player, the x axis being decided by
    the x coordinates alone and the y axis by the y coordinates alone; on
    a pass of level 1, or of level 2 at an even tick, it moves by exactly
    one unit towards a player that is on the playfield on every axis
    where they differ; inactive enemies stay.  With the player at (50,50)
    an enemy at (10,10) with speed 1 is moved to (11,11). *)
Theorem moveEnemies_pursuit :
  (forall (px py : Z) (g : Game.t) (i : nat) (e : Enemy.t),
      Game.game_won g = 0 ->
      (if Game.current_level g =? 1 then 30 else 65)
      <= wrap32 (now g - Game.pumpkin_move_delay g) ->
      Game.enemies g !! i = Some e ->
      Enemy.active e <> 0 -> Enemy.speed e = 1 ->
      0 <= Enemy.x e <= 115 -> 0 <= Enemy.y e <= 144 ->
      0 <= px -> 0 <= py ->
      exists e',
        Game.enemies (moveEnemies px py g) !! i = Some e' /\
        e' = moveEnemy (Game.current_level g) (now g) px py e /\
        Z.abs (Enemy.x e' - Enemy.x e) <= 1 /\
        Z.abs (Enemy.y e' - Enemy.y e) <= 1 /\
        Z.abs (px - Enemy.x e') <= Z.abs (px - Enemy.x e) /\
        Z.abs (py - Enemy.y e') <= Z.abs (py - Enemy.y e) /\
        (forall py2 y2,
            Enemy.x (moveEnemy (Game.current_level g) (now g) px py2
                       (Enemy.set_y y2 e)) = Enemy.x e') /\
        (forall px2 x2,
            Enemy.y (moveEnemy (Game.current_level g) (now g) px2 py
                       (Enemy.set_x x2 e)) = Enemy.y e') /\
        (Game.current_level g <> 2 \/ now g mod 2 = 0 ->
         px <= 115 -> py <= 144 ->
         Enemy.x e' = Enemy.x e + Z.sgn (px - Enemy.x e) /\
         Enemy.y e' = Enemy.y e + Z.sgn (py - Enemy.y e))) /\
  (forall level ms px py e,
      Enemy.active e = 0 -> moveEnemy level ms px py e = e) /\
  (forall ms, moveEnemy 1 ms 50 50 (Enemy.mk 10 10 1 1) = Enemy.mk 11 11 1 1).
Proof.
  split; [| split].
  - intros px py g i e Hw Hd Hi Ha Hs Hx Hy Hpx Hpy.
    exists (moveEnemy (Game.current_level g) (now g) px py e).
    split.
    { rewrite moveEnemies_pass by assumption.
      rewrite list_lookup_fmap, Hi. reflexivity. }
    split; [reflexivity |].
    destruct (moveEnemy_x (Game.current_level g) (now g) px py e Ha Hs Hx Hpx)
      as (Hx1 & Hx2 & _ & Hx3 & _).
    destruct (moveEnemy_y (Game.current_level g) (now g) px py e Ha Hs Hy Hpy)
      as (Hy1 & Hy2 & _ & Hy3 & _).
    repeat split; try assumption.
    + intros py2 y2. unfold moveEnemy. cbn [Enemy.active Enemy.set_y].
      destruct (truthy (Enemy.active e)); reflexivity.
    + intros px2 x2. unfold moveEnemy. cbn [Enemy.active Enemy.set_x].
      destruct (truthy (Enemy.active e)); reflexivity.
    + apply Hx3; assumption.
    + apply Hy3; assumption.
  - intros level ms px py e. apply moveEnemy_inactive.
  - intros ms. reflexivity.
Qed.

(** The first pass of level 1: the pumpkin of [initEnemies] and the player
    at the start position (50,50). *)
Lemma moveEnemies_pursuit_witness :
  let g := Game.set_isr (Isr.mk 30 None None 0 0 0 0 [])
             (Game.set_enemies (initEnemies 1 (Game.enemies Game_init))
                Game_init) in
  exists e', Game.enemies (moveEnemies 50 50 g) !! 0%nat = Some e' /\
             Enemy.x e' = 11 /\ Enemy.y e' = 11.
Proof.
  intros g.
  destruct (proj1 moveEnemies_pursuit 50 50 g 0%nat (Enemy.mk 10 10 1 1))
    as (e' & Hl & _ & _ & _ & _ & _ & _ & _ & Hstep);
    try (simpl; lia); try reflexivity.
  exists e'. split; [exact Hl |].
  apply Hstep; [left; simpl; lia | lia | lia].
Defined.

(** ** Heart drift *)

Lemma driftHeart_eaten_stays rs h :
  Heart.eaten h <> 0 -> driftHeart rs h = (rs, h).
Proof. intros H. unfold driftHeart. rewrite truthy_true by assumption. reflexivity. Qed.

Lemma driftHeart_eaten rs h :
  Heart.eaten (snd (driftHeart rs h)) = Heart.eaten h.
Proof. unfold driftHeart. destruct (truthy (Heart.eaten h)); reflexivity. Qed.

Lemma driftHeart_in_bounds rs h :
  Heart.eaten h = 0 -> heart_in_bounds (snd (driftHeart rs h)).
Proof.
  intros H. unfold driftHeart, heart_in_bounds, rand.
  rewrite truthy_false by assumption. cbn.
  pose proof (wrap16_range (Heart.x h + 3 * (Z.rem (hd 0 rs) 3 - 1))).
  pose proof (wrap16_range (Heart.y h + 3 * (Z.rem (hd 0 (tl rs)) 3 - 1))).
  split; repeat case_test; lia.
Qed.

(** What [heartMovement] does to the heart number [k + 1]: hearts 1 and 2,
    and in level 2 hearts 3 and 4, go through their movement section;
    every other heart is left alone. *)
Lemma heartMovement_heart rs g k h :
  hearts g !! k = Some h ->
  exists h',
    hearts (heartMovement rs g) !! k = Some h' /\
    (((k < 2)%nat \/ ((k < 4)%nat /\ Game.current_level g = 2)) ->
     exists rs', h' = snd (driftHeart rs' h)) /\
    (~ ((k < 2)%nat \/ ((k < 4)%nat /\ Game.current_level g = 2)) -> h' = h).
Proof.
  intros Hk. unfold heartMovement.
  destruct (driftHeart rs (Game.heart1 g)) as [rs1 h1] eqn:E1.
  cbn [Game.heart2 Game.set_heart1].
  destruct (driftHeart rs1 (Game.heart2 g)) as [rs2 h2] eqn:E2.
  cbn [Game.current_level Game.set_heart1 Game.set_heart2].
  assert (H1 : h1 = snd (driftHeart rs (Game.heart1 g))) by (rewrite E1; reflexivity).
  assert (H2 : h2 = snd (driftHeart rs1 (Game.heart2 g))) by (rewrite E2; reflexivity).
  destruct (Game.current_level g =? 2) eqn:El; zbool.
  - cbn [Game.heart3 Game.heart4 Game.set_heart1 Game.set_heart2 Game.set_heart3].
    destruct (driftHeart rs2 (Game.heart3 g)) as [rs3 h3] eqn:E3.
    cbn [Game.heart3 Game.heart4 Game.set_heart1 Game.set_heart2 Game.set_heart3].
    destruct (driftHeart rs3 (Game.heart4 g)) as [rs4 h4] eqn:E4.
    assert (H3 : h3 = snd (driftHeart rs2 (Game.heart3 g))) by (rewrite E3; reflexivity).
    assert (H4 : h4 = snd (driftHeart rs3 (Game.heart4 g))) by (rewrite E4; reflexivity).
    do 6 (destruct k as [|k];
          [ injection Hk as <-; eexists; split; [reflexivity |];
            split; [ intros Hc; first [exfalso; lia | eauto]
                   | intros Hn; first [reflexivity | exfalso; apply Hn; lia] ]
          |]).
    discriminate.
  - do 6 (destruct k as [|k];
          [ injection Hk as <-; eexists; split; [reflexivity |];
            split; [ intros Hc; first [exfalso; lia | eauto]
                   | intros Hn; first [reflexivity | exfalso; apply Hn; lia] ]
          |]).
    discriminate.
Qed.

(** The movement sections touch nothing but hearts 1 to 4. *)
Lemma heartMovement_frame rs g :
  Game.isr (heartMovement rs g) = Game.isr g /\
  Game.enemies (heartMovement rs g) = Game.enemies g /\
  Game.game_won (heartMovement rs g) = Game.game_won g /\
  Game.game_over (heartMovement rs g) = Game.game_over g /\
  Game.current_level (heartMovement rs g) = Game.current_level g.
Proof.
  unfold heartMovement.
  destruct (driftHeart rs (Game.heart1 g)) as [rs1 h1].
  cbn [Game.heart2 Game.set_heart1].
  destruct (driftHeart rs1 (Game.heart2 g)) as [rs2 h2].
  cbn [Game.current_level Game.set_heart1 Game.set_heart2].
  destruct (Game.current_level g =? 2); [| repeat split].
  cbn [Game.heart3 Game.set_heart1 Game.set_heart2].
  destruct (driftHeart rs2 (Game.heart3 g)) as [rs3 h3].
  cbn [Game.heart4 Game.set_heart1 Game.set_heart2 Game.set_heart3].
  destruct (driftHeart rs3 (Game.heart4 g)) as [rs4 h4].
  repeat split.
Qed.

Lemma heartMovement_step rs g k h :
  hearts g !! k = Some h ->
  exists h',
    hearts (heartMovement rs g) !! k = Some h' /\
    Heart.eaten h' = Heart.eaten h /\
    (Heart.eaten h <> 0 -> h' = h) /\
    (heart_in_bounds h -> heart_in_bounds h').
Proof.
  intros Hk.
  destruct (heartMovement_heart rs g k h Hk) as (h' & Hl & Hmove & Hstay).
  exists h'. split; [exact Hl |].
  destruct (decide ((k < 2)%nat \/ ((k < 4)%nat /\ Game.current_level g = 2)))
    as [Hc | Hc].
  - destruct (Hmove Hc) as [rs' ->].
    split; [apply driftHeart_eaten |]. split.
    + intros He. rewrite driftHeart_eaten_stays by assumption. reflexivity.
    + intros Hb. destruct (Z.eq_dec (Heart.eaten h) 0) as [He | He].
      * apply driftHeart_in_bounds. assumption.
      * rewrite driftHeart_eaten_stays by assumption. assumption.
  - rewrite (Hstay Hc). auto.
Qed.

Lemma hearts_lookup_some (g g' : Game.t) k h' :
  hearts g' !! k = Some h' -> exists h, hearts g !! k = Some h.
Proof.
  intros H. apply lookup_lt_Some in H.
  apply lookup_lt_is_Some_2. exact H.
Qed.

Lemma heartMovement_in_bounds rs g :
  Forall heart_in_bounds (hearts g) ->
  Forall heart_in_bounds (hearts (heartMovement rs g)).
Proof.
  intros Hb. apply Forall_lookup. intros k h' Hk'.
  destruct (hearts_lookup_some g _ k h' Hk') as [h Hk].
  destruct (heartMovement_step rs g k h Hk) as (h2 & Hl & _ & _ & Hin).
  rewrite Hl in Hk'. injection Hk' as <-.
  apply Hin. exact (proj1 (Forall_lookup _ _) Hb k h Hk).
Qed.

(** C7: through any number of drift steps every heart stays inside
    [0,115] x [0,144], and a heart whose eaten flag is set is still the
    same afterwards, position included. *)
Theorem drift_keeps_hearts_in_bounds (supplies : list (list Z)) (g : Game.t) :
  Forall heart_in_bounds (hearts g) ->
  Forall heart_in_bounds (hearts (driftSteps supplies g)) /\
  (forall k h, hearts g !! k = Some h -> Heart.eaten h <> 0 ->
               hearts (driftSteps supplies g) !! k = Some h).
Proof.
  revert g. induction supplies as [|rs supplies IH]; intros g Hb.
  - split; [exact Hb | auto].
  - change (driftSteps (rs :: supplies) g)
      with (driftSteps supplies (heartMovement rs g)).
    destruct (IH (heartMovement rs g) (heartMovement_in_bounds rs g Hb))
      as [Hin Hfix].
    split; [exact Hin |].
    intros k h Hk He.
    destruct (heartMovement_step rs g k h Hk) as (h' & Hl & _ & Hsame & _).
    rewrite (Hsame He) in Hl. apply Hfix; assumption.
Qed.

(** From the hearts as the program starts them, the second one already
    eaten: three drift steps. *)
Lemma drift_keeps_hearts_in_bounds_witness :
  let g := Game.set_heart2 (Heart.set_eaten 1 (Game.heart2 Game_init))
             Game_init in
  let g' := driftSteps [[0; 0]; [3; 5]; [2; 1]] g in
  Forall heart_in_bounds (hearts g') /\
  hearts g' !! 1%nat = Some (Heart.mk 60 90 1 1 1).
Proof.
  intros g g'.
  assert (Hb : Forall heart_in_bounds (hearts g)).
  { unfold heart_in_bounds. repeat constructor; simpl; lia. }
  destruct (drift_keeps_hearts_in_bounds [[0; 0]; [3; 5]; [2; 1]] g Hb)
    as [Hin Hfix].
  split; [exact Hin |].
  apply Hfix; [reflexivity | simpl; lia].
Defined.

Lemma driftHeart_wraps rs h :
  Heart.eaten h = 0 ->
  let h' := snd (driftHeart rs h) in
  (0 <= Heart.x h < 3 -> Heart.direction_x h' = -1 ->
   65533 <= wrap16 (Heart.x h + 3 * -1) /\ Heart.x h' = 115) /\
  (0 <= Heart.y h < 3 -> Heart.direction_y h' = -1 ->
   65533 <= wrap16 (Heart.y h + 3 * -1) /\ Heart.y h' = 144).
Proof.
  intros He. unfold driftHeart, rand. rewrite truthy_false by assumption.
  cbn.
  assert (Hw : forall v, 0 <= v < 3 -> wrap16 (v + 3 * -1) = v + 65533).
  { intros v Hv. unfold wrap16. symmetry.
    apply Z.mod_unique with (q := -1); lia. }
  split; intros Hv Hd; rewrite Hd; rewrite (Hw _ Hv);
    (split; [lia |]); repeat case_test; lia.
Qed.

(** C10: when a drift step moves a not yet eaten heart whose x is below 3
    and the direction it picks for x is -1, the 16-bit subtraction wraps
    to at least 65533 and the clamp at 115 makes x equal to 115 (not 0);
    likewise y below 3 with direction -1 ends at 144.  This holds for
    each heart a drift step moves: hearts 1 and 2, and hearts 3 and 4 in
    level 2. *)
Theorem drift_below_3_wraps_to_far_bound
  (rs : list Z) (g : Game.t) (k : nat) (h h' : Heart.t) :
  hearts g !! k = Some h ->
  hearts (heartMovement rs g) !! k = Some h' ->
  (k < 2)%nat \/ ((k < 4)%nat /\ Game.current_level g = 2) ->
  Heart.eaten h = 0 ->
  (0 <= Heart.x h < 3 -> Heart.direction_x h' = -1 ->
   65533 <= wrap16 (Heart.x h + 3 * -1) /\ Heart.x h' = 115) /\
  (0 <= Heart.y h < 3 -> Heart.direction_y h' = -1 ->
   65533 <= wrap16 (Heart.y h + 3 * -1) /\ Heart.y h' = 144).
Proof.
  intros Hk Hk' Hc He.
  destruct (heartMovement_heart rs g k h Hk) as (h2 & Hl & Hmove & _).
  rewrite Hl in Hk'. injection Hk' as ->.
  destruct (Hmove Hc) as [rs' ->].
  apply driftHeart_wraps. exact He.
Qed.

(** Heart 1 at (2,1), both directions drawn as -1 (rand results 0 and 3):
    it lands in the far corner (115,144). *)
Lemma drift_below_3_wraps_to_far_bound_witness :
  let g := Game.set_heart1 (Heart.mk 2 1 1 1 0) Game_init in
  hearts (heartMovement [0; 3; 1; 1] g) !! 0%nat
  = Some (Heart.mk 115 144 (-1) (-1) 0) /\
  65533 <= wrap16 (2 + 3 * -1) /\ 65533 <= wrap16 (1 + 3 * -1).
Proof.
  intros g.
  destruct (drift_below_3_wraps_to_far_bound [0; 3; 1; 1] g 0%nat
              (Heart.mk 2 1 1 1 0) (Heart.mk 115 144 (-1) (-1) 0))
    as [Hx Hy]; try reflexivity.
  - left. lia.
  - split; [reflexivity |].
    split; [apply Hx | apply Hy]; simpl; try lia; reflexivity.
Defined.

(** ** The win check *)

Lemma set_isr_set_isr s1 s2 g :
  Game.set_isr s2 (Game.set_isr s1 g) = Game.set_isr s2 g.
Proof. reflexivity. Qed.

(** Sound and waiting change the interrupt's state only. *)
Lemma perform_frame cs : forall g, exists s, perform cs g = Game.set_isr s g.
Proof.
  induction cs as [|c cs IH]; intros g.
  - exists (Game.isr g). destruct g; reflexivity.
  - change (perform (c :: cs) g) with (perform cs (cue g c)).
    destruct (IH (cue g c)) as [s Hs]. rewrite Hs.
    exists s. destruct c; reflexivity.
Qed.

(** The win check of level 1, game not won, as one equation. *)
Lemma checkWinCondition_level1_eq (x y : Z) (g : Game.t) :
  Game.current_level g = 1 ->
  Game.game_won g = 0 ->
  checkWinCondition x y g
  = let collected :=
      Heart.eaten (Game.heart1 g) + Heart.eaten (Game.heart2 g) in
    if collected =? 2 then
      Game.set_enemies
        (initEnemies 2 (Game.enemies g))
        (fg_delay 2000
           (clear_eaten
              (Game.set_current_level 2
                 (Game.set_hearts_collected collected g))))
    else Game.set_hearts_collected collected g.
Proof.
  intros Hl Hw. destruct g. cbn in Hl, Hw. subst.
  unfold checkWinCondition, checkWinCondition_body.
  cbn -[delay initEnemies Z.add].
  destruct (_ + _ =? 2); reflexivity.
Qed.

(** C4: in level 1 (game not won) the required count is 2; the win check
    recomputes the collected total as the sum of the eaten flags of
    hearts 1 and 2; with any total other than 2, in particular with 1 of
    2 collected, nothing else changes, and with 2 of 2 the level becomes 2
    and the eaten flags of hearts 1 to 4 are 0. *)
Theorem checkWinCondition_level1 (x y : Z) (g : Game.t) :
  Game.current_level g = 1 ->
  Game.game_won g = 0 ->
  let collected := Heart.eaten (Game.heart1 g) + Heart.eaten (Game.heart2 g) in
  let g' := checkWinCondition x y g in
  required_hearts (Game.current_level g) = 2 /\
  Game.hearts_collected g' = collected /\
  (collected <> 2 -> g' = Game.set_hearts_collected collected g) /\
  (collected = 1 ->
   Game.current_level g' = 1 /\
   Game.heart1 g' = Game.heart1 g /\ Game.heart2 g' = Game.heart2 g) /\
  (collected = 2 ->
   Game.current_level g' = 2 /\
   Heart.eaten (Game.heart1 g') = 0 /\ Heart.eaten (Game.heart2 g') = 0 /\
   Heart.eaten (Game.heart3 g') = 0 /\ Heart.eaten (Game.heart4 g') = 0).
Proof.
  intros Hl Hw collected g'.
  pose proof (checkWinCondition_level1_eq x y g Hl Hw) as Heq.
  cbv zeta in Heq. fold collected g' in Heq.
  split; [rewrite Hl; reflexivity |].
  destruct (collected =? 2) eqn:E; zbool; rewrite Heq.
  - split; [reflexivity |]. split; [intros Hc; contradiction |].
    split; [intros Hc; lia |]. intros _. repeat split.
  - split; [reflexivity |]. split; [reflexivity |].
    split; [intros _; repeat split; exact Hl | intros Hc; contradiction].
Qed.

(** Level 1 with both hearts eaten, and with one of them. *)
Lemma checkWinCondition_level1_witness :
  let one := Game.set_heart1 (Heart.set_eaten 1 (Game.heart1 Game_init))
               Game_init in
  let both := Game.set_heart2 (Heart.set_eaten 1 (Game.heart2 one)) one in
  (Game.current_level (checkWinCondition 60 90 both) = 2 /\
   Heart.eaten (Game.heart1 (checkWinCondition 60 90 both)) = 0 /\
   Heart.eaten (Game.heart2 (checkWinCondition 60 90 both)) = 0) /\
  Game.current_level (checkWinCondition 40 80 one) = 1.
Proof.
  intros one both.
  pose proof (checkWinCondition_level1 60 90 both eq_refl eq_refl)
    as (_ & _ & _ & _ & Hyes).
  pose proof (checkWinCondition_level1 40 80 one eq_refl eq_refl)
    as (_ & _ & _ & Hone & _).
  specialize (Hyes eq_refl). destruct Hyes as (H0 & H1 & H2 & _).
  specialize (Hone eq_refl). destruct Hone as (H3 & _).
  repeat split; assumption.
Defined.

(** ** The game loop *)

(** Projections out of updated records. *)
Ltac fields :=
  cbn [Game.isr Game.pumpkin_move_delay Game.game_won Game.game_over
       Game.show_game_over_menu Game.game_over_selection Game.heart1
       Game.heart2 Game.heart_move_delay Game.current_level
       Game.hearts_collected Game.heart3 Game.heart4 Game.heart5
       Game.heart6 Game.enemies Game.in_menu Game.selected_option
       Game.set_isr Game.set_pumpkin_move_delay Game.set_game_won
       Game.set_game_over Game.set_show_game_over_menu
       Game.set_game_over_selection Game.set_heart1 Game.set_heart2
       Game.set_heart_move_delay Game.set_current_level
       Game.set_hearts_collected Game.set_heart3 Game.set_heart4
       Game.set_heart5 Game.set_heart6 Game.set_enemies Game.set_in_menu
       Game.set_selected_option Main.hinverted Main.vinverted Main.toggle
       Main.hmoved Main.vmoved Main.x Main.y Main.oldx Main.oldy
       Main.menu_drawn Main.set_hinverted Main.set_vinverted
       Main.set_toggle Main.set_hmoved Main.set_vmoved Main.set_x
       Main.set_y Main.set_oldx Main.set_oldy Main.set_menu_drawn Heart.x
       Heart.y Heart.direction_x Heart.direction_y Heart.eaten Heart.set_x
       Heart.set_y Heart.set_direction_x Heart.set_direction_y
       Heart.set_eaten World.glob World.loc World.set_glob World.set_loc
       fst snd fg_delay fg_playNote clear_eaten] in *.

Lemma checkEnemyCollision_bool px py es :
  checkEnemyCollision px py es = 0 \/ checkEnemyCollision px py es = 1.
Proof.
  induction es as [|e es IH]; simpl; [left; reflexivity |].
  destruct (truthy (Enemy.active e)
            && truthy (isInside (Enemy.x e) (Enemy.y e) 12 16 px py));
    [right; reflexivity | exact IH].
Qed.

(** [checkEnemyCollision] answers 1 exactly when the 12x16 box of some
    active enemy holds the player. *)
Lemma checkEnemyCollision_spec px py es :
  checkEnemyCollision px py es = 1 <->
  Exists (fun e => Enemy.active e <> 0 /\
                   isInside (Enemy.x e) (Enemy.y e) 12 16 px py = 1) es.
Proof.
  induction es as [|e es IH]; simpl.
  - split; [discriminate | intros H; inversion H].
  - unfold truthy at 1 2.
    destruct (Enemy.active e =? 0) eqn:Ea; zbool; simpl.
    + rewrite IH. split; intros H.
      * apply Exists_cons_tl. exact H.
      * inversion H as [? ? [Hn _] | ? ? Ht]; subst; [contradiction | exact Ht].
    + destruct (isInside_bool (Enemy.x e) (Enemy.y e) 12 16 px py) as [Hi | Hi];
        rewrite Hi; simpl.
      * rewrite IH. split; intros H.
        -- apply Exists_cons_tl. exact H.
        -- inversion H as [? ? [_ Hn] | ? ? Ht]; subst; [| exact Ht].
           rewrite Hi in Hn. discriminate.
      * split; intros _; [| reflexivity].
        apply Exists_cons_hd. split; assumption.
Qed.

Lemma deactivate_all es : Forall inactive (map deactivate es).
Proof.
  induction es as [|e es IH]; simpl; constructor; [| exact IH].
  unfold deactivate, inactive, truthy.
  destruct (Enemy.active e =? 0) eqn:E; zbool; simpl; [exact E | reflexivity].
Qed.

(** A hit ends the game in the check itself and switches every enemy
    off. *)
Lemma enemyCollisionCheck_hit px py g :
  Game.game_won g = 0 ->
  checkEnemyCollision px py (Game.enemies g) = 1 ->
  Game.game_over (enemyCollisionCheck px py g) = 1 /\
  Game.enemies (enemyCollisionCheck px py g) = map deactivate (Game.enemies g) /\
  Game.current_level (enemyCollisionCheck px py g) = Game.current_level g.
Proof.
  intros Hw Hc. unfold enemyCollisionCheck. rewrite Hw, Hc. simpl.
  repeat split.
Qed.

(** In level 2 the win check leaves the enemies, the level and the
    game-over flag as they are. *)
Lemma checkWinCondition_level2_frame x y g :
  Game.current_level g = 2 ->
  Game.game_over (checkWinCondition x y g) = Game.game_over g /\
  Game.enemies (checkWinCondition x y g) = Game.enemies g /\
  Game.current_level (checkWinCondition x y g) = 2.
Proof.
  intros Hl. destruct g. cbn in Hl. subst.
  unfold checkWinCondition, checkWinCondition_body.
  cbn -[showWinScreen Z.add].
  destruct (_ && _); cbn -[showWinScreen Z.add]; [| auto].
  unfold showWinScreen.
  match goal with
  | |- context [perform ?cs ?g] => destruct (perform_frame cs g) as [s ->]
  end.
  cbn. auto.
Qed.

Lemma level2HeartCollection_frame w :
  Game.game_over (World.glob (level2HeartCollection w))
  = Game.game_over (World.glob w) /\
  Game.enemies (World.glob (level2HeartCollection w))
  = Game.enemies (World.glob w) /\
  World.loc (level2HeartCollection w) = World.loc w.
Proof.
  unfold level2HeartCollection.
  destruct (Game.current_level (World.glob w) =? 2) eqn:El; zbool; [| auto].
  fields.
  assert (Hcollect : forall get set x y g,
             (forall h g0, Game.game_over (set h g0) = Game.game_over g0) ->
             (forall h g0, Game.enemies (set h g0) = Game.enemies g0) ->
             (forall h g0, Game.current_level (set h g0) = Game.current_level g0) ->
             Game.current_level g = 2 ->
             Game.game_over (collectHeart get set x y g) = Game.game_over g /\
             Game.enemies (collectHeart get set x y g) = Game.enemies g /\
             Game.current_level (collectHeart get set x y g) = 2).
  { intros get set x y g Ho He Hlv Hl. unfold collectHeart.
    destruct (_ && _); [| auto].
    destruct (perform_frame [Note 500; Wait 500; Note 0]
                (set (Heart.set_eaten 1 (get g)) g)) as [s Hs].
    rewrite Hs.
    destruct (checkWinCondition_level2_frame x y
                (Game.set_isr s (set (Heart.set_eaten 1 (get g)) g)))
      as (H1 & H2 & H3).
    - fields. rewrite Hlv. exact Hl.
    - rewrite H1, H2, H3. fields. rewrite Ho, He. auto. }
  destruct (Hcollect Game.heart3 Game.set_heart3
              (Main.x (World.loc w)) (Main.y (World.loc w)) (World.glob w))
    as (A1 & A2 & A3); auto.
  destruct (Hcollect Game.heart4 Game.set_heart4
              (Main.x (World.loc w)) (Main.y (World.loc w))
              (collectHeart Game.heart3 Game.set_heart3
                 (Main.x (World.loc w)) (Main.y (World.loc w)) (World.glob w)))
    as (B1 & B2 & B3); auto.
  rewrite B1, B2, A1, A2. auto.
Qed.

Lemma gameOverMenuNavigation_frame i w :
  Input.over_select i = false ->
  Game.game_over (World.glob (gameOverMenuNavigation i w))
  = Game.game_over (World.glob w) /\
  Game.enemies (World.glob (gameOverMenuNavigation i w))
  = Game.enemies (World.glob w) /\
  World.loc (gameOverMenuNavigation i w) = World.loc w.
Proof.
  intros Hs. unfold gameOverMenuNavigation. rewrite Hs.
  destruct (_ || _); [| auto].
  destruct (Input.over_down i); destruct (Input.over_up i); fields; auto.
Qed.

Lemma heartMovementAndCollision_loc i w :
  World.loc (heartMovementAndCollision i w) = World.loc w.
Proof.
  unfold heartMovementAndCollision.
  destruct (heart_timer_due (World.glob w)); reflexivity.
Qed.

Lemma loc_set_glob g w : World.loc (World.set_glob g w) = World.loc w.
Proof. reflexivity. Qed.

Lemma glob_set_glob g w : World.glob (World.set_glob g w) = g.
Proof. reflexivity. Qed.

Lemma fg_delay_frame d g :
  Game.game_over (fg_delay d g) = Game.game_over g /\
  Game.enemies (fg_delay d g) = Game.enemies g.
Proof. split; reflexivity. Qed.

Lemma updatePlayerPosition_position w :
  Main.x (World.loc (updatePlayerPosition w)) = Main.x (World.loc w) /\
  Main.y (World.loc (updatePlayerPosition w)) = Main.y (World.loc w).
Proof.
  unfold updatePlayerPosition.
  destruct (_ || _); [| auto]. fields.
  destruct (truthy (Main.hmoved (World.loc w))); fields; auto.
Qed.

(** The position of the player in [main] is written by the movement
    section and by "Play Again" only: the win check, which works on its
    own copy of the coordinates, never changes it. *)
Lemma playStep_position i w :
  Input.over_select i = false ->
  let moved := playerMovement i (gameStateUpdates w) in
  Main.x (World.loc (playStep i w)) = Main.x (World.loc moved) /\
  Main.y (World.loc (playStep i w)) = Main.y (World.loc moved).
Proof.
  intros Hs moved. unfold playStep. fold moved. clearbody moved.
  rewrite loc_set_glob.
  rewrite (proj2 (proj2 (gameOverMenuNavigation_frame i _ Hs))).
  rewrite (proj2 (proj2 (level2HeartCollection_frame _))).
  rewrite heartMovementAndCollision_loc.
  apply updatePlayerPosition_position.
Qed.

Lemma gameStateUpdates_position w :
  Main.x (World.loc (gameStateUpdates w)) = Main.x (World.loc w) /\
  Main.y (World.loc (gameStateUpdates w)) = Main.y (World.loc w).
Proof. unfold gameStateUpdates. fields. auto. Qed.

(** When the level-1 transition fires, the (50,50) goes to the copy of
    the coordinates that [checkWinCondition] owns. *)
Lemma checkWinCondition_body_own_copy x y g :
  Game.current_level g = 1 -> Game.game_won g = 0 ->
  Heart.eaten (Game.heart1 g) + Heart.eaten (Game.heart2 g) = 2 ->
  snd (checkWinCondition_body x y g) = (50, 50).
Proof.
  intros Hl Hw Hc. destruct g. cbn in Hl, Hw, Hc. subst.
  unfold checkWinCondition_body. cbn -[delay initEnemies Z.add].
  rewrite Hc. reflexivity.
Qed.

(** C1, at the failing input.  From the start of the program: "Start
    Game", 30 iterations with "down" held (heart 1 is picked up at
    (50,80)), 9 with "right" and "down" held; the player is at (59,89) in
    level 1 with heart 2 left.  One more such iteration takes the player
    to (60,90), picks heart 2 up and fires the transition to level 2 in
    the win check; the player of [main] is still at (60,90), not at
    (50,50), and that is the position the next iteration works with. *)
Theorem level_transition_keeps_player_position (my_notes : list Z) :
  let before := run my_notes
                    (press_start :: replicate 30 (hold false false true false)
                     ++ replicate 9 (hold true false true false)) in
  let after := loopBody (hold true false true false) before in
  (Game.in_menu (World.glob before) = 0 /\
   Game.current_level (World.glob before) = 1 /\
   Heart.eaten (Game.heart1 (World.glob before)) = 1 /\
   Heart.eaten (Game.heart2 (World.glob before)) = 0 /\
   (Main.x (World.loc before), Main.y (World.loc before)) = (59, 89)) /\
  (Game.current_level (World.glob after) = 2 /\
   Game.game_won (World.glob after) = 0 /\
   (Main.x (World.loc after), Main.y (World.loc after)) = (60, 90)) /\
  (Main.x (World.loc (gameStateUpdates after)),
   Main.y (World.loc (gameStateUpdates after))) = (60, 90).
Proof. intros before after. vm_compute. repeat split. Qed.

(** C2 (as stated).  From the start of the program: "Start Game", then
    "left" and "up" held.  After 19 such iterations the player, at
    (31,31), is inside the box of the pumpkin at (20,20); the game is in
    the Playing state.  The 20th iteration moves the player to (30,30),
    still inside the box of the still active pumpkin, and ends with the
    game not over: the heart timer, last reset at 1700 ms, is not due
    before 2100 ms.  (The five note values play no part.) *)
Lemma collision_unchecked_between_heart_updates :
  let w := run [1; 2; 3; 4; 5]
               (press_start :: replicate 19 (hold false true false true)) in
  let w' := loopBody (hold false true false true) w in
  (Game.in_menu (World.glob w) = 0 /\ Game.game_won (World.glob w) = 0 /\
   Game.game_over (World.glob w) = 0) /\
  ((Main.x (World.loc w), Main.y (World.loc w)) = (31, 31) /\
   Game.enemies (World.glob w) !! 0%nat = Some (Enemy.mk 20 20 1 1) /\
   isInside 20 20 12 16 31 31 = 1 /\
   checkEnemyCollision 31 31 (Game.enemies (World.glob w)) = 1) /\
  ((Main.x (World.loc w'), Main.y (World.loc w')) = (30, 30) /\
   Game.enemies (World.glob w') !! 0%nat = Some (Enemy.mk 20 20 1 1) /\
   isInside 20 20 12 16 30 30 = 1 /\
   checkEnemyCollision 30 30 (Game.enemies (World.glob w')) = 1) /\
  (now (World.glob w) = 2080 /\ Game.heart_move_delay (World.glob w) = 1700) /\
  Game.game_over (World.glob w') = 0.
Proof. intros w w'. vm_compute. repeat split. Qed.

(** C2 (amended): in the Playing state the enemy collision is checked in
    the iterations whose 400 ms heart timer is due (and the game is
    neither over nor won).  In such an iteration, if the box of an active
    enemy holds the player's position, the game is over and every enemy
    inactive as soon as the check has run, and still so at the end of the
    iteration unless the confirm button is read as pressed in the result
    menu; in an iteration whose timer is not due the block does nothing
    at all. *)
Theorem enemy_collision_checked_when_heart_timer_due
  (i : Input.t) (w : World.t) :
  let w1 := updatePlayerPosition (playerMovement i (gameStateUpdates w)) in
  let px := Main.x (World.loc w1) in
  let py := Main.y (World.loc w1) in
  let w2 := heartMovementAndCollision i w1 in
  Game.game_won (World.glob w1) = 0 ->
  Exists (fun e => Enemy.active e <> 0 /\
                   isInside (Enemy.x e) (Enemy.y e) 12 16 px py = 1)
         (Game.enemies (World.glob w1)) ->
  (heart_timer_due (World.glob w1) = true ->
   (Game.game_over (World.glob w2) = 1 /\
    Forall inactive (Game.enemies (World.glob w2))) /\
   (Input.over_select i = false ->
    Game.game_over (World.glob (playStep i w)) = 1 /\
    Forall inactive (Game.enemies (World.glob (playStep i w))))) /\
  (heart_timer_due (World.glob w1) = false -> w2 = w1).
Proof.
  intros w1 px py w2 Hw Hbox. subst px py w2.
  assert (Hplay :
            playStep i w
            = let w4 := gameOverMenuNavigation i
                          (level2HeartCollection
                             (heartMovementAndCollision i w1)) in
              World.set_glob (fg_delay 20 (World.glob w4)) w4)
    by reflexivity.
  clearbody w1. split.
  - intros Hdue.
    assert (H2 : Game.game_over (World.glob (heartMovementAndCollision i w1)) = 1 /\
                 Forall inactive
                   (Game.enemies (World.glob (heartMovementAndCollision i w1)))).
    { unfold heartMovementAndCollision. rewrite Hdue. rewrite glob_set_glob.
      destruct (heartMovement_frame (Input.rnd i) (World.glob w1))
        as (_ & He & Hwon & _ & _).
      destruct (enemyCollisionCheck_hit
                  (Main.x (World.loc w1)) (Main.y (World.loc w1))
                  (heartMovement (Input.rnd i) (World.glob w1)))
        as (Hover & Hen & _).
      - rewrite Hwon. exact Hw.
      - rewrite He. apply checkEnemyCollision_spec. exact Hbox.
      - generalize dependent (enemyCollisionCheck
                                (Main.x (World.loc w1)) (Main.y (World.loc w1))
                                (heartMovement (Input.rnd i) (World.glob w1))).
        intros g2 Hover Hen. fields. rewrite Hover, Hen.
        split; [reflexivity | apply deactivate_all]. }
    split; [exact H2 |].
    intros Hsel. rewrite Hplay. cbv zeta.
    clear Hplay. generalize dependent (heartMovementAndCollision i w1).
    intros w2 H2.
    rewrite glob_set_glob.
    destruct (fg_delay_frame 20
                (World.glob (gameOverMenuNavigation i (level2HeartCollection w2))))
      as [-> ->].
    destruct (gameOverMenuNavigation_frame i (level2HeartCollection w2) Hsel)
      as (-> & -> & _).
    destruct (level2HeartCollection_frame w2) as (-> & -> & _).
    exact H2.
  - intros Hdue. unfold heartMovementAndCollision.
    rewrite Hdue. reflexivity.
Qed.

(** The run of the counterexample one iteration later: the heart timer
    is due, the check runs and ends the game. *)
Lemma enemy_collision_checked_when_heart_timer_due_witness :
  let w := run [1; 2; 3; 4; 5]
               (press_start :: replicate 20 (hold false true false true)) in
  let i := hold false true false true in
  Game.game_over (World.glob (playStep i w)) = 1 /\
  Forall inactive (Game.enemies (World.glob (playStep i w))).
Proof.
  intros w i.
  destruct (enemy_collision_checked_when_heart_timer_due i w) as [Hdue _].
  - vm_compute. reflexivity.
  - apply checkEnemyCollision_spec. vm_compute. reflexivity.
  - apply Hdue; [vm_compute; reflexivity | reflexivity].
Defined.


(** ** Invariants of the loop *)

Lemma game_ok_set_isr s g : game_ok g -> game_ok (Game.set_isr s g).
Proof. intros H. exact H. Qed.

Lemma game_ok_perform cs g : game_ok g -> game_ok (perform cs g).
Proof.
  intros H. destruct (perform_frame cs g) as [s ->].
  apply game_ok_set_isr. exact H.
Qed.

Lemma initEnemies_ok level es :
  Forall enemy_ok es -> Forall enemy_ok (initEnemies level es).
Proof.
  intros H. unfold initEnemies.
  assert (Hnew : forall x y, 0 <= x <= 115 -> 0 <= y <= 144 ->
                             enemy_ok (Enemy.mk x y 1 1)).
  { intros x y Hx Hy _. simpl. auto. }
  destruct (level =? 1); repeat apply Forall_insert; try assumption;
    apply Hnew; lia.
Qed.

Lemma moveEnemy_ok level ms px py e :
  0 <= px -> 0 <= py -> enemy_ok e -> enemy_ok (moveEnemy level ms px py e).
Proof.
  intros Hpx Hpy He.
  destruct (moveEnemy_flags level ms px py e) as [Ha Hs].
  intros Hact. rewrite Ha in Hact. destruct (He Hact) as (Hsp & Hx & Hy).
  rewrite Hs.
  destruct (moveEnemy_x level ms px py e Hact Hsp Hx Hpx) as (_ & _ & Hx' & _).
  destruct (moveEnemy_y level ms px py e Hact Hsp Hy Hpy) as (_ & _ & Hy' & _).
  auto.
Qed.

Lemma moveEnemies_ok px py g :
  0 <= px -> 0 <= py -> game_ok g -> game_ok (moveEnemies px py g).
Proof.
  intros Hpx Hpy (He & Hh & Hw). unfold moveEnemies.
  destruct (truthy (Game.game_won g)); [repeat split; assumption |].
  destruct (_ <? _); [repeat split; assumption |].
  repeat split; try assumption.
  fields. apply Forall_fmap. eapply Forall_impl; [| exact He].
  intros e Hok. apply moveEnemy_ok; assumption.
Qed.

Lemma heart_in_bounds_set_eaten v h :
  heart_in_bounds h -> heart_in_bounds (Heart.set_eaten v h).
Proof. intros H. exact H. Qed.

Lemma checkWinCondition_ok x y g : game_ok g -> game_ok (checkWinCondition x y g).
Proof.
  intros (He & Hh & Hw). destruct g.
  unfold game_ok, hearts in *. cbn in He, Hh, Hw.
  unfold checkWinCondition, checkWinCondition_body.
  cbn -[showWinScreen delay initEnemies Z.add].
  destruct (current_level =? 2) eqn:E2; zbool;
    cbn -[showWinScreen delay initEnemies Z.add];
    (destruct (_ && _) eqn:Ec; cbn -[showWinScreen delay initEnemies Z.add];
     [| repeat split; assumption]).
  - subst. cbn -[showWinScreen delay initEnemies Z.add].
    unfold showWinScreen.
    match goal with
    | |- context [perform ?cs ?g] => destruct (perform_frame cs g) as [s ->]
    end.
    cbn. repeat split; try assumption. intros _ Hl. discriminate Hl.
  - destruct (current_level =? 1) eqn:E1; zbool;
      cbn -[showWinScreen delay initEnemies Z.add].
    + repeat split.
      * apply initEnemies_ok. assumption.
      * repeat match goal with
               | H : Forall _ (_ :: _) |- _ =>
                 inversion_clear H
               end.
        repeat (apply Forall_cons_2; [assumption |]). apply Forall_nil_2.
      * intros _ Hl. discriminate Hl.
    + unfold showWinScreen.
      match goal with
      | |- context [perform ?cs ?g] => destruct (perform_frame cs g) as [s ->]
      end.
      cbn. repeat split; try assumption. intros _ Hl. contradiction.
Qed.

Lemma gameStateUpdates_ok w : world_ok w -> world_ok (gameStateUpdates w).
Proof.
  intros [Hg [Hx Hy]]. unfold gameStateUpdates, world_ok, player_ok. fields.
  split; [| auto].
  pose proof (checkWinCondition_ok (Main.x (World.loc w)) (Main.y (World.loc w))
                (World.glob w) Hg) as Hc.
  destruct (negb _); [| exact Hc].
  apply moveEnemies_ok; [lia | lia | exact Hc].
Qed.

Lemma playerMovement_ok i w : world_ok w -> world_ok (playerMovement i w).
Proof.
  intros [Hg [Hx Hy]]. unfold playerMovement.
  destruct (_ && _); [| split; [exact Hg | split; assumption]].
  split; [exact Hg |]. unfold player_ok. fields.
  destruct (Input.right i || (Input.serial_char i =? 114));
    destruct (Input.left i); destruct (Input.down i); destruct (Input.up i);
    repeat (case_test; fields; rewrite ?wrap16_small in * by lia);
    fields; lia.
Qed.

(** Marking one of the hearts 1 to 4 as eaten keeps the invariant. *)
Lemma eaten_ok g :
  game_ok g ->
  game_ok (Game.set_heart1 (Heart.set_eaten 1 (Game.heart1 g)) g) /\
  game_ok (Game.set_heart2 (Heart.set_eaten 1 (Game.heart2 g)) g) /\
  game_ok (Game.set_heart3 (Heart.set_eaten 1 (Game.heart3 g)) g) /\
  game_ok (Game.set_heart4 (Heart.set_eaten 1 (Game.heart4 g)) g).
Proof.
  intros (He & Hh & Hw). unfold game_ok, hearts in *. fields.
  repeat match goal with
         | H : Forall _ (_ :: _) |- _ => inversion_clear H
         end.
  repeat split; try assumption;
    repeat (apply Forall_cons_2; [assumption |]); apply Forall_nil_2.
Qed.

Lemma collectHeart_ok get set x y g :
  (forall g0, game_ok g0 -> game_ok (set (Heart.set_eaten 1 (get g0)) g0)) ->
  game_ok g -> game_ok (collectHeart get set x y g).
Proof.
  intros Hset Hg. unfold collectHeart.
  destruct (_ && _); [| exact Hg].
  apply checkWinCondition_ok, game_ok_perform, Hset, Hg.
Qed.

Lemma updatePlayerPosition_ok w : world_ok w -> world_ok (updatePlayerPosition w).
Proof.
  intros [Hg Hp]. split.
  - unfold updatePlayerPosition.
    destruct (_ || _); [| exact Hg]. fields.
    apply collectHeart_ok; [intros g0 H0; apply (eaten_ok g0 H0) |].
    apply collectHeart_ok; [intros g0 H0; apply (eaten_ok g0 H0) |].
    exact Hg.
  - destruct (updatePlayerPosition_position w) as [Hx Hy].
    unfold player_ok in *. rewrite Hx, Hy. exact Hp.
Qed.

Lemma heartMovement_ok rs g : game_ok g -> game_ok (heartMovement rs g).
Proof.
  intros (He & Hh & Hw).
  assert (Hin : Game.in_menu (heartMovement rs g) = Game.in_menu g).
  { unfold heartMovement.
    destruct (driftHeart rs (Game.heart1 g)) as [rs1 h1]. fields.
    destruct (driftHeart rs1 (Game.heart2 g)) as [rs2 h2]. fields.
    destruct (Game.current_level g =? 2); [| reflexivity]. fields.
    destruct (driftHeart rs2 (Game.heart3 g)) as [rs3 h3]. fields.
    destruct (driftHeart rs3 (Game.heart4 g)) as [rs4 h4]. reflexivity. }
  destruct (heartMovement_frame rs g) as (_ & Hen & Hwon & _ & Hlv).
  unfold game_ok. rewrite Hen, Hwon, Hlv, Hin.
  split; [exact He |]. split; [| exact Hw].
  apply heartMovement_in_bounds. exact Hh.
Qed.

Lemma deactivate_ok es : Forall enemy_ok (map deactivate es).
Proof.
  eapply Forall_impl; [| apply deactivate_all].
  intros e Hin Hact. contradiction.
Qed.

Lemma enemyCollisionCheck_ok x y g :
  game_ok g -> game_ok (enemyCollisionCheck x y g).
Proof.
  intros (He & Hh & Hw). unfold enemyCollisionCheck.
  destruct (_ && _); [| repeat split; assumption].
  unfold game_ok, hearts. fields.
  repeat split; try assumption. apply deactivate_ok.
Qed.

Lemma heartMovementAndCollision_ok i w :
  world_ok w -> world_ok (heartMovementAndCollision i w).
Proof.
  intros [Hg Hp]. unfold heartMovementAndCollision.
  destruct (heart_timer_due (World.glob w)); [| split; assumption].
  split; [| exact Hp]. rewrite glob_set_glob.
  apply (enemyCollisionCheck_ok (Main.x (World.loc w)) (Main.y (World.loc w))
           (heartMovement (Input.rnd i) (World.glob w))
           (heartMovement_ok (Input.rnd i) (World.glob w) Hg)).
Qed.

Lemma level2HeartCollection_ok w :
  world_ok w -> world_ok (level2HeartCollection w).
Proof.
  intros [Hg Hp]. unfold level2HeartCollection.
  destruct (_ =? 2); [| split; assumption].
  split; [| exact Hp]. rewrite glob_set_glob.
  apply collectHeart_ok; [intros g0 H0; apply (eaten_ok g0 H0) |].
  apply collectHeart_ok; [intros g0 H0; apply (eaten_ok g0 H0) |].
  exact Hg.
Qed.

(** The full reset of "Start Game" and "Play Again" as far as the
    invariant goes. *)
Lemma reset_positions_ok w :
  Forall enemy_ok (Game.enemies (World.glob w)) ->
  Forall heart_in_bounds (hearts (World.glob w)) ->
  Game.game_won (World.glob w) = 0 ->
  world_ok (reset_positions w).
Proof.
  intros He Hh Hw. unfold reset_positions, world_ok, game_ok, player_ok, hearts in *.
  fields.
  repeat match goal with
         | H : Forall _ (_ :: _) |- _ => inversion_clear H
         end.
  repeat split; try assumption; try lia.
  repeat (apply Forall_cons_2;
          [first [assumption | unfold heart_in_bounds; fields; lia] |]).
  apply Forall_nil_2.
Qed.

Lemma clear_eaten_hearts g :
  Forall heart_in_bounds (hearts g) ->
  Forall heart_in_bounds (hearts (clear_eaten g)).
Proof.
  intros Hh. unfold hearts in *. fields.
  repeat match goal with
         | H : Forall _ (_ :: _) |- _ => inversion_clear H
         end.
  repeat (apply Forall_cons_2; [assumption |]). apply Forall_nil_2.
Qed.

Lemma gameOverMenuNavigation_ok i w :
  world_ok w -> world_ok (gameOverMenuNavigation i w).
Proof.
  intros [Hg Hp]. unfold gameOverMenuNavigation.
  destruct (_ || _); [| split; assumption].
  set (g1 := (if Input.over_down i
              then Game.set_game_over_selection _ _ else World.glob w)).
  assert (H1 : game_ok g1).
  { subst g1. destruct (Input.over_down i); exact Hg. }
  clearbody g1.
  set (g2 := (if Input.over_up i
              then Game.set_game_over_selection _ _ else g1)).
  assert (H2 : game_ok g2).
  { subst g2. destruct (Input.over_up i); exact H1. }
  clearbody g2. destruct H2 as (He & Hh & Hw).
  destruct (Input.over_select i); [| split; [repeat split |]; assumption].
  fields. destruct (Game.game_over_selection g2 =? 0).
  - match goal with
    | |- world_ok (World.set_glob _ (reset_positions ?w0)) =>
      destruct (reset_positions_ok w0) as [(He' & Hh' & Hw') Hp']
    end.
    + exact He.
    + fields. apply (clear_eaten_hearts g2 Hh).
    + reflexivity.
    + split; [| rewrite loc_set_glob; exact Hp'].
      rewrite glob_set_glob.
      generalize dependent (reset_positions
                              (World.set_glob
                                 (Game.set_show_game_over_menu 0
                                    (clear_eaten
                                       (Game.set_game_won 0
                                          (Game.set_game_over 0
                                             (Game.set_current_level 1
                                                (fg_delay 200 g2)))))) w)).
      intros w5 He' Hh' Hw' Hp'.
      split; [| split; [exact Hh' | exact Hw']].
      fields. apply initEnemies_ok. exact He'.
  - split; [| exact Hp]. rewrite glob_set_glob.
    repeat split; try assumption. fields. intros Hm. discriminate Hm.
Qed.

Lemma playStep_ok i w : world_ok w -> world_ok (playStep i w).
Proof.
  intros H. unfold playStep.
  apply gameStateUpdates_ok in H. apply (playerMovement_ok i) in H.
  apply updatePlayerPosition_ok in H.
  apply (heartMovementAndCollision_ok i) in H.
  apply level2HeartCollection_ok in H.
  apply (gameOverMenuNavigation_ok i) in H.
  generalize dependent (gameOverMenuNavigation i
    (level2HeartCollection
       (heartMovementAndCollision i
          (updatePlayerPosition (playerMovement i (gameStateUpdates w)))))).
  intros w6 [Hg Hp]. split; assumption.
Qed.

Lemma menuStep_ok i w :
  Game.in_menu (World.glob w) <> 0 -> world_ok w -> world_ok (menuStep i w).
Proof.
  intros Hm [Hg Hp]. unfold menuStep.
  set (w1 := (if negb (truthy (Main.menu_drawn (World.loc w)))
              then World.set_loc _ w else w)).
  assert (H1 : world_ok w1 /\ Game.in_menu (World.glob w1) <> 0).
  { subst w1. destruct (negb _); (split; [split |]); assumption. }
  clearbody w1.
  set (w2 := (if Input.menu_down i then World.set_glob _ w1 else w1)).
  assert (H2 : world_ok w2 /\ Game.in_menu (World.glob w2) <> 0).
  { subst w2. destruct H1 as [[Hg1 Hp1] Hm1].
    destruct (Input.menu_down i); (split; [split |]); assumption. }
  clearbody w2.
  set (w3 := (if Input.menu_up i then World.set_glob _ w2 else w2)).
  assert (H3 : world_ok w3 /\ Game.in_menu (World.glob w3) <> 0).
  { subst w3. destruct H2 as [[Hg2 Hp2] Hm2].
    destruct (Input.menu_up i); (split; [split |]); assumption. }
  clearbody w3. destruct H3 as [[(He & Hh & Hw) Hp3] Hm3].
  destruct (Input.menu_select i); [| split; [repeat split |]; assumption].
  fields. destruct (Game.selected_option (World.glob w3) =? 0).
  - apply reset_positions_ok; fields; unfold hearts in *; fields.
    + apply initEnemies_ok. exact He.
    + repeat match goal with
             | H : Forall _ (_ :: _) |- _ => inversion_clear H
             end.
      repeat (apply Forall_cons_2; [assumption |]). apply Forall_nil_2.
    + reflexivity.
  - destruct (_ || _); split; try assumption; repeat split; assumption.
Qed.

Lemma loopBody_ok i w : world_ok w -> world_ok (loopBody i w).
Proof.
  intros [Hg Hp]. unfold loopBody.
  set (w1 := World.set_glob _ w).
  assert (H1 : world_ok w1) by (split; assumption).
  clearbody w1.
  destruct (truthy (Game.in_menu (World.glob w1))) eqn:Em.
  - apply menuStep_ok; [| exact H1].
    unfold truthy in Em. destruct (_ =? 0) eqn:E; zbool; [discriminate | exact E].
  - apply playStep_ok. exact H1.
Qed.

Lemma game_ok_init :
  game_ok (Game.set_enemies
             (initEnemies (Game.current_level Game_init)
                (Game.enemies Game_init)) Game_init).
Proof.
  repeat split.
  - fields. apply initEnemies_ok.
    repeat (apply Forall_cons_2; [intros Ha; contradiction |]).
    apply Forall_nil_2.
  - unfold hearts, heart_in_bounds.
    repeat (apply Forall_cons_2; [simpl; lia |]). apply Forall_nil_2.
Qed.

Lemma playTune_ok notes times len g :
  game_ok g -> game_ok (playTune notes times len g).
Proof.
  intros Hg. unfold playTune. apply game_ok_set_isr.
  generalize (seq 0 len). intros l. revert g Hg.
  induction l as [|n l IH]; intros g Hg.
  - exact Hg.
  - cbn [fold_left]. apply IH. apply game_ok_set_isr, game_ok_set_isr, Hg.
Qed.

Lemma main_setup_ok my_notes : world_ok (main_setup my_notes).
Proof.
  unfold main_setup, world_ok. cbv zeta. cbn [World.glob World.loc].
  split.
  - apply game_ok_set_isr, playTune_ok, game_ok_init.
  - unfold player_ok, Main_init. cbn [Main.x Main.y]. lia.
Qed.

(** Every state of the loop satisfies the invariant. *)
Lemma run_ok my_notes inputs : world_ok (run my_notes inputs).
Proof.
  unfold run. generalize (main_setup_ok my_notes).
  generalize (main_setup my_notes). intros w Hw. revert w Hw.
  induction inputs as [|i inputs IH]; intros w Hw; simpl; [exact Hw |].
  apply IH, loopBody_ok, Hw.
Qed.

(** * Further properties *)

(** ** The sequencer over many ticks *)

Lemma ticks_add a b s : ticks (a + b) s = ticks b (ticks a s).
Proof.
  unfold ticks. rewrite Nat.add_comm. apply Nat.iter_add.
Qed.

(** The four ways a tick goes when a tune is installed. *)
Lemma SysTick_counting ms ns tm c r i t tr :
  t <> 0 ->
  SysTick_Handler (Isr.mk ms (Some ns) tm c r i t tr)
  = Isr.mk (wrap32 (ms + 1)) (Some ns) tm c r i (t - 1) tr.
Proof.
  intros Ht. apply Z.eqb_neq in Ht. unfold SysTick_Handler. simpl.
  rewrite Ht. simpl. rewrite Ht. reflexivity.
Qed.

Lemma SysTick_next_note ms ns tm c r i tr :
  wrap32 (i + 1) < c ->
  SysTick_Handler (Isr.mk ms (Some ns) tm c r i 0 tr)
  = Isr.mk (wrap32 (ms + 1)) (Some ns) tm c r (i + 1)
           (note_ticks (load tm (i + 1)) - 1)
           (load (Some ns) (i + 1) :: tr)
  \/ to_int (load tm (i + 1)) < 0.
Proof.
  intros Hc. unfold SysTick_Handler. simpl.
  destruct (wrap32 (i + 1) >=? c) eqn:E; [lia |]. simpl.
  unfold note_ticks.
  destruct (to_int (load tm (i + 1)) =? 0) eqn:Ed; zbool; simpl.
  - left. rewrite Ed. reflexivity.
  - destruct (Z_lt_dec (to_int (load tm (i + 1))) 0) as [Hn | Hn];
      [right; exact Hn | left].
    rewrite Z.max_l by lia. reflexivity.
Qed.

Lemma SysTick_stop ms ns tm c i tr :
  c <= wrap32 (i + 1) ->
  SysTick_Handler (Isr.mk ms (Some ns) tm c 0 i 0 tr)
  = Isr.mk (wrap32 (ms + 1)) None tm c 0 (i + 1) 0 tr.
Proof.
  intros Hc. unfold SysTick_Handler. simpl.
  destruct (wrap32 (i + 1) >=? c) eqn:E; [| lia]. reflexivity.
Qed.

Lemma SysTick_restart ms ns tm c r i tr :
  c <= wrap32 (i + 1) -> r <> 0 ->
  SysTick_Handler (Isr.mk ms (Some ns) tm c r i 0 tr)
  = Isr.mk (wrap32 (ms + 1)) (Some ns) tm c r 0 0 tr.
Proof.
  intros Hc Hr. unfold SysTick_Handler. simpl.
  destruct (wrap32 (i + 1) >=? c) eqn:E; [| lia].
  destruct (r =? 0) eqn:Er; zbool; [contradiction | reflexivity].
Qed.

(** Counting a note down: [t] ticks take the timer from [t] to 0 and
    touch nothing else but the clock. *)
Lemma ticks_countdown (t : nat) :
  forall ms ns tm c r i tr,
    exists ms',
      ticks t (Isr.mk ms (Some ns) tm c r i (Z.of_nat t) tr)
      = Isr.mk ms' (Some ns) tm c r i 0 tr.
Proof.
  induction t as [|t IH]; intros ms ns tm c r i tr.
  - exists ms. reflexivity.
  - rewrite ticks_succ, SysTick_counting by lia.
    replace (Z.of_nat (S t) - 1) with (Z.of_nat t) by lia.
    apply IH.
Qed.

(** The notes that remain after index [i], and the ticks they take. *)
Lemma ticks_play_through (k : nat) :
  forall ms ns tm c r i tr,
    0 <= i -> c = i + 1 + Z.of_nat k -> c < 4294967296 ->
    (forall j, i < j < c -> 0 <= to_int (load tm j)) ->
    let js := seqZ (i + 1) (Z.of_nat k) in
    let total := foldr Z.add 0 (map (fun j => note_ticks (load tm j)) js) in
    0 <= total /\
    exists ms',
      ticks (Z.to_nat total) (Isr.mk ms (Some ns) tm c r i 0 tr)
      = Isr.mk ms' (Some ns) tm c r (c - 1) 0
               (rev (map (load (Some ns)) js) ++ tr).
Proof.
  induction k as [|k IH]; intros ms ns tm c r i tr Hi Hc Hlt Hd js total.
  - subst js total. simpl. split; [lia |].
    exists ms. replace (c - 1) with i by lia. reflexivity.
  - subst js total.
    rewrite seqZ_cons by lia. cbn [map foldr].
    replace (Z.pred (Z.of_nat (S k))) with (Z.of_nat k) by lia.
    replace (Z.succ (i + 1)) with (i + 1 + 1) by lia.
    destruct (IH (wrap32 0) ns tm c r (i + 1) tr) as [Hpos _];
      [lia | lia | lia | intros j Hj; apply Hd; lia |].
    assert (Hn : 1 <= note_ticks (load tm (i + 1))) by (unfold note_ticks; lia).
    split; [lia |].
    set (rest := foldr Z.add 0
                   (map (fun j => note_ticks (load tm j))
                        (seqZ (i + 1 + 1) (Z.of_nat k)))) in *.
    replace (Z.to_nat (note_ticks (load tm (i + 1)) + rest))
      with (1 + (Z.to_nat (note_ticks (load tm (i + 1)) - 1) + Z.to_nat rest))%nat
      by lia.
    rewrite ticks_add. change (ticks 1 ?s) with (SysTick_Handler s).
    destruct (SysTick_next_note ms ns tm c r i tr) as [-> | Hneg];
      [rewrite wrap32_small by lia; lia | | specialize (Hd (i + 1)); lia].
    rewrite ticks_add.
    destruct (ticks_countdown (Z.to_nat (note_ticks (load tm (i + 1)) - 1))
                (wrap32 (ms + 1)) ns tm c r (i + 1)
                (load (Some ns) (i + 1) :: tr)) as [ms1 Hcount].
    rewrite Z2Nat.id in Hcount by lia. rewrite Hcount.
    destruct (IH ms1 ns tm c r (i + 1) (load (Some ns) (i + 1) :: tr))
      as [_ [ms2 Hrest]];
      [lia | lia | lia | intros j Hj; apply Hd; lia |].
    fold rest in Hrest. rewrite Hrest. exists ms2.
    cbn [rev]. rewrite <- app_assoc. reflexivity.
Qed.

Lemma SysTick_idle ms tm c r i t tr :
  SysTick_Handler (Isr.mk ms None tm c r i t tr)
  = Isr.mk (wrap32 (ms + 1)) None tm c r i t tr.
Proof. reflexivity. Qed.

Lemma ticks_idle (n : nat) :
  forall ms tm c r i t tr,
    exists ms', ticks n (Isr.mk ms None tm c r i t tr)
                = Isr.mk ms' None tm c r i t tr.
Proof.
  induction n as [|n IH]; intros ms tm c r i t tr.
  - exists ms. reflexivity.
  - rewrite ticks_succ, SysTick_idle. apply IH.
Qed.

(** X1: With no tune installed the handler is a clock and nothing more: no
    tone is requested and the tune variables keep their values, however
    many ticks pass. *)
Theorem sequencer_idle_without_tune (n : nat) (s : Isr.t) :
  Isr.background_tune_notes s = None ->
  exists ms',
    ticks n s = Isr.set_milliseconds ms' s /\
    (0 <= Isr.milliseconds s < 4294967296 ->
     ms' = wrap32 (Isr.milliseconds s + Z.of_nat n)).
Proof.
  intros Hn. destruct s as [ms notes tm c r i t tr]. simpl in Hn. subst notes.
  destruct (ticks_idle n ms tm c r i t tr) as [ms' Hms]. exists ms'.
  split; [exact Hms |].
  intros Hr.
  pose proof (ticks_milliseconds n (Isr.mk ms None tm c r i t tr) Hr) as Hc.
  rewrite Hms in Hc. exact Hc.
Qed.

(** Three seconds of ticks with the tune pointer null. *)
Lemma sequencer_idle_without_tune_witness :
  ticks 3000 (Isr.mk 4294967000 None (Some my_note_times) 5 1 2 7 [440])
  = Isr.mk 2704 None (Some my_note_times) 5 1 2 7 [440].
Proof.
  destruct (sequencer_idle_without_tune 3000
              (Isr.mk 4294967000 None (Some my_note_times) 5 1 2 7 [440])
              eq_refl) as (ms' & -> & Hms).
  rewrite Hms by (simpl; lia). reflexivity.
Defined.

Lemma ticks_notes_cases (n : nat) :
  forall s, Isr.background_tune_notes (ticks n s) = Isr.background_tune_notes s
            \/ Isr.background_tune_notes (ticks n s) = None.
Proof.
  induction n as [|n IH]; intros s; [left; reflexivity |].
  rewrite ticks_succ. destruct (IH (SysTick_Handler s)) as [-> | ->]; [| auto].
  destruct s as [ms notes tm c r i t tr]. unfold SysTick_Handler. simpl.
  destruct notes as [ns|]; [| auto]. simpl.
  destruct (t =? 0) eqn:Et; simpl.
  - destruct (wrap32 (i + 1) >=? c); simpl.
    + destruct (r =? 0); simpl; rewrite Et; auto.
    + destruct (to_int _ =? 0); auto.
  - rewrite Et. auto.
Qed.

(** X2: A tune that does not repeat plays the notes after the current one,
    each for its duration (at least one tick), and is then switched off
    for good: with the timer at [t] and the index at [i], the pointer is
    null after t + sum of the remaining durations + 1 ticks and not
    before, and the tones requested by then are exactly the notes
    i+1, ..., count-1 in order. *)
Theorem tune_without_repeat_stops (s : Isr.t) (ns : list Z) :
  Isr.background_tune_notes s = Some ns ->
  Isr.background_repeat_tune s = 0 ->
  0 <= Isr.current_note_timer s ->
  0 <= Isr.index s < Isr.background_tune_note_count s ->
  Isr.background_tune_note_count s < 4294967296 ->
  (forall j, Isr.index s < j < Isr.background_tune_note_count s ->
             0 <= to_int (load (Isr.background_tune_times s) j)) ->
  let js := seqZ (Isr.index s + 1)
                 (Isr.background_tune_note_count s - Isr.index s - 1) in
  let total :=
    Z.to_nat (Isr.current_note_timer s
              + foldr Z.add 0
                  (map (fun j => note_ticks (load (Isr.background_tune_times s) j))
                       js)
              + 1) in
  (forall n, (total <= n)%nat ->
             Isr.background_tune_notes (ticks n s) = None /\
             Isr.tones (ticks n s) = rev (map (load (Some ns)) js) ++ Isr.tones s) /\
  (forall n, (n < total)%nat ->
             Isr.background_tune_notes (ticks n s) = Some ns).
Proof.
  intros Hn Hr Ht Hi Hc Hd js total.
  destruct s as [ms notes tm c r i t tr]. simpl in *. subst notes r.
  destruct (ticks_play_through (Z.to_nat (c - i - 1)) ms ns tm c 0 i tr)
    as [Hpos _]; [lia | lia | lia | exact Hd |].
  rewrite Z2Nat.id in Hpos by lia. fold js in Hpos.
  set (rest := foldr Z.add 0 (map (fun j => note_ticks (load tm j)) js)) in *.
  assert (Hlast : exists ms1,
             ticks (Z.to_nat (t + rest)) (Isr.mk ms (Some ns) tm c 0 i t tr)
             = Isr.mk ms1 (Some ns) tm c 0 (c - 1) 0
                      (rev (map (load (Some ns)) js) ++ tr)).
  { replace (Z.to_nat (t + rest)) with (Z.to_nat t + Z.to_nat rest)%nat by lia.
    rewrite ticks_add.
    destruct (ticks_countdown (Z.to_nat t) ms ns tm c 0 i tr) as [ms0 H0].
    rewrite Z2Nat.id in H0 by lia. rewrite H0.
    destruct (ticks_play_through (Z.to_nat (c - i - 1)) ms0 ns tm c 0 i tr)
      as [_ [ms1 H1]]; [lia | lia | lia | exact Hd |].
    rewrite Z2Nat.id in H1 by lia. fold js rest in H1.
    exists ms1. exact H1. }
  destruct Hlast as [ms1 Hlast].
  assert (Hend : ticks total (Isr.mk ms (Some ns) tm c 0 i t tr)
                 = Isr.mk (wrap32 (ms1 + 1)) None tm c 0 (c - 1 + 1) 0
                          (rev (map (load (Some ns)) js) ++ tr)).
  { subst total.
    replace (Z.to_nat (t + rest + 1)) with (Z.to_nat (t + rest) + 1)%nat by lia.
    rewrite ticks_add, Hlast. change (ticks 1 ?x) with (SysTick_Handler x).
    apply SysTick_stop. replace (c - 1 + 1) with c by lia.
    rewrite wrap32_small; lia. }
  split.
  - intros n Hle.
    replace n with (total + (n - total))%nat by lia.
    rewrite ticks_add, Hend.
    destruct (ticks_idle (n - total) (wrap32 (ms1 + 1)) tm c 0 (c - 1 + 1) 0
                (rev (map (load (Some ns)) js) ++ tr)) as [ms2 ->].
    split; reflexivity.
  - intros n Hlt.
    destruct (ticks_notes_cases n (Isr.mk ms (Some ns) tm c 0 i t tr))
      as [Hsame | Hnone]; [exact Hsame |].
    exfalso.
    assert (Hcontra : Isr.background_tune_notes
                        (ticks (Z.to_nat (t + rest))
                               (Isr.mk ms (Some ns) tm c 0 i t tr)) = None).
    { replace (Z.to_nat (t + rest)) with (n + (Z.to_nat (t + rest) - n))%nat
        by (subst total; lia).
      rewrite ticks_add.
      destruct (ticks n (Isr.mk ms (Some ns) tm c 0 i t tr))
        as [ms3 notes3 tm3 c3 r3 i3 t3 tr3]. simpl in Hnone. subst notes3.
      destruct (ticks_idle (Z.to_nat (t + rest) - n) ms3 tm3 c3 r3 i3 t3 tr3)
        as [ms4 ->]. reflexivity. }
    rewrite Hlast in Hcontra. discriminate Hcontra.
Qed.

(** The three-note tune with durations 200, 300 and 400 ms, not
    repeating, from its installation: it is off after 701 ticks, having
    requested the second and the third note. *)
Lemma tune_without_repeat_stops_witness :
  let s := Isr.mk 0 (Some [262; 294; 330]) (Some [200; 300; 400]) 3 0 0 0 [] in
  (Isr.background_tune_notes (ticks 701 s) = None /\
   Isr.tones (ticks 701 s) = [330; 294]) /\
  Isr.background_tune_notes (ticks 700 s) = Some [262; 294; 330].
Proof.
  intros s.
  assert (Hd : forall j, Isr.index s < j < Isr.background_tune_note_count s ->
                         0 <= to_int (load (Isr.background_tune_times s) j)).
  { intros j Hj. change (0 < j < 3) in Hj.
    assert (Hcases : j = 1 \/ j = 2) by lia.
    destruct Hcases as [-> | ->]; vm_compute; discriminate. }
  destruct (tune_without_repeat_stops s [262; 294; 330] eq_refl eq_refl
              ltac:(vm_compute; discriminate)
              ltac:(split; [vm_compute; discriminate | reflexivity])
              ltac:(reflexivity) Hd) as [Hoff Hon].
  split.
  - apply (Hoff 701%nat). apply Nat.leb_le. vm_compute. reflexivity.
  - apply (Hon 700%nat). apply Nat.ltb_lt. vm_compute. reflexivity.
Defined.

Lemma ticks_one_cycle ms ns tm c r tr :
  1 <= c < 4294967296 -> r <> 0 ->
  (forall j, 0 < j < c -> 0 <= to_int (load tm j)) ->
  let js := seqZ 1 (c - 1) in
  let period :=
    Z.to_nat (foldr Z.add 0 (map (fun j => note_ticks (load tm j)) js) + 1) in
  exists ms',
    ticks period (Isr.mk ms (Some ns) tm c r 0 0 tr)
    = Isr.mk ms' (Some ns) tm c r 0 0 (rev (map (load (Some ns)) js) ++ tr).
Proof.
  intros Hc Hr Hd js period.
  destruct (ticks_play_through (Z.to_nat (c - 1)) ms ns tm c r 0 tr)
    as [Hpos [ms1 H1]]; [lia | lia | lia | exact Hd |].
  rewrite Z2Nat.id in Hpos, H1 by lia.
  change (0 + 1) with 1 in Hpos, H1. fold js in Hpos, H1.
  set (rest := foldr Z.add 0 (map (fun j => note_ticks (load tm j)) js)) in *.
  subst period.
  replace (Z.to_nat (rest + 1)) with (Z.to_nat rest + 1)%nat by lia.
  rewrite ticks_add, H1. change (ticks 1 ?x) with (SysTick_Handler x).
  exists (wrap32 (ms1 + 1)). apply SysTick_restart; [| exact Hr].
  replace (c - 1 + 1) with c by lia. rewrite wrap32_small; lia.
Qed.

(** X3: A repeating tune, from index 0 with no tick remaining (as it is
    installed): one cycle takes the durations of the notes 1, ...,
    count-1 (each at least one tick) and one more tick for the return to
    index 0, and requests exactly these notes in order; after any number
    of cycles the sequencer is back at index 0 with nothing else changed
    but the clock.  The note at index 0 is not among the requests. *)
Theorem repeating_tune_cycle (cycles : nat) (s : Isr.t) (ns : list Z) :
  Isr.background_tune_notes s = Some ns ->
  Isr.background_repeat_tune s <> 0 ->
  Isr.index s = 0 ->
  Isr.current_note_timer s = 0 ->
  1 <= Isr.background_tune_note_count s < 4294967296 ->
  (forall j, 0 < j < Isr.background_tune_note_count s ->
             0 <= to_int (load (Isr.background_tune_times s) j)) ->
  let js := seqZ 1 (Isr.background_tune_note_count s - 1) in
  let period :=
    Z.to_nat (foldr Z.add 0
                (map (fun j => note_ticks (load (Isr.background_tune_times s) j))
                     js) + 1) in
  exists ms',
    ticks (cycles * period) s
    = Isr.set_tones
        (concat (replicate cycles (rev (map (load (Some ns)) js))) ++ Isr.tones s)
        (Isr.set_milliseconds ms' s).
Proof.
  intros Hn Hr Hi Ht Hc Hd js period.
  destruct s as [ms notes tm c r i t tr]. simpl in *. subst notes i t.
  assert (Hcycles : forall m, exists ms',
             ticks (m * period) (Isr.mk ms (Some ns) tm c r 0 0 tr)
             = Isr.mk ms' (Some ns) tm c r 0 0
                 (concat (replicate m (rev (map (load (Some ns)) js))) ++ tr)).
  { induction m as [|m IH].
    - exists ms. reflexivity.
    - destruct IH as [ms1 IH].
      replace (S m * period)%nat with (m * period + period)%nat by lia.
      rewrite ticks_add, IH.
      destruct (ticks_one_cycle ms1 ns tm c r
                  (concat (replicate m (rev (map (load (Some ns)) js))) ++ tr)
                  Hc Hr Hd) as [ms2 H2].
      fold js period in H2. rewrite H2. exists ms2.
      cbn [replicate concat]. rewrite <- app_assoc. reflexivity. }
  destruct (Hcycles cycles) as [ms' H]. exists ms'. rewrite H. reflexivity.
Qed.

(** The tune of [main] (durations 200, 300, 400, 100, 500): a cycle is
    1301 ticks and requests the second to the fifth note. *)
Lemma repeating_tune_cycle_witness :
  exists ms',
    ticks 2602 (Isr.mk 0 (Some [10; 11; 12; 13; 14]) (Some my_note_times) 5 1 0 0 [])
    = Isr.mk ms' (Some [10; 11; 12; 13; 14]) (Some my_note_times) 5 1 0 0
             [14; 13; 12; 11; 14; 13; 12; 11].
Proof.
  assert (Hd : forall j, 0 < j < 5 ->
                         0 <= to_int (load (Some my_note_times) j)).
  { intros j Hj.
    assert (Hcases : j = 1 \/ j = 2 \/ j = 3 \/ j = 4) by lia.
    destruct Hcases as [-> | [-> | [-> | ->]]]; vm_compute; discriminate. }
  destruct (repeating_tune_cycle 2
              (Isr.mk 0 (Some [10; 11; 12; 13; 14]) (Some my_note_times) 5 1 0 0 [])
              [10; 11; 12; 13; 14] eq_refl
              ltac:(vm_compute; discriminate) eq_refl eq_refl
              ltac:(split; [vm_compute; discriminate | reflexivity]) Hd)
    as [ms' Hc].
  exists ms'. exact Hc.
Defined.

(** ** Blocking helpers *)

Lemma delay_is_ticks dly s :
  0 <= Isr.milliseconds s < 4294967296 ->
  delay dly s = ticks (Z.to_nat (wrap32 dly)) s /\
  Isr.milliseconds (delay dly s) = wrap32 (Isr.milliseconds s + wrap32 dly) /\
  0 <= Isr.milliseconds (delay dly s) < 4294967296.
Proof.
  intros Hs. rewrite delay_upto_enough by assumption.
  rewrite ticks_milliseconds by assumption.
  pose proof (wrap32_range dly).
  rewrite Z2Nat.id by lia.
  split; [reflexivity |]. split; [reflexivity | apply wrap32_range].
Qed.

(** X4: Two delays in a row are one delay of the sum: the interrupt state
    after [delay a] and then [delay b], tune sequencer included, is the
    state after [delay (a + b)]. *)
Theorem delay_delay (a b : Z) (s : Isr.t) :
  0 <= Isr.milliseconds s < 4294967296 ->
  0 <= a -> 0 <= b -> a + b < 4294967296 ->
  delay b (delay a s) = delay (a + b) s.
Proof.
  intros Hs Ha Hb Hab.
  destruct (delay_is_ticks a s Hs) as (Ea & _ & Hr).
  destruct (delay_is_ticks b (delay a s) Hr) as (Eb & _ & _).
  destruct (delay_is_ticks (a + b) s Hs) as (Eab & _ & _).
  rewrite Eb, Ea, Eab.
  rewrite !wrap32_small by lia.
  rewrite Z2Nat.inj_add by lia. symmetry. apply ticks_add.
Qed.

(** The fanfare of the win screen: 200 + 200 ms over the wrap of the
    clock, with the tune of [main] running. *)
Lemma delay_delay_witness :
  let s := Isr.mk 4294967200 (Some [10; 11; 12; 13; 14]) (Some my_note_times)
                  5 1 0 0 [] in
  delay 200 (delay 200 s) = delay 400 s.
Proof.
  intros s. apply (delay_delay 200 200 s); simpl; lia.
Defined.

Lemma now_fg_delay d g :
  0 <= now g < 4294967296 ->
  now (fg_delay d g) = wrap32 (now g + wrap32 d) /\
  0 <= now (fg_delay d g) < 4294967296.
Proof.
  intros Hs. unfold now, fg_delay in *. cbn [Game.isr Game.set_isr].
  destruct (delay_is_ticks d (Game.isr g) Hs) as (_ & Hm & Hr).
  split; assumption.
Qed.

Lemma wrap32_add_l a b : wrap32 (wrap32 a + b) = wrap32 (a + b).
Proof. unfold wrap32. apply Zplus_mod_idemp_l. Qed.

(** The waiting time of a sequence of cues. *)
Lemma perform_clock cs :
  forall g,
    0 <= now g < 4294967296 ->
    now (perform cs g)
    = wrap32 (now g + foldr Z.add 0
                        (map (fun c => match c with
                                       | Note _ => 0
                                       | Wait d => wrap32 d
                                       end) cs)) /\
    0 <= now (perform cs g) < 4294967296.
Proof.
  induction cs as [|c cs IH]; intros g Hs.
  - simpl. rewrite Z.add_0_r, wrap32_small by assumption. auto.
  - change (perform (c :: cs) g) with (perform cs (cue g c)).
    destruct c as [n | d].
    + destruct (IH (cue g (Note n)) Hs) as [Hc Hr].
      split; [| exact Hr]. rewrite Hc. cbn [map foldr]. f_equal.
    + destruct (now_fg_delay d g Hs) as [Hd Hrd].
      destruct (IH (cue g (Wait d)) Hrd) as [Hc Hr].
      split; [| exact Hr]. rewrite Hc. cbn [map foldr].
      change (now (cue g (Wait d))) with (now (fg_delay d g)).
      rewrite Hd, wrap32_add_l. f_equal. lia.
Qed.

(** [showWinScreen] holds the loop for 2922 ms and changes nothing but
    the interrupt's state. *)
Lemma showWinScreen_blocks g :
  0 <= now g < 4294967296 ->
  now (showWinScreen g) = wrap32 (now g + 2922) /\
  exists s, showWinScreen g = Game.set_isr s g.
Proof.
  intros Hs. unfold showWinScreen.
  destruct (perform_clock showWinScreen_cues g Hs) as [Hc _].
  split; [| apply perform_frame].
  rewrite Hc. f_equal.
Qed.

(** X5: The win: in level 2 with the four hearts eaten and the game not yet
    won, the win check sets [game_won], holds the loop for the 2922 ms
    of the win screen and leaves everything else as it is; in
    particular the enemies stay as active as they were. *)
Theorem checkWinCondition_win (x y : Z) (g : Game.t) :
  Game.current_level g = 2 ->
  Game.game_won g = 0 ->
  Heart.eaten (Game.heart1 g) + Heart.eaten (Game.heart2 g)
  + (Heart.eaten (Game.heart3 g) + Heart.eaten (Game.heart4 g)) = 4 ->
  0 <= now g < 4294967296 ->
  let g' := checkWinCondition x y g in
  now g' = wrap32 (now g + 2922) /\
  exists s, g' = Game.set_isr s
                   (Game.set_game_won 1 (Game.set_hearts_collected 4 g)).
Proof.
  intros Hl Hw Hc Hs g'. subst g'.
  assert (Heq : checkWinCondition x y g
                = showWinScreen
                    (Game.set_game_won 1 (Game.set_hearts_collected 4 g))).
  { destruct g. cbn in Hl, Hw, Hc. subst.
    unfold checkWinCondition, checkWinCondition_body.
    cbn -[showWinScreen Z.add]. rewrite Hc. reflexivity. }
  rewrite Heq.
  destruct (showWinScreen_blocks
              (Game.set_game_won 1 (Game.set_hearts_collected 4 g)) Hs)
    as [Hclock Hframe].
  split; assumption.
Qed.

(** Level 2 with three pumpkins in play and the fourth heart just
    eaten. *)
Lemma checkWinCondition_win_witness :
  let eat h := Heart.set_eaten 1 h in
  let g := Game.set_enemies (initEnemies 2 (Game.enemies Game_init))
             (Game.set_current_level 2
                (Game.set_heart4 (eat (Game.heart4 Game_init))
                   (Game.set_heart3 (eat (Game.heart3 Game_init))
                      (Game.set_heart2 (eat (Game.heart2 Game_init))
                         (Game.set_heart1 (eat (Game.heart1 Game_init))
                            Game_init))))) in
  let g' := checkWinCondition 30 100 g in
  Game.game_won g' = 1 /\ now g' = 2922 /\
  Game.enemies g' = initEnemies 2 (Game.enemies Game_init).
Proof.
  intros eat g g'.
  destruct (checkWinCondition_win 30 100 g eq_refl eq_refl eq_refl)
    as [Hclock [s Hs]]; [change (0 <= 0 < 4294967296); lia |].
  fold g' in Hclock, Hs. rewrite Hclock, Hs. repeat split.
Defined.

(** The win check, by cases of its test. *)
Lemma checkWinCondition_cases (x y : Z) (g : Game.t) :
  checkWinCondition x y g
  = if win_check_fires g then
      if Game.current_level g =? 1 then
        Game.set_enemies
          (initEnemies 2 (Game.enemies g))
          (fg_delay 2000
             (clear_eaten
                (Game.set_current_level 2
                   (Game.set_hearts_collected (eaten_count g) g))))
      else
        showWinScreen
          (Game.set_game_won 1 (Game.set_hearts_collected (eaten_count g) g))
    else Game.set_hearts_collected (eaten_count g) g.
Proof.
  destruct g as [isr pmd won over show sel h1 h2 hmd level hc h3 h4 h5 h6
                 es menu opt].
  unfold checkWinCondition, checkWinCondition_body, win_check_fires, eaten_count.
  cbn -[showWinScreen delay initEnemies Z.add].
  destruct (level =? 2) eqn:E2;
    cbn -[showWinScreen delay initEnemies Z.add];
    destruct (_ && _); cbn -[showWinScreen delay initEnemies Z.add];
    try reflexivity;
    destruct (level =? 1); reflexivity.
Qed.

(** X6: A second win check right after a first never blocks, never changes
    the level and never fires the win again: all it may change is the
    counter of collected hearts. *)
Theorem checkWinCondition_fires_once (x y x' y' : Z) (g : Game.t) :
  exists collected,
    checkWinCondition x' y' (checkWinCondition x y g)
    = Game.set_hearts_collected collected (checkWinCondition x y g).
Proof.
  assert (Hquiet : forall g1, win_check_fires g1 = false ->
            exists collected,
              checkWinCondition x' y' g1 = Game.set_hearts_collected collected g1).
  { intros g1 Hf. rewrite checkWinCondition_cases, Hf. eauto. }
  apply Hquiet. rewrite checkWinCondition_cases.
  destruct (win_check_fires g) eqn:Hf.
  - destruct (Game.current_level g =? 1) eqn:E1.
    + reflexivity.
    + unfold showWinScreen.
      match goal with
      | |- context [perform ?cs ?g0] => destruct (perform_frame cs g0) as [s ->]
      end.
      unfold win_check_fires. cbn [Game.game_won Game.set_isr Game.set_game_won].
      apply andb_false_r.
  - unfold win_check_fires, eaten_count in *.
    cbn [Game.game_won Game.current_level Game.heart1 Game.heart2 Game.heart3
         Game.heart4 Game.set_hearts_collected].
    exact Hf.
Qed.

Lemma ticks_idle_exact (n : nat) ms tm c r i t tr :
  0 <= ms < 4294967296 ->
  ticks n (Isr.mk ms None tm c r i t tr)
  = Isr.mk (wrap32 (ms + Z.of_nat n)) None tm c r i t tr.
Proof.
  intros Hs. destruct (ticks_idle n ms tm c r i t tr) as [ms' H].
  pose proof (ticks_milliseconds n (Isr.mk ms None tm c r i t tr) Hs) as Hc.
  rewrite H in Hc |- *. simpl in Hc. rewrite Hc. reflexivity.
Qed.

Lemma playTune_loop (notes times : list Z) g tm c r i t (l : list nat) :
  forall ms tr,
    0 <= ms < 4294967296 ->
    fold_left
      (fun g k => fg_delay (default 0 (times !! k))
                    (fg_playNote (default 0 (notes !! k)) g))
      l (Game.set_isr (Isr.mk ms None tm c r i t tr) g)
    = Game.set_isr
        (Isr.mk (wrap32 (ms + foldr Z.add 0
                                (map (fun k => wrap32 (default 0 (times !! k))) l)))
                None tm c r i t
                (rev (map (fun k => default 0 (notes !! k)) l) ++ tr))
        g.
Proof.
  induction l as [|k l IH]; intros ms tr Hs.
  - simpl. rewrite Z.add_0_r, wrap32_small by assumption. reflexivity.
  - cbn [fold_left map foldr rev].
    change (fg_delay (default 0 (times !! k))
              (fg_playNote (default 0 (notes !! k))
                 (Game.set_isr (Isr.mk ms None tm c r i t tr) g)))
      with (Game.set_isr
              (delay (default 0 (times !! k))
                 (Isr.mk ms None tm c r i t (default 0 (notes !! k) :: tr)))
              g).
    rewrite delay_upto_enough by assumption.
    rewrite ticks_idle_exact by assumption.
    pose proof (wrap32_range (default 0 (times !! k))) as Hw.
    rewrite Z2Nat.id by lia.
    rewrite IH by apply wrap32_range.
    rewrite wrap32_add_l, <- app_assoc.
    replace (ms + wrap32 (default 0 (times !! k))
             + foldr Z.add 0 (map (fun k0 => wrap32 (default 0 (times !! k0))) l))
      with (ms + (wrap32 (default 0 (times !! k))
                  + foldr Z.add 0
                      (map (fun k0 => wrap32 (default 0 (times !! k0))) l)))
      by lia.
    reflexivity.
Qed.

(** X7: [playTune] before a background tune is installed: the notes are
    requested in order, each followed by its delay, then the tone is
    switched off with a request of 0; the loop is held for the sum of
    the delays and nothing but the interrupt's state changes. *)
Theorem playTune_plays_in_order (notes times : list Z) (len : nat) (g : Game.t) :
  Isr.background_tune_notes (Game.isr g) = None ->
  0 <= now g < 4294967296 ->
  let played := map (fun i => default 0 (notes !! i)) (seq 0 len) in
  let waited :=
    foldr Z.add 0 (map (fun i => wrap32 (default 0 (times !! i))) (seq 0 len)) in
  playTune notes times len g
  = Game.set_isr
      (Isr.set_tones (0 :: rev played ++ Isr.tones (Game.isr g))
         (Isr.set_milliseconds (wrap32 (now g + waited)) (Game.isr g)))
      g.
Proof.
  intros Hn Hs played waited. subst played waited. unfold playTune.
  destruct g as [isr pmd won over show sel h1 h2 hmd level hc h3 h4 h5 h6
                 es menu opt].
  destruct isr as [ms bn tm c r i t tr]. simpl in Hn. subst bn.
  change (0 <= ms < 4294967296) in Hs.
  match goal with
  | |- context [fold_left ?f ?l ?g0] =>
    change g0 with (Game.set_isr (Isr.mk ms None tm c r i t tr) g0)
  end.
  rewrite playTune_loop by assumption. reflexivity.
Qed.

(** The start-up tune of [main], 1500 ms long. *)
Lemma playTune_plays_in_order_witness :
  Game.isr (playTune [10; 11; 12; 13; 14] my_note_times 5 Game_init)
  = Isr.mk 1500 None None 0 0 0 0 [0; 14; 13; 12; 11; 10].
Proof.
  rewrite (playTune_plays_in_order [10; 11; 12; 13; 14] my_note_times 5
             Game_init eq_refl);
    [reflexivity | change (0 <= 0 < 4294967296); lia].
Defined.

(** ** Pin setup *)

Lemma testbit_3 j : Z.testbit 3 j = (0 <=? j) && (j <? 2).
Proof. change 3 with (Z.ones 2). apply Z.testbit_ones. lia. Qed.

Lemma testbit_wrap32 a i :
  Z.testbit (wrap32 a) i = (i <? 32) && Z.testbit a i.
Proof.
  unfold wrap32. change 4294967296 with (2 ^ 32).
  apply Z.testbit_mod_pow2. lia.
Qed.

Lemma testbit_pin_field r k i :
  0 <= k -> 0 <= i ->
  Z.testbit (pin_field r k) i = Z.testbit r (i + 2 * k) && (i <? 2).
Proof.
  intros Hk Hi. unfold pin_field.
  rewrite Z.land_spec, Z.shiftr_spec, testbit_3 by lia.
  replace (0 <=? i) with true by (symmetry; apply Z.leb_le; lia).
  reflexivity.
Qed.

(** The mask [~(3u << BitNumber*2)] has every bit below 32 set, but for
    the two of the pin. *)
Lemma testbit_mask n j :
  0 <= n -> 0 <= j ->
  Z.testbit (wrap32 (Z.lnot (wrap32 (Z.shiftl 3 (n * 2))))) j
  = (j <? 32) && negb ((2 * n <=? j) && (j <? 2 * n + 2)).
Proof.
  intros Hn Hj.
  rewrite testbit_wrap32, Z.lnot_spec, testbit_wrap32, Z.shiftl_spec,
    testbit_3 by lia.
  destruct (Z.ltb_spec j 32), (Z.leb_spec (2 * n) j),
    (Z.ltb_spec j (2 * n + 2)), (Z.leb_spec 0 (j - n * 2)),
    (Z.ltb_spec (j - n * 2) 2); simpl; try reflexivity; lia.
Qed.

Lemma small_testbit m j : 0 <= m <= 3 -> Z.testbit m j = Z.testbit m j && (j <? 2).
Proof.
  intros Hm.
  assert (E : m = Z.land m 3).
  { change 3 with (Z.ones 2). rewrite Z.land_ones by lia.
    symmetry. apply Z.mod_small. change (2 ^ 2) with 4. lia. }
  rewrite E at 1. rewrite Z.land_spec, testbit_3.
  destruct (Z.leb_spec 0 j); simpl; [reflexivity |].
  rewrite Z.testbit_neg_r by lia. reflexivity.
Qed.

Lemma pin_field_insert r v n k :
  0 <= n <= 15 -> 0 <= k <= 15 -> 0 <= v <= 3 ->
  pin_field
    (Z.lor (Z.land r (wrap32 (Z.lnot (wrap32 (Z.shiftl 3 (n * 2))))))
           (wrap32 (Z.shiftl v (2 * n)))) k
  = if k =? n then v else pin_field r k.
Proof.
  intros Hn Hk Hv.
  apply Z.bits_inj'. intros i Hi.
  rewrite testbit_pin_field, Z.lor_spec, Z.land_spec, testbit_mask,
    testbit_wrap32, Z.shiftl_spec by lia.
  rewrite (small_testbit v (i + 2 * k - 2 * n)) by lia.
  destruct (Z.eqb_spec k n) as [-> | Hne].
  - replace (i + 2 * n - 2 * n) with i by lia.
    rewrite (small_testbit v i) by lia.
    destruct (Z.ltb_spec i 2), (Z.ltb_spec (i + 2 * n) 32),
      (Z.leb_spec (2 * n) (i + 2 * n)), (Z.ltb_spec (i + 2 * n) (2 * n + 2));
      simpl; rewrite ?andb_false_r, ?andb_true_r, ?orb_false_r; simpl;
      try reflexivity; lia.
  - rewrite testbit_pin_field by lia.
    destruct (Z.ltb_spec i 2); [| rewrite !andb_false_r; reflexivity].
    rewrite !andb_true_r.
    assert (Hout : i + 2 * k - 2 * n < 0 \/ 2 <= i + 2 * k - 2 * n) by lia.
    replace (Z.testbit v (i + 2 * k - 2 * n) && (i + 2 * k - 2 * n <? 2))
      with false.
    2:{ destruct Hout as [Hneg | Hbig].
        - rewrite Z.testbit_neg_r by lia. reflexivity.
        - replace (i + 2 * k - 2 * n <? 2) with false
            by (symmetry; apply Z.ltb_ge; lia).
          rewrite andb_false_r. reflexivity. }
    replace (i + 2 * k <? 32) with true by (symmetry; apply Z.ltb_lt; lia).
    replace ((2 * n <=? i + 2 * k) && (i + 2 * k <? 2 * n + 2)) with false.
    2:{ symmetry. apply andb_false_iff.
        destruct Hout; [left; apply Z.leb_gt | right; apply Z.ltb_ge]; lia. }
    destruct (Z.testbit r (i + 2 * k)); reflexivity.
Qed.

Lemma pinMode_field (Port : Gpio.t) (n m k : Z) :
  0 <= n <= 15 -> 0 <= m <= 3 -> 0 <= k <= 15 ->
  pin_field (Gpio.MODER (pinMode Port n m)) k
  = if k =? n then m else pin_field (Gpio.MODER Port) k.
Proof.
  intros Hn Hm Hk. unfold pinMode. cbn [Gpio.MODER].
  apply pin_field_insert; assumption.
Qed.

Lemma enablePullUp_field (Port : Gpio.t) (n k : Z) :
  0 <= n <= 15 -> 0 <= k <= 15 ->
  pin_field (Gpio.PUPDR (enablePullUp Port n)) k
  = if k =? n then 1 else pin_field (Gpio.PUPDR Port) k.
Proof.
  intros Hn Hk. unfold enablePullUp. cbn [Gpio.PUPDR].
  rewrite <- (pin_field_insert (Gpio.PUPDR Port) 1 n k) by lia.
  replace (2 * n) with (n * 2) by lia. reflexivity.
Qed.

(** X8: [pinMode] writes the mode into the two bits of its pin and leaves the
    mode of every other pin of the port, and the pull-up register, as they
    were. *)
Theorem pinMode_sets_only_its_pin (Port : Gpio.t) (BitNumber Mode pin : Z) :
  0 <= BitNumber <= 15 -> 0 <= Mode <= 3 -> 0 <= pin <= 15 ->
  pin_field (Gpio.MODER (pinMode Port BitNumber Mode)) pin
  = (if pin =? BitNumber then Mode else pin_field (Gpio.MODER Port) pin)
  /\ Gpio.PUPDR (pinMode Port BitNumber Mode) = Gpio.PUPDR Port.
Proof.
  intros Hn Hm Hk. split; [| reflexivity].
  apply pinMode_field; assumption.
Qed.

Lemma pinMode_sets_only_its_pin_witness :
  pin_field (Gpio.MODER (pinMode (Gpio.mk 4294967295 0) 4 0)) 4 = 0
  /\ pin_field (Gpio.MODER (pinMode (Gpio.mk 4294967295 0) 4 0)) 5 = 3.
Proof.
  split.
  - exact (proj1 (pinMode_sets_only_its_pin (Gpio.mk 4294967295 0) 4 0 4
                    ltac:(lia) ltac:(lia) ltac:(lia))).
  - exact (proj1 (pinMode_sets_only_its_pin (Gpio.mk 4294967295 0) 4 0 5
                    ltac:(lia) ltac:(lia) ltac:(lia))).
Defined.

(** X9: [enablePullUp] selects the pull-up (01) for its pin and leaves the
    pull configuration of every other pin, and the mode register, as they
    were. *)
Theorem enablePullUp_sets_only_its_pin (Port : Gpio.t) (BitNumber pin : Z) :
  0 <= BitNumber <= 15 -> 0 <= pin <= 15 ->
  pin_field (Gpio.PUPDR (enablePullUp Port BitNumber)) pin
  = (if pin =? BitNumber then 1 else pin_field (Gpio.PUPDR Port) pin)
  /\ Gpio.MODER (enablePullUp Port BitNumber) = Gpio.MODER Port.
Proof.
  intros Hn Hk. split; [| reflexivity].
  apply enablePullUp_field; assumption.
Qed.

Lemma enablePullUp_sets_only_its_pin_witness :
  pin_field (Gpio.PUPDR (enablePullUp (Gpio.mk 0 2863311530) 11)) 11 = 1
  /\ pin_field (Gpio.PUPDR (enablePullUp (Gpio.mk 0 2863311530) 11)) 8 = 2.
Proof.
  split.
  - exact (proj1 (enablePullUp_sets_only_its_pin (Gpio.mk 0 2863311530) 11 11
                    ltac:(lia) ltac:(lia))).
  - exact (proj1 (enablePullUp_sets_only_its_pin (Gpio.mk 0 2863311530) 11 8
                    ltac:(lia) ltac:(lia))).
Defined.

(** X10: After [setupIO], whatever the display driver's [display_begin] did to
    the ports: the button pins B4, B5, A8 and A11 and the LED pin A12 are
    inputs, the four button pins have their pull-up selected, A12 has not,
    and every other pin is as [display_begin] left it. *)
Theorem setupIO_configures_buttons
  (display_begin : Periph.t -> Periph.t) (p : Periph.t) (pin : Z) :
  0 <= pin <= 15 ->
  let q := display_begin
             (Periph.mk (Z.lor (Periph.AHBENR p) 393216)
                        (Periph.GPIOA p) (Periph.GPIOB p)) in
  let p' := setupIO display_begin p in
  pin_field (Gpio.MODER (Periph.GPIOA p')) pin
  = (if (pin =? 8) || (pin =? 11) || (pin =? 12) then 0
     else pin_field (Gpio.MODER (Periph.GPIOA q)) pin)
  /\ pin_field (Gpio.MODER (Periph.GPIOB p')) pin
     = (if (pin =? 4) || (pin =? 5) then 0
        else pin_field (Gpio.MODER (Periph.GPIOB q)) pin)
  /\ pin_field (Gpio.PUPDR (Periph.GPIOA p')) pin
     = (if (pin =? 8) || (pin =? 11) then 1
        else pin_field (Gpio.PUPDR (Periph.GPIOA q)) pin)
  /\ pin_field (Gpio.PUPDR (Periph.GPIOB p')) pin
     = (if (pin =? 4) || (pin =? 5) then 1
        else pin_field (Gpio.PUPDR (Periph.GPIOB q)) pin)
  /\ Periph.AHBENR p' = Periph.AHBENR q.
Proof.
  intros Hpin q p'. subst p'. unfold setupIO.
  change (Z.shiftl 1 18 + Z.shiftl 1 17) with 393216. fold q. clearbody q.
  cbn [Periph.GPIOA Periph.GPIOB Periph.AHBENR].
  repeat split.
  - change (Gpio.MODER (enablePullUp (enablePullUp ?P 11) 8)) with (Gpio.MODER P).
    rewrite !pinMode_field by lia.
    destruct (Z.eqb_spec pin 8), (Z.eqb_spec pin 11), (Z.eqb_spec pin 12);
      simpl; try reflexivity; lia.
  - change (Gpio.MODER (enablePullUp (enablePullUp ?P 4) 5)) with (Gpio.MODER P).
    rewrite !pinMode_field by lia.
    destruct (Z.eqb_spec pin 4), (Z.eqb_spec pin 5);
      simpl; try reflexivity; lia.
  - rewrite !enablePullUp_field by lia.
    change (Gpio.PUPDR (pinMode (pinMode (pinMode ?P 8 0) 11 0) 12 0))
      with (Gpio.PUPDR P).
    destruct (Z.eqb_spec pin 8), (Z.eqb_spec pin 11);
      simpl; try reflexivity; lia.
  - rewrite !enablePullUp_field by lia.
    change (Gpio.PUPDR (pinMode (pinMode ?P 4 0) 5 0)) with (Gpio.PUPDR P).
    destruct (Z.eqb_spec pin 4), (Z.eqb_spec pin 5);
      simpl; try reflexivity; lia.
Qed.

(** Port A with every pin an output and pulled down, and a driver that
    leaves the ports alone: pin 11 becomes an input with pull-up. *)
Lemma setupIO_configures_buttons_witness :
  let p := Periph.mk 0 (Gpio.mk 1431655765 2863311530) (Gpio.mk 0 0) in
  pin_field (Gpio.MODER (Periph.GPIOA (setupIO (fun q => q) p))) 11 = 0
  /\ pin_field (Gpio.PUPDR (Periph.GPIOA (setupIO (fun q => q) p))) 11 = 1.
Proof.
  intros p.
  pose proof (setupIO_configures_buttons (fun q => q) p 11 ltac:(lia)) as H.
  cbv zeta in H. destruct H as (Hm & _ & Hp & _).
  split; [exact Hm | exact Hp].
Defined.

(** ** Drawing the maze *)

Lemma drawBackground_In (level : Z) (d : Draw) :
  In d (tl (drawBackground level)) <->
  exists x y : nat,
    (x < 16)%nat /\ (y < 20)%nat /\
    tile_of (if level =? 1 then maze else maze_level2) y x = 1 /\
    d = fillRectangle (Z.of_nat x * 8) (Z.of_nat y * 8) 8 8 WALL_COLOR.
Proof.
  unfold drawBackground, WALL_SIZE.
  set (current_maze := if level =? 1 then maze else maze_level2).
  clearbody current_maze.
  cbn [tl]. split.
  - intros H.
    apply in_flat_map in H. destruct H as (y & Hy & H).
    apply in_flat_map in H. destruct H as (x & Hx & H).
    apply in_seq in Hy. apply in_seq in Hx.
    destruct (tile_of current_maze y x =? 1) eqn:E; [| destruct H].
    destruct H as [H | []]. apply Z.eqb_eq in E.
    exists x, y. repeat split; [lia | lia | exact E | symmetry; exact H].
  - intros (x & y & Hx & Hy & E & H).
    apply in_flat_map. exists y. split; [apply in_seq; lia |].
    apply in_flat_map. exists x. split; [apply in_seq; lia |].
    rewrite E. simpl. left. symmetry. exact H.
Qed.

Lemma tile_of_maze_at (gy gx : Z) :
  tile_of maze (Z.to_nat gy) (Z.to_nat gx) = default 0 (maze_at gy gx).
Proof. reflexivity. Qed.

Lemma quot8_cell (p : Z) (c : nat) :
  0 <= p -> (Z.of_nat c * 8 <= p < Z.of_nat c * 8 + 8 <-> c = Z.to_nat (Z.quot p 8)).
Proof.
  intros Hp. rewrite Z.quot_div_nonneg by lia.
  pose proof (Z.div_mod p 8 ltac:(lia)) as Hd.
  pose proof (Z.mod_pos_bound p 8 ltac:(lia)) as Hm.
  assert (0 <= p / 8) by (apply Z.div_pos; lia).
  split; intros H'.
  - assert (p / 8 = Z.of_nat c); [| lia].
    symmetry. apply (Z.div_unique p 8 (Z.of_nat c) (p - Z.of_nat c * 8)); lia.
  - subst c. rewrite Z2Nat.id by lia. lia.
Qed.

(** X11: On the screen, [drawBackground] paints a wall block over a pixel
    exactly when the tile of the level's maze that holds the pixel is 1;
    every call after the first, which clears the screen to the path
    colour, is such an 8 x 8 block on the grid. *)
Theorem drawBackground_draws_wall_tiles (current_level px py : Z) :
  0 <= px < 128 -> 0 <= py < 160 ->
  let current_maze := if current_level =? 1 then maze else maze_level2 in
  (tile_of current_maze (Z.to_nat (Z.quot py 8)) (Z.to_nat (Z.quot px 8)) = 1
   <->
   exists bx by' w h,
     In (fillRectangle bx by' w h WALL_COLOR) (drawBackground current_level) /\
     bx <= px < bx + w /\ by' <= py < by' + h)
  /\ hd_error (drawBackground current_level)
     = Some (fillRectangle 0 0 128 160 PATH_COLOR)
  /\ Forall (fun d => match d with
                      | fillRectangle bx by' w h c =>
                        c = WALL_COLOR /\ w = 8 /\ h = 8 /\
                        bx mod 8 = 0 /\ by' mod 8 = 0 /\
                        0 <= bx /\ bx + w <= 128 /\ 0 <= by' /\ by' + h <= 160
                      end)
            (tl (drawBackground current_level)).
Proof.
  intros Hx Hy current_maze.
  split; [| split].
  - split.
    + intros E.
      exists (Z.of_nat (Z.to_nat (Z.quot px 8)) * 8),
             (Z.of_nat (Z.to_nat (Z.quot py 8)) * 8), 8, 8.
      assert (Hgx : 0 <= px ÷ 8 < 16).
      { rewrite Z.quot_div_nonneg by lia. split;
          [apply Z.div_pos | apply Z.div_lt_upper_bound]; lia. }
      assert (Hgy : 0 <= py ÷ 8 < 20).
      { rewrite Z.quot_div_nonneg by lia. split;
          [apply Z.div_pos | apply Z.div_lt_upper_bound]; lia. }
      split; [| split; apply quot8_cell; (lia || reflexivity)].
      right. apply drawBackground_In.
      exists (Z.to_nat (Z.quot px 8)), (Z.to_nat (Z.quot py 8)).
      repeat split; [lia | lia | exact E].
    + intros (bx & by' & w & h & Hin & Hbx & Hby).
      destruct Hin as [Hin | Hin]; [discriminate |].
      apply drawBackground_In in Hin.
      destruct Hin as (x & y & _ & _ & E & Hin).
      injection Hin as -> -> -> ->.
      apply quot8_cell in Hbx; [| lia]. apply quot8_cell in Hby; [| lia].
      subst x y. exact E.
  - reflexivity.
  - apply Forall_forall. intros [bx by' w h c] Hin.
    apply drawBackground_In in Hin.
    destruct Hin as (x & y & Hx' & Hy' & _ & Hin).
    injection Hin as -> -> -> -> ->.
    rewrite !Z.mod_mul by lia. repeat split; lia.
Qed.

(** A pixel of the tile in row 2, column 2 of level 2, a wall. *)
Lemma drawBackground_draws_wall_tiles_witness :
  exists bx by' w h,
    In (fillRectangle bx by' w h WALL_COLOR) (drawBackground 2) /\
    bx <= 20 < bx + w /\ by' <= 20 < by' + h.
Proof.
  apply (proj1 (drawBackground_draws_wall_tiles 2 20 20 ltac:(lia) ltac:(lia))).
  reflexivity.
Defined.

(** X12: In level 1 the walls on the screen are where [isWallCollision]
    answers 1.  In level 2 they are not: [isWallCollision] still reads
    the maze of level 1, so the block drawn at (32, 8) is no wall for
    it. *)
Theorem isWallCollision_matches_level1_drawing (px py : Z) :
  0 <= px < 128 -> 0 <= py < 160 ->
  (isWallCollision px py = Some 1 <->
   exists bx by',
     In (fillRectangle bx by' 8 8 WALL_COLOR) (drawBackground 1) /\
     bx <= px < bx + 8 /\ by' <= py < by' + 8)
  /\ (In (fillRectangle 32 8 8 8 WALL_COLOR) (drawBackground 2) /\
      isWallCollision 32 8 = Some 0).
Proof.
  intros Hx Hy.
  assert (Hgx : 0 <= px ÷ 8 < 16).
  { rewrite Z.quot_div_nonneg by lia. split;
      [apply Z.div_pos | apply Z.div_lt_upper_bound]; lia. }
  assert (Hgy : 0 <= py ÷ 8 < 20).
  { rewrite Z.quot_div_nonneg by lia. split;
      [apply Z.div_pos | apply Z.div_lt_upper_bound]; lia. }
  split.
  - destruct (maze_at_in_bounds _ _ Hgy Hgx) as [tile Ht].
    assert (Hres : isWallCollision px py = Some (if tile =? 1 then 1 else 0)).
    { unfold isWallCollision, WALL_SIZE.
      replace ((px ÷ 8 >=? 0) && (px ÷ 8 <? 16) && (py ÷ 8 >=? 0) && (py ÷ 8 <? 20))
        with true.
      - rewrite Ht. reflexivity.
      - symmetry. repeat (apply andb_true_intro; split); lia. }
    assert (Htile : tile_of maze (Z.to_nat (py ÷ 8)) (Z.to_nat (px ÷ 8)) = tile).
    { rewrite tile_of_maze_at, Ht. reflexivity. }
    rewrite Hres. split.
    + intros H. destruct (Z.eqb_spec tile 1) as [E | E]; [| discriminate].
      exists (Z.of_nat (Z.to_nat (Z.quot px 8)) * 8),
             (Z.of_nat (Z.to_nat (Z.quot py 8)) * 8).
      split; [| split; apply quot8_cell; (lia || reflexivity)].
      right. apply drawBackground_In.
      exists (Z.to_nat (Z.quot px 8)), (Z.to_nat (Z.quot py 8)).
      repeat split; [lia | lia |].
      change (1 =? 1) with true. cbv iota. rewrite Htile. exact E.
    + intros (bx & by' & Hin & Hbx & Hby).
      destruct Hin as [Hin | Hin]; [discriminate |].
      apply drawBackground_In in Hin.
      destruct Hin as (x & y & _ & _ & E & Hin).
      injection Hin as -> ->.
      apply quot8_cell in Hbx; [| lia]. apply quot8_cell in Hby; [| lia].
      subst x y. change (1 =? 1) with true in E. cbv iota in E.
      rewrite Htile in E. rewrite E. reflexivity.
  - split; [| reflexivity].
    right. apply drawBackground_In. exists 4%nat, 1%nat.
    repeat split; lia.
Qed.

(** A pixel of the top wall. *)
Lemma isWallCollision_matches_level1_drawing_witness :
  exists bx by',
    In (fillRectangle bx by' 8 8 WALL_COLOR) (drawBackground 1) /\
    bx <= 50 < bx + 8 /\ by' <= 3 < by' + 8.
Proof.
  apply (proj1 (isWallCollision_matches_level1_drawing 50 3
                  ltac:(lia) ltac:(lia))).
  reflexivity.
Defined.

(** ** Heart reset *)




(** ** The shape of every state *)

Lemma game_shape_perform cs g : game_shape g -> game_shape (perform cs g).
Proof. intros H. destruct (perform_frame cs g) as [s ->]. exact H. Qed.

Lemma initEnemies_roster level es :
  roster_ok es -> roster_ok (initEnemies level es).
Proof.
  intros [Hl Hk]. unfold initEnemies.
  destruct (level =? 1); (split; [rewrite ?length_insert; exact Hl |]);
    intros k e Hge; rewrite ?list_lookup_insert_ne by lia; apply Hk; exact Hge.
Qed.

Lemma map_roster (f : Enemy.t -> Enemy.t) es :
  (forall e, Enemy.active e = 0 -> Enemy.active (f e) = 0) ->
  roster_ok es -> roster_ok (map f es).
Proof.
  intros Hf [Hl Hk]. split; [rewrite length_map; exact Hl |].
  intros k e Hge He.
  change (map f es) with (f <$> es) in He.
  rewrite list_lookup_fmap in He.
  destruct (es !! k) as [e0|] eqn:E; [| discriminate].
  injection He as <-. apply Hf. eapply Hk; eassumption.
Qed.

Lemma flag_0 : flag 0.
Proof. left. reflexivity. Qed.

Lemma flag_1 : flag 1.
Proof. right. reflexivity. Qed.

Ltac shape :=
  unfold world_shape, game_shape, player_shape in *; fields;
  repeat match goal with H : _ /\ _ |- _ => destruct H end;
  repeat match goal with |- _ /\ _ => split end;
  first [ assumption | lia | apply flag_0 | apply flag_1
        | left; reflexivity | right; reflexivity
        | apply initEnemies_roster; assumption ].

Lemma checkWinCondition_shape x y g :
  game_shape g -> game_shape (checkWinCondition x y g).
Proof.
  intros H. rewrite checkWinCondition_cases.
  destruct (win_check_fires g); [| exact H].
  destruct (Game.current_level g =? 1).
  - shape.
  - unfold showWinScreen. apply game_shape_perform. shape.
Qed.

Lemma moveEnemies_shape px py g :
  game_shape g -> game_shape (moveEnemies px py g).
Proof.
  intros H. unfold moveEnemies.
  destruct (truthy (Game.game_won g)); [exact H |].
  destruct (_ <? _); [exact H |].
  destruct H as (R & H). split; [| exact H].
  fields. apply map_roster; [| exact R].
  intros e He. rewrite (proj1 (moveEnemy_flags _ _ _ _ e)). exact He.
Qed.

Lemma gameStateUpdates_shape w : world_shape w -> world_shape (gameStateUpdates w).
Proof.
  intros [Hg Hp]. unfold gameStateUpdates. split; [| exact Hp].
  fields.
  pose proof (checkWinCondition_shape (Main.x (World.loc w))
                (Main.y (World.loc w)) (World.glob w) Hg) as Hc.
  destruct (negb _); [| exact Hc].
  apply moveEnemies_shape. exact Hc.
Qed.

Lemma playerMovement_shape i w : world_shape w -> world_shape (playerMovement i w).
Proof.
  intros [Hg [Hx Hy]]. unfold playerMovement.
  destruct (_ && _); [| split; [exact Hg | split; assumption]].
  split; [exact Hg |]. unfold player_shape. fields.
  destruct (Input.right i || (Input.serial_char i =? 114));
    destruct (Input.left i); destruct (Input.down i); destruct (Input.up i);
    repeat (case_test; fields; rewrite ?wrap16_small in * by lia);
    fields; lia.
Qed.

Lemma eaten_shape g :
  game_shape g ->
  game_shape (Game.set_heart1 (Heart.set_eaten 1 (Game.heart1 g)) g) /\
  game_shape (Game.set_heart2 (Heart.set_eaten 1 (Game.heart2 g)) g) /\
  game_shape (Game.set_heart3 (Heart.set_eaten 1 (Game.heart3 g)) g) /\
  game_shape (Game.set_heart4 (Heart.set_eaten 1 (Game.heart4 g)) g).
Proof.
  intros H. shape.
Qed.

Lemma collectHeart_shape get set x y g :
  (forall g0, game_shape g0 -> game_shape (set (Heart.set_eaten 1 (get g0)) g0)) ->
  game_shape g -> game_shape (collectHeart get set x y g).
Proof.
  intros Hset Hg. unfold collectHeart.
  destruct (_ && _); [| exact Hg].
  apply checkWinCondition_shape, game_shape_perform, Hset, Hg.
Qed.

Lemma updatePlayerPosition_shape w :
  world_shape w -> world_shape (updatePlayerPosition w).
Proof.
  intros [Hg Hp]. split.
  - unfold updatePlayerPosition.
    destruct (_ || _); [| exact Hg]. fields.
    apply collectHeart_shape; [intros g0 H0; apply (eaten_shape g0 H0) |].
    apply collectHeart_shape; [intros g0 H0; apply (eaten_shape g0 H0) |].
    exact Hg.
  - destruct (updatePlayerPosition_position w) as [Hx Hy].
    unfold player_shape in *. rewrite Hx, Hy. exact Hp.
Qed.

Lemma heartMovement_shape rs g : game_shape g -> game_shape (heartMovement rs g).
Proof.
  intros (R & L & O & F1 & F2 & F3 & E1 & E2 & E3 & E4 & H5 & H6).
  unfold heartMovement.
  pose proof (driftHeart_eaten rs (Game.heart1 g)) as D1.
  destruct (driftHeart rs (Game.heart1 g)) as [rs1 h1]. fields.
  pose proof (driftHeart_eaten rs1 (Game.heart2 g)) as D2.
  destruct (driftHeart rs1 (Game.heart2 g)) as [rs2 h2]. fields.
  destruct (Game.current_level g =? 2).
  - fields.
    pose proof (driftHeart_eaten rs2 (Game.heart3 g)) as D3.
    destruct (driftHeart rs2 (Game.heart3 g)) as [rs3 h3]. fields.
    pose proof (driftHeart_eaten rs3 (Game.heart4 g)) as D4.
    destruct (driftHeart rs3 (Game.heart4 g)) as [rs4 h4]. fields.
    cbn [snd] in *. unfold game_shape. fields. rewrite D1, D2, D3, D4. shape.
  - cbn [snd] in *. unfold game_shape. fields. rewrite D1, D2. shape.
Qed.

Lemma enemyCollisionCheck_shape x y g :
  game_shape g -> game_shape (enemyCollisionCheck x y g).
Proof.
  intros H. unfold enemyCollisionCheck.
  destruct (_ && _); [| exact H].
  assert (R' : roster_ok (map deactivate (Game.enemies g))).
  { apply map_roster; [| apply H].
    intros e He. unfold deactivate. rewrite truthy_false by exact He. exact He. }
  shape.
Qed.

Lemma heartMovementAndCollision_shape i w :
  world_shape w -> world_shape (heartMovementAndCollision i w).
Proof.
  intros [Hg Hp]. unfold heartMovementAndCollision.
  destruct (heart_timer_due (World.glob w)); [| split; assumption].
  split; [| exact Hp]. rewrite glob_set_glob.
  apply (enemyCollisionCheck_shape (Main.x (World.loc w)) (Main.y (World.loc w))
           (heartMovement (Input.rnd i) (World.glob w))
           (heartMovement_shape (Input.rnd i) (World.glob w) Hg)).
Qed.

Lemma level2HeartCollection_shape w :
  world_shape w -> world_shape (level2HeartCollection w).
Proof.
  intros [Hg Hp]. unfold level2HeartCollection.
  destruct (_ =? 2); [| split; assumption].
  split; [| exact Hp]. rewrite glob_set_glob.
  apply collectHeart_shape; [intros g0 H0; apply (eaten_shape g0 H0) |].
  apply collectHeart_shape; [intros g0 H0; apply (eaten_shape g0 H0) |].
  exact Hg.
Qed.

Lemma flag_lnot z : flag (lnot z).
Proof. unfold flag, lnot. destruct (z =? 0); auto. Qed.

Lemma gameOverMenuNavigation_shape i w :
  world_shape w -> world_shape (gameOverMenuNavigation i w).
Proof.
  intros [Hg Hp]. unfold gameOverMenuNavigation.
  destruct (_ || _); [| split; assumption].
  set (g1 := (if Input.over_down i
              then Game.set_game_over_selection _ _ else World.glob w)).
  assert (H1 : game_shape g1).
  { subst g1. destruct (Input.over_down i); [| exact Hg].
    pose proof (flag_lnot (Game.game_over_selection (fg_delay 200 (World.glob w)))).
    shape. }
  clearbody g1.
  set (g2 := (if Input.over_up i
              then Game.set_game_over_selection _ _ else g1)).
  assert (H2 : game_shape g2).
  { subst g2. destruct (Input.over_up i); [| exact H1].
    pose proof (flag_lnot (Game.game_over_selection (fg_delay 200 g1))).
    shape. }
  clearbody g2.
  destruct (Input.over_select i); [| split; assumption].
  fields. destruct (Game.game_over_selection g2 =? 0).
  - unfold reset_positions. shape.
  - shape.
Qed.

Lemma playStep_shape i w : world_shape w -> world_shape (playStep i w).
Proof.
  intros H. unfold playStep.
  apply gameStateUpdates_shape in H. apply (playerMovement_shape i) in H.
  apply updatePlayerPosition_shape in H.
  apply (heartMovementAndCollision_shape i) in H.
  apply level2HeartCollection_shape in H.
  apply (gameOverMenuNavigation_shape i) in H.
  generalize dependent (gameOverMenuNavigation i
    (level2HeartCollection
       (heartMovementAndCollision i
          (updatePlayerPosition (playerMovement i (gameStateUpdates w)))))).
  intros w6 [Hg Hp]. split; assumption.
Qed.

Lemma rem3_range o f :
  0 <= o <= 2 -> (f = o + 1 \/ f = o - 1 + 3) -> 0 <= Z.rem f 3 <= 2.
Proof.
  intros Ho Hf.
  assert (C : o = 0 \/ o = 1 \/ o = 2) by lia.
  destruct C as [-> | [-> | ->]], Hf as [-> | ->]; vm_compute;
    split; discriminate.
Qed.

Lemma menuStep_shape i w : world_shape w -> world_shape (menuStep i w).
Proof.
  intros [Hg Hp]. unfold menuStep, NUM_MENU_OPTIONS.
  set (w1 := (if negb (truthy (Main.menu_drawn (World.loc w)))
              then World.set_loc _ w else w)).
  assert (H1 : world_shape w1).
  { subst w1. destruct (negb _); split; assumption. }
  clearbody w1.
  set (w2 := (if Input.menu_down i then World.set_glob _ w1 else w1)).
  assert (H2 : world_shape w2).
  { subst w2. destruct H1 as [Hg1 Hp1].
    destruct (Input.menu_down i); [| split; assumption].
    split; [| exact Hp1].
    pose proof (rem3_range (Game.selected_option (World.glob w1))
                  (Game.selected_option (World.glob w1) + 1)) as Hr.
    shape. }
  clearbody w2.
  set (w3 := (if Input.menu_up i then World.set_glob _ w2 else w2)).
  assert (H3 : world_shape w3).
  { subst w3. destruct H2 as [Hg2 Hp2].
    destruct (Input.menu_up i); [| split; assumption].
    split; [| exact Hp2].
    pose proof (rem3_range (Game.selected_option (World.glob w2))
                  (Game.selected_option (World.glob w2) - 1 + 3)) as Hr.
    shape. }
  clearbody w3.
  destruct (Input.menu_select i); [| exact H3].
  fields. destruct (Game.selected_option (World.glob w3) =? 0).
  - unfold reset_positions. shape.
  - destruct (_ || _); [| exact H3]. shape.
Qed.

Lemma loopBody_shape i w : world_shape w -> world_shape (loopBody i w).
Proof.
  intros [Hg Hp]. unfold loopBody.
  set (w1 := World.set_glob _ w).
  assert (H1 : world_shape w1) by (split; assumption).
  clearbody w1.
  destruct (truthy (Game.in_menu (World.glob w1))).
  - apply menuStep_shape. exact H1.
  - apply playStep_shape. exact H1.
Qed.

Lemma playTune_frame notes times len g :
  exists s, playTune notes times len g = Game.set_isr s g.
Proof.
  unfold playTune.
  assert (H : forall l g0, exists s,
             fold_left (fun g i =>
                          fg_delay (default 0 (times !! i))
                            (fg_playNote (default 0 (notes !! i)) g)) l g0
             = Game.set_isr s g0).
  { induction l as [|n l IH]; intros g0.
    - exists (Game.isr g0). destruct g0; reflexivity.
    - cbn [fold_left]. destruct (IH (fg_delay (default 0 (times !! n))
                 (fg_playNote (default 0 (notes !! n)) g0))) as [s Hs].
      exists s. rewrite Hs. reflexivity. }
  destruct (H (seq 0 len) g) as [s Hs].
  eexists. rewrite Hs. reflexivity.
Qed.

Lemma main_setup_shape my_notes : world_shape (main_setup my_notes).
Proof.
  unfold main_setup. cbv zeta.
  destruct (playTune_frame my_notes my_note_times 5
              (Game.set_enemies
                 (initEnemies (Game.current_level Game_init)
                    (Game.enemies Game_init)) Game_init)) as [s ->].
  assert (R : roster_ok (initEnemies (Game.current_level Game_init)
                           (Game.enemies Game_init))).
  { split; [reflexivity |]. intros k e Hk. cbn.
    do 3 (destruct k as [|k]; [lia |]).
    do 3 (destruct k as [|k]; [intros [= <-]; reflexivity |]).
    discriminate. }
  unfold world_shape, game_shape, player_shape. fields.
  cbn [Game_init Main_init Game.current_level Game.selected_option
       Game.game_over_selection Game.game_over Game.game_won Game.heart1
       Game.heart2 Game.heart3 Game.heart4 Game.heart5 Game.heart6
       Heart.eaten Main.x Main.y] in *.
  repeat match goal with |- _ /\ _ => split end;
    first [ assumption | lia | apply flag_0 | apply flag_1
          | left; reflexivity | reflexivity ].
Qed.

Lemma run_shape my_notes inputs : world_shape (run my_notes inputs).
Proof.
  unfold run. generalize (main_setup_shape my_notes).
  generalize (main_setup my_notes). intros w Hw. revert w Hw.
  induction inputs as [|i inputs IH]; intros w Hw; simpl; [exact Hw |].
  apply IH, loopBody_shape, Hw.
Qed.

(** X14: Whatever the buttons, the serial line, the interrupts and [rand()] do,
    in every state the loop reaches: the player is within [2, 115] x
    [1, 144], each of the six hearts is within [0, 115] x [0, 144], and
    every active enemy is within [0, 115] x [0, 144] and has speed 1. *)
Theorem reachable_state_on_playfield (my_notes : list Z) (inputs : list Input.t) :
  let w := run my_notes inputs in
  (2 <= Main.x (World.loc w) <= 115 /\ 1 <= Main.y (World.loc w) <= 144)
  /\ (forall h, In h (hearts (World.glob w)) ->
        0 <= Heart.x h <= 115 /\ 0 <= Heart.y h <= 144)
  /\ (forall e, In e (Game.enemies (World.glob w)) ->
        Enemy.active e <> 0 ->
        Enemy.speed e = 1 /\ 0 <= Enemy.x e <= 115 /\ 0 <= Enemy.y e <= 144).
Proof.
  intros w. subst w.
  destruct (run_ok my_notes inputs) as [(He & Hh & _) _].
  destruct (run_shape my_notes inputs) as [_ Hp].
  split; [exact Hp |]. split.
  - intros h Hin. rewrite Forall_forall in Hh. exact (Hh h Hin).
  - intros e Hin. rewrite Forall_forall in He. exact (He e Hin).
Qed.

(** X15: In every state the loop reaches: the enemy array has its six entries
    and the last three are never switched on; the level is 1 or 2; the
    menu cursor is 0, 1 or 2; the cursor of the result menu, the
    game-over and game-won flags and the eaten flags of hearts 1 to 4 are
    0 or 1; hearts 5 and 6 are as initialised, never moved and never
    eaten. *)
Theorem reachable_state_shape (my_notes : list Z) (inputs : list Input.t) :
  let g := World.glob (run my_notes inputs) in
  length (Game.enemies g) = 6%nat
  /\ (forall k e, (3 <= k)%nat -> Game.enemies g !! k = Some e ->
                  Enemy.active e = 0)
  /\ (Game.current_level g = 1 \/ Game.current_level g = 2)
  /\ 0 <= Game.selected_option g <= 2
  /\ (Game.game_over_selection g = 0 \/ Game.game_over_selection g = 1)
  /\ (Game.game_over g = 0 \/ Game.game_over g = 1)
  /\ (Game.game_won g = 0 \/ Game.game_won g = 1)
  /\ Forall (fun h => Heart.eaten h = 0 \/ Heart.eaten h = 1) (hearts g)
  /\ Game.heart5 g = Heart.mk 90 110 1 1 0
  /\ Game.heart6 g = Heart.mk 20 60 1 1 0.
Proof.
  intros g. subst g.
  destruct (run_shape my_notes inputs)
    as [([Hl Hk] & L & O & F1 & F2 & F3 & E1 & E2 & E3 & E4 & H5 & H6) _].
  split; [exact Hl |]. split; [exact Hk |].
  split; [exact L |]. split; [exact O |]. split; [exact F1 |].
  split; [exact F2 |]. split; [exact F3 |].
  split; [| split; assumption].
  unfold hearts. rewrite H5, H6.
  repeat (apply Forall_cons_2; [first [assumption | left; reflexivity] |]).
  apply Forall_nil_2.
Qed.

(** ** The player *)

Lemma checkWinCondition_flags x y g :
  Game.game_over (checkWinCondition x y g) = Game.game_over g /\
  Game.in_menu (checkWinCondition x y g) = Game.in_menu g /\
  (Game.game_won g <> 0 ->
   checkWinCondition x y g = Game.set_hearts_collected (eaten_count g) g).
Proof.
  rewrite checkWinCondition_cases.
  unfold win_check_fires, showWinScreen.
  destruct (perform_frame showWinScreen_cues
              (Game.set_game_won 1
                 (Game.set_hearts_collected (eaten_count g) g))) as [s ->].
  destruct (eaten_count g =? required_hearts (Game.current_level g));
    cbn [andb].
  - unfold truthy. destruct (Game.game_won g =? 0) eqn:E; zbool; cbn [negb].
    + destruct (Game.current_level g =? 1); fields;
        (split; [reflexivity |]); (split; [reflexivity |]);
        intros H; contradiction.
    + fields. repeat split.
  - fields. repeat split.
Qed.

Lemma moveEnemies_flags px py g :
  Game.game_over (moveEnemies px py g) = Game.game_over g /\
  Game.game_won (moveEnemies px py g) = Game.game_won g /\
  Game.in_menu (moveEnemies px py g) = Game.in_menu g.
Proof.
  unfold moveEnemies.
  destruct (truthy (Game.game_won g)); [repeat split |].
  destruct (_ <? _); repeat split.
Qed.

Lemma gameStateUpdates_flags w :
  Game.game_over (World.glob (gameStateUpdates w))
  = Game.game_over (World.glob w) /\
  (Game.game_won (World.glob w) <> 0 ->
   Game.game_won (World.glob (gameStateUpdates w)) <> 0).
Proof.
  unfold gameStateUpdates. fields.
  set (x := Main.x (World.loc w)). set (y := Main.y (World.loc w)).
  destruct (checkWinCondition_flags x y (World.glob w)) as (Ho & _ & Hw).
  destruct (moveEnemies_flags x y (checkWinCondition x y (World.glob w)))
    as (Mo & Mw & _).
  split.
  - destruct (negb _); [rewrite Mo |]; exact Ho.
  - intros Hwon. rewrite (Hw Hwon).
    fields. rewrite truthy_true by exact Hwon. cbn [negb]. fields. exact Hwon.
Qed.

Lemma playerMovement_frozen i w :
  Game.game_over (World.glob w) <> 0 \/ Game.game_won (World.glob w) <> 0 ->
  playerMovement i w = w.
Proof.
  intros [H | H]; unfold playerMovement; rewrite (truthy_true _ H);
    cbn [negb andb]; rewrite ?andb_false_r; reflexivity.
Qed.

Lemma playerMovement_step i w :
  0 <= Main.x (World.loc w) < 65536 -> 0 <= Main.y (World.loc w) < 65536 ->
  let w' := playerMovement i w in
  Z.abs (Main.x (World.loc w') - Main.x (World.loc w)) <= 1 /\
  Z.abs (Main.y (World.loc w') - Main.y (World.loc w)) <= 1.
Proof.
  intros Hx Hy w'. subst w'.
  destruct (Z.eq_dec (Game.game_over (World.glob w)) 0) as [Eo | Eo];
    [destruct (Z.eq_dec (Game.game_won (World.glob w)) 0) as [Ew | Ew] |].
  - unfold playerMovement.
    rewrite (truthy_false _ Eo), (truthy_false _ Ew). cbn [negb andb]. fields.
    split.
    + destruct (Input.right i || (Input.serial_char i =? 114));
        destruct (Input.left i); destruct (Input.down i); destruct (Input.up i);
        repeat (case_test; fields; rewrite ?wrap16_small in * by lia);
        fields; lia.
    + destruct (Input.right i || (Input.serial_char i =? 114));
        destruct (Input.left i); destruct (Input.down i); destruct (Input.up i);
        repeat (case_test; fields; rewrite ?wrap16_small in * by lia);
        fields; lia.
  - rewrite playerMovement_frozen by (right; exact Ew).
    rewrite !Z.sub_diag. simpl. lia.
  - rewrite playerMovement_frozen by (left; exact Eo).
    rewrite !Z.sub_diag. simpl. lia.
Qed.

Lemma menuStep_loc i w :
  Input.menu_select i = false ->
  Main.x (World.loc (menuStep i w)) = Main.x (World.loc w) /\
  Main.y (World.loc (menuStep i w)) = Main.y (World.loc w).
Proof.
  intros Hs. unfold menuStep. rewrite Hs.
  destruct (negb _), (Input.menu_down i), (Input.menu_up i); split; reflexivity.
Qed.

(** X16: Between two iterations of the loop in which no confirm button is
    read as pressed, the player moves by at most one pixel on each axis;
    and not at all in the menu, after a game over or after a win. *)
Theorem player_moves_at_most_one_pixel (i : Input.t) (w : World.t) :
  0 <= Main.x (World.loc w) < 65536 -> 0 <= Main.y (World.loc w) < 65536 ->
  Input.menu_select i = false -> Input.over_select i = false ->
  let w' := loopBody i w in
  Z.abs (Main.x (World.loc w') - Main.x (World.loc w)) <= 1 /\
  Z.abs (Main.y (World.loc w') - Main.y (World.loc w)) <= 1 /\
  (Game.in_menu (World.glob w) <> 0 \/ Game.game_over (World.glob w) <> 0
   \/ Game.game_won (World.glob w) <> 0 ->
   Main.x (World.loc w') = Main.x (World.loc w) /\
   Main.y (World.loc w') = Main.y (World.loc w)).
Proof.
  intros Hx Hy Hms Hos w'. subst w'. unfold loopBody.
  set (w1 := World.set_glob _ w).
  assert (Hloc : World.loc w1 = World.loc w) by reflexivity.
  assert (Hmenu : Game.in_menu (World.glob w1) = Game.in_menu (World.glob w))
    by reflexivity.
  assert (Hover : Game.game_over (World.glob w1) = Game.game_over (World.glob w))
    by reflexivity.
  assert (Hwon : Game.game_won (World.glob w1) = Game.game_won (World.glob w))
    by reflexivity.
  clearbody w1. rewrite <- Hloc, <- Hmenu, <- Hover, <- Hwon in *.
  clear Hloc Hmenu Hover Hwon w.
  unfold truthy. destruct (Game.in_menu (World.glob w1) =? 0) eqn:Em; zbool;
    cbn [negb].
  - destruct (playStep_position i w1 Hos) as [Px Py]. cbv zeta in Px, Py.
    rewrite Px, Py.
    destruct (gameStateUpdates_position w1) as [Gx Gy].
    destruct (gameStateUpdates_flags w1) as [Go Gw].
    destruct (playerMovement_step i (gameStateUpdates w1)) as (Sx & Sy);
      [rewrite Gx; exact Hx | rewrite Gy; exact Hy |].
    cbv zeta in Sx, Sy. rewrite Gx in Sx. rewrite Gy in Sy.
    split; [exact Sx |]. split; [exact Sy |].
    intros [H | [H | H]]; [contradiction | |].
    + rewrite playerMovement_frozen by (left; rewrite Go; exact H).
      split; assumption.
    + rewrite playerMovement_frozen by (right; apply Gw; exact H).
      split; assumption.
  - destruct (menuStep_loc i w1 Hms) as [Mx My]. rewrite Mx, My.
    rewrite !Z.sub_diag. repeat split; simpl; lia.
Qed.

(** Right and down held in the first iteration of play. *)
Lemma player_moves_at_most_one_pixel_witness :
  let w := World.mk (Game.set_in_menu 0 Game_init) Main_init in
  let w' := loopBody (hold true false true false) w in
  Z.abs (Main.x (World.loc w') - 50) <= 1 /\
  Z.abs (Main.y (World.loc w') - 50) <= 1.
Proof.
  intros w w'.
  pose proof (player_moves_at_most_one_pixel (hold true false true false) w
                ltac:(simpl; lia) ltac:(simpl; lia) eq_refl eq_refl)
    as (Hx & Hy & _).
  split; [exact Hx | exact Hy].
Defined.

(** ** After a game over *)

Lemma heart_positions_perform cs g :
  heart_positions (perform cs g) = heart_positions g.
Proof. destruct (perform_frame cs g) as [s ->]. reflexivity. Qed.

Lemma checkWinCondition_positions x y g :
  heart_positions (checkWinCondition x y g) = heart_positions g.
Proof.
  rewrite checkWinCondition_cases.
  destruct (win_check_fires g); [| reflexivity].
  destruct (Game.current_level g =? 1); [reflexivity |].
  unfold showWinScreen. rewrite heart_positions_perform. reflexivity.
Qed.

Lemma moveEnemies_hearts px py g :
  hearts (moveEnemies px py g) = hearts g.
Proof.
  unfold moveEnemies.
  destruct (truthy (Game.game_won g)); [reflexivity |].
  destruct (_ <? _); reflexivity.
Qed.

Lemma collectHeart_positions get set x y g :
  (forall g0, heart_positions (set (Heart.set_eaten 1 (get g0)) g0)
              = heart_positions g0) ->
  heart_positions (collectHeart get set x y g) = heart_positions g.
Proof.
  intros Hset. unfold collectHeart.
  destruct (_ && _); [| reflexivity].
  rewrite checkWinCondition_positions, heart_positions_perform. apply Hset.
Qed.

Lemma gameStateUpdates_positions w :
  heart_positions (World.glob (gameStateUpdates w))
  = heart_positions (World.glob w).
Proof.
  unfold gameStateUpdates. fields.
  destruct (negb _).
  - unfold heart_positions. rewrite moveEnemies_hearts.
    apply checkWinCondition_positions.
  - apply checkWinCondition_positions.
Qed.

Lemma updatePlayerPosition_positions w :
  heart_positions (World.glob (updatePlayerPosition w))
  = heart_positions (World.glob w).
Proof.
  unfold updatePlayerPosition.
  destruct (_ || _); [| reflexivity]. fields.
  rewrite !collectHeart_positions; reflexivity.
Qed.

Lemma collectHeart_over get set x y g :
  (forall h g0, Game.game_over (set h g0) = Game.game_over g0) ->
  Game.game_over (collectHeart get set x y g) = Game.game_over g.
Proof.
  intros Hset. unfold collectHeart.
  destruct (_ && _); [| reflexivity].
  rewrite (proj1 (checkWinCondition_flags _ _ _)).
  destruct (perform_frame [Note 500; Wait 500; Note 0]
              (set (Heart.set_eaten 1 (get g)) g)) as [s ->].
  change (Game.game_over (Game.set_isr s ?g0)) with (Game.game_over g0).
  apply Hset.
Qed.

Lemma updatePlayerPosition_over w :
  Game.game_over (World.glob (updatePlayerPosition w))
  = Game.game_over (World.glob w).
Proof.
  unfold updatePlayerPosition.
  destruct (_ || _); [| reflexivity]. fields.
  rewrite !collectHeart_over; reflexivity.
Qed.

Lemma level2HeartCollection_positions w :
  heart_positions (World.glob (level2HeartCollection w))
  = heart_positions (World.glob w).
Proof.
  unfold level2HeartCollection.
  destruct (_ =? 2); [| reflexivity]. fields.
  rewrite !collectHeart_positions; reflexivity.
Qed.

Lemma heartMovementAndCollision_over i w :
  Game.game_over (World.glob w) <> 0 -> heartMovementAndCollision i w = w.
Proof.
  intros H. unfold heartMovementAndCollision, heart_timer_due.
  rewrite (truthy_true _ H). cbn [negb]. rewrite andb_false_r. reflexivity.
Qed.

Lemma gameOverMenuNavigation_positions i w :
  Input.over_select i = false ->
  heart_positions (World.glob (gameOverMenuNavigation i w))
  = heart_positions (World.glob w).
Proof.
  intros Hs. unfold gameOverMenuNavigation. rewrite Hs.
  destruct (_ || _); [| reflexivity].
  destruct (Input.over_down i), (Input.over_up i); reflexivity.
Qed.

Lemma fg_delay_positions d g :
  heart_positions (fg_delay d g) = heart_positions g.
Proof. reflexivity. Qed.

Lemma playStep_over_frozen i w :
  Game.game_over (World.glob w) <> 0 ->
  Input.over_select i = false ->
  Game.game_over (World.glob (playStep i w)) = Game.game_over (World.glob w)
  /\ heart_positions (World.glob (playStep i w))
     = heart_positions (World.glob w).
Proof.
  intros Ho Hs.
  destruct (gameStateUpdates_flags w) as [Go _].
  assert (Hfrozen : playerMovement i (gameStateUpdates w) = gameStateUpdates w)
    by (apply playerMovement_frozen; left; rewrite Go; exact Ho).
  unfold playStep. rewrite Hfrozen.
  set (w2 := updatePlayerPosition (gameStateUpdates w)).
  assert (H2 : Game.game_over (World.glob w2) = Game.game_over (World.glob w))
    by (subst w2; rewrite updatePlayerPosition_over; exact Go).
  assert (P2 : heart_positions (World.glob w2) = heart_positions (World.glob w))
    by (subst w2; rewrite updatePlayerPosition_positions;
        apply gameStateUpdates_positions).
  clearbody w2.
  rewrite heartMovementAndCollision_over by (rewrite H2; exact Ho).
  rewrite glob_set_glob, fg_delay_positions,
    (proj1 (fg_delay_frame 20 _)).
  rewrite (proj1 (gameOverMenuNavigation_frame i _ Hs)).
  rewrite (proj1 (level2HeartCollection_frame _)).
  rewrite (gameOverMenuNavigation_positions i _ Hs).
  rewrite level2HeartCollection_positions.
  split; assumption.
Qed.

(** X17: Once the game is over, and until the confirm button is read as
    pressed in the result menu, an iteration of the loop leaves the
    game-over flag set, the player where it is and all six hearts where
    they are, whatever the other inputs and [rand()] do. *)
Theorem game_over_freezes_player_and_hearts (i : Input.t) (w : World.t) :
  Game.in_menu (World.glob w) = 0 ->
  Game.game_over (World.glob w) <> 0 ->
  Input.over_select i = false ->
  let w' := loopBody i w in
  Game.game_over (World.glob w') = Game.game_over (World.glob w)
  /\ Main.x (World.loc w') = Main.x (World.loc w)
  /\ Main.y (World.loc w') = Main.y (World.loc w)
  /\ heart_positions (World.glob w') = heart_positions (World.glob w).
Proof.
  intros Hm Ho Hs w'. subst w'. unfold loopBody.
  set (w1 := World.set_glob _ w).
  assert (Hloc : World.loc w1 = World.loc w) by reflexivity.
  assert (Hmenu : Game.in_menu (World.glob w1) = 0) by exact Hm.
  assert (Hover : Game.game_over (World.glob w1) = Game.game_over (World.glob w))
    by reflexivity.
  assert (Hpos : heart_positions (World.glob w1) = heart_positions (World.glob w))
    by reflexivity.
  clearbody w1.
  rewrite (truthy_false _ Hmenu).
  destruct (playStep_position i w1 Hs) as [Px Py]. cbv zeta in Px, Py.
  destruct (gameStateUpdates_position w1) as [Gx Gy].
  destruct (gameStateUpdates_flags w1) as [Go _].
  rewrite playerMovement_frozen in Px, Py
    by (left; rewrite Go, Hover; exact Ho).
  destruct (playStep_over_frozen i w1) as [Fo Fp];
    [rewrite Hover; exact Ho | exact Hs |].
  rewrite Px, Py, Gx, Gy, Fo, Fp, Hloc, Hover, Hpos.
  repeat split.
Qed.

(** After a game over in level 1, with every direction button held and
    the heart timer long run out. *)
Lemma game_over_freezes_player_and_hearts_witness :
  let g := Game.set_isr (Isr.mk 5000 None None 0 0 0 0 [])
             (Game.set_game_over 1 (Game.set_in_menu 0 Game_init)) in
  let w' := loopBody (hold true true true true) (World.mk g Main_init) in
  Main.x (World.loc w') = 50 /\ Main.y (World.loc w') = 50
  /\ heart_positions (World.glob w')
     = [(40, 80); (60, 90); (80, 70); (30, 100); (90, 110); (20, 60)].
Proof.
  intros g w'.
  pose proof (game_over_freezes_player_and_hearts (hold true true true true)
                (World.mk g Main_init) eq_refl
                ltac:(simpl; discriminate) eq_refl)
    as (_ & Hx & Hy & Hp).
  split; [exact Hx |]. split; [exact Hy | exact Hp].
Defined.

(** ** Picking up hearts 1 and 2 *)

Lemma not_newly_eaten_refl g : not_newly_eaten g g.
Proof. split; left; reflexivity. Qed.

Lemma not_newly_eaten_trans g1 g2 g3 :
  not_newly_eaten g1 g2 -> not_newly_eaten g2 g3 -> not_newly_eaten g1 g3.
Proof.
  intros [A1 A2] [B1 B2]. split.
  - destruct B1 as [B1 | B1]; [rewrite B1; exact A1 | right; exact B1].
  - destruct B2 as [B2 | B2]; [rewrite B2; exact A2 | right; exact B2].
Qed.

Lemma not_newly_eaten_same g g' :
  Game.heart1 g' = Game.heart1 g -> Game.heart2 g' = Game.heart2 g ->
  not_newly_eaten g g'.
Proof. intros H1 H2. split; left; [rewrite H1 | rewrite H2]; reflexivity. Qed.

Lemma checkWinCondition_not_newly_eaten x y g :
  not_newly_eaten g (checkWinCondition x y g).
Proof.
  rewrite checkWinCondition_cases.
  destruct (win_check_fires g); [| apply not_newly_eaten_same; reflexivity].
  destruct (Game.current_level g =? 1).
  - split; right; reflexivity.
  - unfold showWinScreen.
    match goal with
    | |- context [perform ?cs ?g0] => destruct (perform_frame cs g0) as [s ->]
    end.
    apply not_newly_eaten_same; reflexivity.
Qed.

Lemma gameStateUpdates_not_newly_eaten w :
  not_newly_eaten (World.glob w) (World.glob (gameStateUpdates w)).
Proof.
  unfold gameStateUpdates. fields.
  set (x := Main.x (World.loc w)). set (y := Main.y (World.loc w)).
  pose proof (checkWinCondition_not_newly_eaten x y (World.glob w)) as Hc.
  destruct (negb _); [| exact Hc].
  eapply not_newly_eaten_trans; [exact Hc |].
  pose proof (moveEnemies_hearts x y (checkWinCondition x y (World.glob w))) as Hh.
  unfold hearts in Hh. injection Hh as H1 H2 _ _ _ _.
  apply not_newly_eaten_same; assumption.
Qed.

Lemma gameStateUpdates_moved w :
  Main.hmoved (World.loc (gameStateUpdates w)) = 0 /\
  Main.vmoved (World.loc (gameStateUpdates w)) = 0.
Proof. split; reflexivity. Qed.

Lemma playerMovement_idle i w :
  Input.right i = false -> Input.serial_char i <> 114 ->
  Input.left i = false -> Input.down i = false -> Input.up i = false ->
  playerMovement i w = w.
Proof.
  intros Hr Hc Hl Hd Hu. unfold playerMovement.
  rewrite Hr, Hl, Hd, Hu.
  replace (Input.serial_char i =? 114) with false
    by (symmetry; apply Z.eqb_neq; exact Hc).
  cbn [orb]. destruct (_ && _); [| reflexivity].
  destruct w; reflexivity.
Qed.

Lemma updatePlayerPosition_idle w :
  Main.hmoved (World.loc w) = 0 -> Main.vmoved (World.loc w) = 0 ->
  updatePlayerPosition w = w.
Proof.
  intros Hh Hv. unfold updatePlayerPosition.
  rewrite (truthy_false _ Hh), (truthy_false _ Hv). reflexivity.
Qed.

Lemma heartMovement_not_newly_eaten rs g :
  not_newly_eaten g (heartMovement rs g).
Proof.
  unfold heartMovement.
  pose proof (driftHeart_eaten rs (Game.heart1 g)) as D1.
  destruct (driftHeart rs (Game.heart1 g)) as [rs1 h1]. fields.
  pose proof (driftHeart_eaten rs1 (Game.heart2 g)) as D2.
  destruct (driftHeart rs1 (Game.heart2 g)) as [rs2 h2]. fields.
  cbn [snd] in D1, D2.
  destruct (Game.current_level g =? 2).
  - fields.
    destruct (driftHeart rs2 (Game.heart3 g)) as [rs3 h3]. fields.
    destruct (driftHeart rs3 (Game.heart4 g)) as [rs4 h4].
    split; left; fields; assumption.
  - split; left; fields; assumption.
Qed.

Lemma heartMovementAndCollision_not_newly_eaten i w :
  not_newly_eaten (World.glob w) (World.glob (heartMovementAndCollision i w)).
Proof.
  unfold heartMovementAndCollision.
  destruct (heart_timer_due (World.glob w)); [| apply not_newly_eaten_refl].
  rewrite glob_set_glob.
  eapply not_newly_eaten_trans; [apply (heartMovement_not_newly_eaten (Input.rnd i)) |].
  apply not_newly_eaten_same; fields; unfold enemyCollisionCheck;
    destruct (_ && _); reflexivity.
Qed.

Lemma collectHeart_not_newly_eaten get set x y g :
  (forall h g0, Game.heart1 (set h g0) = Game.heart1 g0) ->
  (forall h g0, Game.heart2 (set h g0) = Game.heart2 g0) ->
  not_newly_eaten g (collectHeart get set x y g).
Proof.
  intros H1 H2. unfold collectHeart.
  destruct (_ && _); [| apply not_newly_eaten_refl].
  eapply not_newly_eaten_trans; [| apply checkWinCondition_not_newly_eaten].
  destruct (perform_frame [Note 500; Wait 500; Note 0]
              (set (Heart.set_eaten 1 (get g)) g)) as [s ->].
  apply not_newly_eaten_same; fields; [apply H1 | apply H2].
Qed.

Lemma level2HeartCollection_not_newly_eaten w :
  not_newly_eaten (World.glob w) (World.glob (level2HeartCollection w)).
Proof.
  unfold level2HeartCollection.
  destruct (_ =? 2); [| apply not_newly_eaten_refl].
  rewrite glob_set_glob.
  eapply not_newly_eaten_trans;
    apply collectHeart_not_newly_eaten; reflexivity.
Qed.

Lemma gameOverMenuNavigation_not_newly_eaten i w :
  not_newly_eaten (World.glob w) (World.glob (gameOverMenuNavigation i w)).
Proof.
  unfold gameOverMenuNavigation.
  destruct (_ || _); [| apply not_newly_eaten_refl].
  set (g1 := (if Input.over_down i
              then Game.set_game_over_selection _ _ else World.glob w)).
  assert (H1 : not_newly_eaten (World.glob w) g1).
  { subst g1. destruct (Input.over_down i);
      [apply not_newly_eaten_same; reflexivity | apply not_newly_eaten_refl]. }
  clearbody g1.
  set (g2 := (if Input.over_up i
              then Game.set_game_over_selection _ _ else g1)).
  assert (H2 : not_newly_eaten (World.glob w) g2).
  { subst g2. destruct (Input.over_up i); [| exact H1].
    eapply not_newly_eaten_trans; [exact H1 |].
    apply not_newly_eaten_same; reflexivity. }
  clearbody g2.
  destruct (Input.over_select i); [| rewrite glob_set_glob; exact H2].
  fields. destruct (Game.game_over_selection g2 =? 0).
  - split; right; reflexivity.
  - rewrite glob_set_glob.
    eapply not_newly_eaten_trans; [exact H2 |].
    apply not_newly_eaten_same; reflexivity.
Qed.

Lemma fg_delay_not_newly_eaten d g : not_newly_eaten g (fg_delay d g).
Proof. apply not_newly_eaten_same; reflexivity. Qed.

Lemma after_ticks_not_newly_eaten n g : not_newly_eaten g (after_ticks n g).
Proof. apply not_newly_eaten_same; reflexivity. Qed.

Lemma playStep_idle_not_newly_eaten i w :
  Input.right i = false -> Input.serial_char i <> 114 ->
  Input.left i = false -> Input.down i = false -> Input.up i = false ->
  not_newly_eaten (World.glob w) (World.glob (playStep i w)).
Proof.
  intros Hr Hc Hl Hd Hu. unfold playStep.
  rewrite (playerMovement_idle i _ Hr Hc Hl Hd Hu).
  rewrite (updatePlayerPosition_idle (gameStateUpdates w))
    by apply gameStateUpdates_moved.
  rewrite glob_set_glob.
  pose proof (gameStateUpdates_not_newly_eaten w) as H1.
  set (w1 := gameStateUpdates w) in *. clearbody w1.
  pose proof (heartMovementAndCollision_not_newly_eaten i w1) as H2.
  set (w2 := heartMovementAndCollision i w1) in *. clearbody w2.
  pose proof (level2HeartCollection_not_newly_eaten w2) as H3.
  set (w3 := level2HeartCollection w2) in *. clearbody w3.
  pose proof (gameOverMenuNavigation_not_newly_eaten i w3) as H4.
  set (w4 := gameOverMenuNavigation i w3) in *. clearbody w4.
  pose proof (fg_delay_not_newly_eaten 20 (World.glob w4)) as H5.
  set (g5 := fg_delay 20 (World.glob w4)) in *. clearbody g5.
  exact (not_newly_eaten_trans _ _ _
           (not_newly_eaten_trans _ _ _
              (not_newly_eaten_trans _ _ _
                 (not_newly_eaten_trans _ _ _ H1 H2) H3) H4) H5).
Qed.

(** X18: Hearts 1 and 2 are tested for a pickup only in an iteration in which
    the player has moved: when no direction button is read as pressed
    and the serial character is not 'r', an iteration of play marks
    neither of them eaten, even if a heart has drifted onto the player. *)
Theorem hearts_1_2_need_player_movement (i : Input.t) (w : World.t) :
  Game.in_menu (World.glob w) = 0 ->
  Input.right i = false -> Input.serial_char i <> 114 ->
  Input.left i = false -> Input.down i = false -> Input.up i = false ->
  let g := World.glob w in
  let g' := World.glob (loopBody i w) in
  (Heart.eaten (Game.heart1 g') = Heart.eaten (Game.heart1 g)
   \/ Heart.eaten (Game.heart1 g') = 0) /\
  (Heart.eaten (Game.heart2 g') = Heart.eaten (Game.heart2 g)
   \/ Heart.eaten (Game.heart2 g') = 0).
Proof.
  intros Hm Hr Hc Hl Hd Hu g g'. subst g g'.
  pose proof (after_ticks_not_newly_eaten (Input.irq i) (World.glob w)) as H1.
  pose proof (playStep_idle_not_newly_eaten i
                (World.set_glob (after_ticks (Input.irq i) (World.glob w)) w)
                Hr Hc Hl Hd Hu) as H2.
  rewrite glob_set_glob in H2.
  pose proof (not_newly_eaten_trans _ _ _ H1 H2) as H.
  assert (E : loopBody i w
              = playStep i (World.set_glob
                              (after_ticks (Input.irq i) (World.glob w)) w)).
  { unfold loopBody, after_ticks. rewrite glob_set_glob.
    change (Game.in_menu (Game.set_isr ?s ?g0)) with (Game.in_menu g0).
    rewrite (truthy_false _ Hm). reflexivity. }
  rewrite E. exact H.
Qed.

(** The player stands on heart 1 at the start of play, which a moving
    player would have picked up. *)
Lemma hearts_1_2_need_player_movement_witness :
  let g := Game.set_heart1 (Heart.mk 50 50 1 1 0) (Game.set_in_menu 0 Game_init) in
  let g' := World.glob (loopBody no_input (World.mk g Main_init)) in
  isInside 50 50 12 16 50 50 = 1 /\ Heart.eaten (Game.heart1 g') = 0.
Proof.
  intros g g'. split; [reflexivity |].
  pose proof (hearts_1_2_need_player_movement no_input (World.mk g Main_init)
                eq_refl eq_refl ltac:(simpl; discriminate) eq_refl eq_refl eq_refl)
    as [H _].
  cbv zeta in H. destruct H as [H | H]; exact H.
Defined.

(** ** The menus *)

Lemma rem3_cases o :
  0 <= o <= 2 ->
  Z.rem (o + 1) 3 = (o + 1) mod 3 /\ Z.rem (o - 1 + 3) 3 = (o + 2) mod 3 /\
  0 <= (o + 1) mod 3 <= 2 /\ 0 <= (o + 2) mod 3 <= 2 /\
  ((o + 1) mod 3 + 2) mod 3 = o /\ ((o + 2) mod 3 + 1) mod 3 = o /\
  (((o + 1) mod 3 + 1) mod 3 + 1) mod 3 = o.
Proof.
  intros Ho.
  assert (C : o = 0 \/ o = 1 \/ o = 2) by lia.
  destruct C as [-> | [-> | ->]]; vm_compute; repeat split; discriminate.
Qed.

Lemma menuStep_cursor i w :
  Input.menu_select i = false ->
  0 <= Game.selected_option (World.glob w) <= 2 ->
  Game.selected_option (World.glob (menuStep i w))
  = (Game.selected_option (World.glob w)
     + (if Input.menu_down i then 1 else 0)
     + (if Input.menu_up i then 2 else 0)) mod 3.
Proof.
  intros Hs Ho. unfold menuStep, NUM_MENU_OPTIONS. rewrite Hs.
  set (o := Game.selected_option (World.glob w)) in *.
  destruct (rem3_cases o Ho) as (R1 & R2 & B1 & B2 & _).
  destruct (rem3_cases ((o + 1) mod 3) B1) as (_ & R3 & _).
  destruct (negb _), (Input.menu_down i), (Input.menu_up i); fields; fold o;
    rewrite ?R1, ?R2, ?R3, ?Z.add_0_r; try reflexivity;
    try (symmetry; apply Z.mod_small; lia).
  - rewrite Zplus_mod_idemp_l. reflexivity.
  - rewrite Zplus_mod_idemp_l. reflexivity.
Qed.

(** X19: In the main menu, without the confirm button, the cursor moves one
    entry down (0, 1, 2, 0, ...) on the down button and one up on the up
    button: it stays one of the three entries, up undoes down and down
    undoes up, three steps down come back to the start, and both buttons
    in one iteration leave it where it is. *)
Theorem menu_cursor_cycles (down up both : Input.t) (w : World.t) :
  0 <= Game.selected_option (World.glob w) <= 2 ->
  Input.menu_down down = true -> Input.menu_up down = false ->
  Input.menu_select down = false ->
  Input.menu_down up = false -> Input.menu_up up = true ->
  Input.menu_select up = false ->
  Input.menu_down both = true -> Input.menu_up both = true ->
  Input.menu_select both = false ->
  let o := Game.selected_option (World.glob w) in
  let cursor w := Game.selected_option (World.glob w) in
  cursor (menuStep down w) = (o + 1) mod 3
  /\ cursor (menuStep up w) = (o + 2) mod 3
  /\ 0 <= cursor (menuStep down w) <= 2
  /\ 0 <= cursor (menuStep up w) <= 2
  /\ cursor (menuStep up (menuStep down w)) = o
  /\ cursor (menuStep down (menuStep up w)) = o
  /\ cursor (menuStep down (menuStep down (menuStep down w))) = o
  /\ cursor (menuStep both w) = o.
Proof.
  intros Ho Dd Du Ds Ud Uu Us Bd Bu Bs o cursor. subst cursor. cbv beta.
  destruct (rem3_cases o Ho) as (_ & _ & B1 & B2 & R1 & R2 & R3).
  destruct (rem3_cases ((o + 1) mod 3) B1) as (_ & _ & B3 & _).
  assert (Hd : forall w0, 0 <= Game.selected_option (World.glob w0) <= 2 ->
             Game.selected_option (World.glob (menuStep down w0))
             = (Game.selected_option (World.glob w0) + 1) mod 3).
  { intros w0 H0. rewrite menuStep_cursor, Dd, Du by assumption.
    rewrite Z.add_0_r. reflexivity. }
  assert (Hu : forall w0, 0 <= Game.selected_option (World.glob w0) <= 2 ->
             Game.selected_option (World.glob (menuStep up w0))
             = (Game.selected_option (World.glob w0) + 2) mod 3).
  { intros w0 H0. rewrite menuStep_cursor, Ud, Uu by assumption.
    rewrite Z.add_0_r. reflexivity. }
  assert (E1 : Game.selected_option (World.glob (menuStep down w)) = (o + 1) mod 3)
    by (apply Hd; exact Ho).
  assert (E2 : Game.selected_option (World.glob (menuStep up w)) = (o + 2) mod 3)
    by (apply Hu; exact Ho).
  assert (E3 : Game.selected_option
                 (World.glob (menuStep down (menuStep down w)))
               = ((o + 1) mod 3 + 1) mod 3).
  { rewrite Hd by (rewrite E1; exact B1). rewrite E1. reflexivity. }
  split; [exact E1 |]. split; [exact E2 |].
  split; [rewrite E1; exact B1 |]. split; [rewrite E2; exact B2 |].
  split; [rewrite Hu by (rewrite E1; exact B1); rewrite E1; exact R1 |].
  split; [rewrite Hd by (rewrite E2; exact B2); rewrite E2; exact R2 |].
  split; [rewrite Hd by (rewrite E3; exact B3); rewrite E3; exact R3 |].
  rewrite menuStep_cursor, Bd, Bu by assumption. fold o.
  replace (o + 1 + 2) with (o + 1 * 3) by lia.
  rewrite Z.mod_add by lia. apply Z.mod_small. lia.
Qed.

(** From "Credits" (2) one step down wraps to "Start Game" (0), and up
    comes back. *)
Lemma menu_cursor_cycles_witness :
  let down := Input.mk 0 0 true false false 0 false false false false []
                       false false false in
  let up := Input.mk 0 0 false true false 0 false false false false []
                     false false false in
  let w := World.mk (Game.set_selected_option 2 Game_init) Main_init in
  Game.selected_option (World.glob (menuStep down w)) = 0
  /\ Game.selected_option (World.glob (menuStep up (menuStep down w))) = 2.
Proof.
  intros down up w.
  pose proof (menu_cursor_cycles down up
                (Input.mk 0 0 true true false 0 false false false false []
                          false false false) w
                ltac:(simpl; lia) eq_refl eq_refl eq_refl eq_refl eq_refl
                eq_refl eq_refl eq_refl eq_refl)
    as (H1 & _ & _ & _ & H2 & _).
  split; [exact H1 | exact H2].
Defined.

(** ** Starting and restarting a game *)

(** X20: "Start Game": with the cursor on entry 0 and only the confirm button
    read as pressed, the menu branch waits its 200 ms and leaves the
    menu with both result flags clear, the player at (50, 50), hearts 1
    and 2 at their start and not eaten, and the enemies of the current
    level switched on.  The level itself and hearts 3 and 4, eaten flags
    included, are as the previous game left them. *)
Theorem start_game_resets (i : Input.t) (w : World.t) :
  Input.menu_down i = false -> Input.menu_up i = false ->
  Input.menu_select i = true ->
  Game.selected_option (World.glob w) = 0 ->
  0 <= now (World.glob w) < 4294967296 ->
  let g := World.glob w in
  let w' := menuStep i w in
  let g' := World.glob w' in
  now g' = wrap32 (now g + 200)
  /\ Game.in_menu g' = 0 /\ Game.game_over g' = 0 /\ Game.game_won g' = 0
  /\ Main.x (World.loc w') = 50 /\ Main.y (World.loc w') = 50
  /\ Main.oldx (World.loc w') = 50 /\ Main.oldy (World.loc w') = 50
  /\ Game.heart1 g' = Heart.set_eaten 0
                        (Heart.set_y 80 (Heart.set_x 40 (Game.heart1 g)))
  /\ Game.heart2 g' = Heart.set_eaten 0
                        (Heart.set_y 90 (Heart.set_x 60 (Game.heart2 g)))
  /\ Game.heart3 g' = Game.heart3 g /\ Game.heart4 g' = Game.heart4 g
  /\ Game.current_level g' = Game.current_level g
  /\ Game.enemies g' = initEnemies (Game.current_level g) (Game.enemies g).
Proof.
  intros Hd Hu Hs Ho Hn g w' g'. subst g w' g'.
  unfold menuStep. rewrite Hd, Hu, Hs.
  assert (E : Game.selected_option
                (World.glob
                   (World.set_glob
                      (fg_delay 200
                         (World.glob
                            (if negb (truthy (Main.menu_drawn (World.loc w)))
                             then World.set_loc
                                    (Main.set_menu_drawn 1 (World.loc w)) w
                             else w)))
                      (if negb (truthy (Main.menu_drawn (World.loc w)))
                       then World.set_loc
                              (Main.set_menu_drawn 1 (World.loc w)) w
                       else w))) = 0).
  { destruct (negb _); exact Ho. }
  cbv zeta. rewrite E. cbn [Z.eqb]. clear E.
  destruct (now_fg_delay 200 (World.glob w) Hn) as [Hnow _].
  rewrite (wrap32_small 200) in Hnow by lia.
  destruct (negb (truthy (Main.menu_drawn (World.loc w))));
    unfold reset_positions; fields; (split; [exact Hnow |]);
    repeat split.
Qed.

(** A second game started from the menu after a game left in level 2. *)
Lemma start_game_resets_witness :
  let g := Game.set_heart3 (Heart.mk 77 70 0 1 1)
             (Game.set_heart1 (Heart.mk 43 83 1 0 1)
                (Game.set_isr (Isr.mk 4294967200 None None 0 0 0 0 [])
                   Game_init)) in
  let w' := menuStep press_start (World.mk g Main_init) in
  now (World.glob w') = 104
  /\ Game.heart1 (World.glob w') = Heart.mk 40 80 1 0 0
  /\ Game.heart3 (World.glob w') = Heart.mk 77 70 0 1 1.
Proof.
  intros g w'.
  pose proof (start_game_resets press_start (World.mk g Main_init)
                eq_refl eq_refl eq_refl eq_refl
                ltac:(change (0 <= 4294967200 < 4294967296); lia))
    as (Hn & _ & _ & _ & _ & _ & _ & _ & H1 & _ & H3 & _).
  split; [exact Hn |]. split; [exact H1 | exact H3].
Defined.

(** X21: "Play Again": after a game over or a win, with the cursor of the
    result menu on entry 0 and only the confirm button read as pressed,
    the game is back in level 1 with both result flags clear, hearts 1
    to 4 not eaten, the player at (50, 50) and hearts 1 and 2 at their
    start.  Of the enemies only entry 0 is set up again: every other
    entry, its active flag included, stays as the last game left it, and
    hearts 3 and 4 stay where they drifted. *)
Theorem play_again_resets (i : Input.t) (w : World.t) :
  Game.game_over (World.glob w) <> 0 \/ Game.game_won (World.glob w) <> 0 ->
  Input.over_down i = false -> Input.over_up i = false ->
  Input.over_select i = true ->
  Game.game_over_selection (World.glob w) = 0 ->
  let g := World.glob w in
  let w' := gameOverMenuNavigation i w in
  let g' := World.glob w' in
  Game.current_level g' = 1 /\ Game.in_menu g' = Game.in_menu g
  /\ Game.game_over g' = 0 /\ Game.game_won g' = 0
  /\ Main.x (World.loc w') = 50 /\ Main.y (World.loc w') = 50
  /\ Game.heart1 g' = Heart.set_eaten 0
                        (Heart.set_y 80 (Heart.set_x 40 (Game.heart1 g)))
  /\ Game.heart2 g' = Heart.set_eaten 0
                        (Heart.set_y 90 (Heart.set_x 60 (Game.heart2 g)))
  /\ Game.heart3 g' = Heart.set_eaten 0 (Game.heart3 g)
  /\ Game.heart4 g' = Heart.set_eaten 0 (Game.heart4 g)
  /\ Game.enemies g' = <[0%nat := Enemy.mk 10 10 1 1]> (Game.enemies g)
  /\ (forall k : nat, (1 <= k)%nat ->
        Game.enemies g' !! k = Game.enemies g !! k).
Proof.
  intros Hend Hd Hu Hs Hsel g w' g'. subst g w' g'.
  assert (Henemies :
            Game.enemies (World.glob (gameOverMenuNavigation i w))
            = <[0%nat := Enemy.mk 10 10 1 1]> (Game.enemies (World.glob w))
            -> forall k : nat, (1 <= k)%nat ->
               Game.enemies (World.glob (gameOverMenuNavigation i w)) !! k
               = Game.enemies (World.glob w) !! k).
  { intros E k Hk. rewrite E. apply list_lookup_insert_ne. lia. }
  revert Henemies.
  unfold gameOverMenuNavigation. rewrite Hd, Hu, Hs.
  replace (truthy (Game.game_over (World.glob w))
           || truthy (Game.game_won (World.glob w))) with true.
  2:{ symmetry. destruct Hend as [H | H]; rewrite (truthy_true _ H);
        [reflexivity | apply orb_true_r]. }
  cbv zeta.
  change (Game.game_over_selection (fg_delay 200 (World.glob w)))
    with (Game.game_over_selection (World.glob w)).
  rewrite Hsel. cbn [Z.eqb].
  unfold reset_positions. fields. unfold initEnemies. cbn [Z.eqb].
  intros Henemies. repeat split. apply Henemies. reflexivity.
Qed.

(** After a win in level 2, where all three enemies are still on. *)
Lemma play_again_resets_witness :
  let g := Game.set_enemies
             (initEnemies 2 (replicate 6 (Enemy.mk 0 0 0 0)))
             (Game.set_game_won 1
                (Game.set_current_level 2 (Game.set_in_menu 0 Game_init))) in
  let i := Input.mk 0 0 false false false 0 false false false false []
                    false false true in
  let g' := World.glob (gameOverMenuNavigation i (World.mk g Main_init)) in
  Game.current_level g' = 1
  /\ Game.enemies g' !! 1%nat = Some (Enemy.mk 100 10 1 1)
  /\ Game.enemies g' !! 2%nat = Some (Enemy.mk 60 140 1 1).
Proof.
  intros g i g'.
  pose proof (play_again_resets i (World.mk g Main_init)
                ltac:(right; simpl; discriminate)
                eq_refl eq_refl eq_refl eq_refl)
    as (Hl & _ & _ & _ & _ & _ & _ & _ & _ & _ & _ & Hk).
  split; [exact Hl |].
  split; [exact (Hk 1%nat ltac:(lia)) | exact (Hk 2%nat ltac:(lia))].
Defined.

(** ** The two timers of the loop *)

Lemma wrap32_elapsed a n :
  0 <= n < 4294967296 -> wrap32 (wrap32 (a + n) - a) = n.
Proof.
  intros Hn. unfold wrap32. rewrite Zminus_mod_idemp_l.
  replace (a + n - a) with n by lia. apply Z.mod_small. exact Hn.
Qed.

Lemma now_after_ticks n g :
  0 <= now g < 4294967296 ->
  now (after_ticks n g) = wrap32 (now g + Z.of_nat n).
Proof.
  intros Hn. unfold now, after_ticks. cbn [Game.isr Game.set_isr].
  apply ticks_milliseconds. exact Hn.
Qed.

(** X22: After a pass of [moveEnemies] that moved the enemies, no call within
    the next 29 ticks (level 1) or 64 ticks (level 2) moves them again:
    such a call changes nothing at all. *)
Theorem moveEnemies_waits_between_passes
  (px py px' py' : Z) (g : Game.t) (n : nat) :
  0 <= now g < 4294967296 ->
  Game.game_won g = 0 ->
  (if Game.current_level g =? 1 then 30 else 65)
  <= wrap32 (now g - Game.pumpkin_move_delay g) ->
  Z.of_nat n < (if Game.current_level g =? 1 then 30 else 65) ->
  let g1 := moveEnemies px py g in
  Game.pumpkin_move_delay g1 = now g
  /\ moveEnemies px' py' (after_ticks n g1) = after_ticks n g1.
Proof.
  intros Hnow Hw Hdue Hn g1.
  assert (E1 : g1 = Game.set_enemies
                      (map (moveEnemy (Game.current_level g) (now g) px py)
                           (Game.enemies g))
                      (Game.set_pumpkin_move_delay (now g) g)).
  { subst g1. unfold moveEnemies. rewrite (truthy_false _ Hw).
    replace (wrap32 (now g - Game.pumpkin_move_delay g)
             <? (if Game.current_level g =? 1 then 30 else 65)) with false
      by (symmetry; apply Z.ltb_ge; exact Hdue).
    reflexivity. }
  clearbody g1. subst g1. split; [reflexivity |].
  set (g1 := Game.set_enemies _ _).
  assert (Hw1 : Game.game_won (after_ticks n g1) = 0) by exact Hw.
  assert (Hl1 : Game.current_level (after_ticks n g1) = Game.current_level g)
    by reflexivity.
  assert (Hp1 : Game.pumpkin_move_delay (after_ticks n g1) = now g)
    by reflexivity.
  assert (Hn1 : now (after_ticks n g1) = wrap32 (now g + Z.of_nat n))
    by (apply (now_after_ticks n g1); exact Hnow).
  generalize dependent (after_ticks n g1). intros g2 Hw1 Hl1 Hp1 Hn1.
  unfold moveEnemies. rewrite (truthy_false _ Hw1), Hl1, Hp1, Hn1.
  rewrite wrap32_elapsed by (destruct (Game.current_level g =? 1); lia).
  replace (Z.of_nat n <? (if Game.current_level g =? 1 then 30 else 65))
    with true by (symmetry; apply Z.ltb_lt; exact Hn).
  reflexivity.
Qed.

(** The first pass of level 1 at tick 30, and a call 29 ticks later. *)
Lemma moveEnemies_waits_between_passes_witness :
  let g := Game.set_isr (Isr.mk 30 None None 0 0 0 0 [])
             (Game.set_enemies (initEnemies 1 (Game.enemies Game_init))
                Game_init) in
  moveEnemies 50 50 (after_ticks 29 (moveEnemies 50 50 g))
  = after_ticks 29 (moveEnemies 50 50 g).
Proof.
  intros g.
  apply (proj2 (moveEnemies_waits_between_passes 50 50 50 50 g 29
                  ltac:(change (0 <= 30 < 4294967296); lia) eq_refl
                  ltac:(apply Z.leb_le; reflexivity)
                  ltac:(apply Z.ltb_lt; reflexivity))).
Defined.

(** X23: After the 400 ms block has run, it does not run again in an
    iteration that starts fewer than 400 ticks later: hearts 1 to 4 drift
    at most once in 400 ticks, and the enemy collision test, which sits
    in the same block, is made no more often. *)
Theorem heart_block_waits_400_ticks (i i' : Input.t) (w : World.t) (n : nat) :
  0 <= now (World.glob w) < 4294967296 ->
  heart_timer_due (World.glob w) = true ->
  (n < 400)%nat ->
  let w1 := heartMovementAndCollision i w in
  let w2 := World.set_glob (after_ticks n (World.glob w1)) w1 in
  Game.heart_move_delay (World.glob w1) = now (World.glob w)
  /\ heart_timer_due (World.glob w2) = false
  /\ heartMovementAndCollision i' w2 = w2.
Proof.
  intros Hnow Hdue Hn w1 w2.
  set (g1 := enemyCollisionCheck (Main.x (World.loc w)) (Main.y (World.loc w))
               (heartMovement (Input.rnd i) (World.glob w))).
  assert (Hisr : Game.isr g1 = Game.isr (World.glob w)).
  { subst g1. unfold enemyCollisionCheck.
    destruct (_ && _); fields;
      apply (proj1 (heartMovement_frame (Input.rnd i) (World.glob w))). }
  assert (E1 : World.glob w1 = Game.set_heart_move_delay (now g1) g1).
  { subst w1. unfold heartMovementAndCollision. rewrite Hdue. reflexivity. }
  assert (Hn1 : now g1 = now (World.glob w)) by (unfold now; rewrite Hisr; reflexivity).
  assert (Hd1 : Game.heart_move_delay (World.glob w1) = now (World.glob w))
    by (rewrite E1; exact Hn1).
  assert (Hnow1 : now (World.glob w1) = now (World.glob w))
    by (rewrite E1; exact Hn1).
  clearbody w1 g1.
  assert (Hd2 : Game.heart_move_delay (World.glob w2) = now (World.glob w))
    by exact Hd1.
  assert (Hn2 : now (World.glob w2)
                = wrap32 (now (World.glob w) + Z.of_nat n)).
  { subst w2. rewrite glob_set_glob, now_after_ticks by (rewrite Hnow1; exact Hnow).
    rewrite Hnow1. reflexivity. }
  clearbody w2.
  assert (Hnot : heart_timer_due (World.glob w2) = false).
  { unfold heart_timer_due. rewrite Hd2, Hn2, wrap32_elapsed by lia.
    replace (Z.of_nat n >=? 400) with false; [reflexivity |].
    symmetry. rewrite Z.geb_leb. apply Z.leb_gt. lia. }
  split; [exact Hd1 |]. split; [exact Hnot |].
  unfold heartMovementAndCollision. rewrite Hnot. reflexivity.
Qed.

(** The block runs at tick 400; an iteration 399 ticks later skips it. *)
Lemma heart_block_waits_400_ticks_witness :
  let g := Game.set_isr (Isr.mk 400 None None 0 0 0 0 [])
             (Game.set_in_menu 0 Game_init) in
  let w1 := heartMovementAndCollision no_input (World.mk g Main_init) in
  heart_timer_due (after_ticks 399 (World.glob w1)) = false.
Proof.
  intros g w1.
  exact (proj1 (proj2 (heart_block_waits_400_ticks no_input no_input
                         (World.mk g Main_init) 399
                         ltac:(change (0 <= 400 < 4294967296); lia)
                         eq_refl
                         ltac:(apply Nat.ltb_lt; reflexivity)))).
Defined.

(** ** The collision test *)

(** X24: With no enemy so far right or down that the far corner of its box
    leaves the 16-bit range, [checkEnemyCollision] answers 1 exactly when
    the player's position lies in the closed box [x, x + 12] x [y, y + 16]
    of an active enemy, edges included, and 0 otherwise. *)
Theorem checkEnemyCollision_geometric (pacman_x pacman_y : Z)
  (enemies : list Enemy.t) :
  (forall e, In e enemies -> Enemy.active e <> 0 ->
             0 <= Enemy.x e <= 65523 /\ 0 <= Enemy.y e <= 65519) ->
  (checkEnemyCollision pacman_x pacman_y enemies = 1 <->
   exists e, In e enemies /\ Enemy.active e <> 0 /\
             Enemy.x e <= pacman_x <= Enemy.x e + 12 /\
             Enemy.y e <= pacman_y <= Enemy.y e + 16)
  /\ (checkEnemyCollision pacman_x pacman_y enemies <> 1 ->
      checkEnemyCollision pacman_x pacman_y enemies = 0).
Proof.
  intros Hrange. split.
  - rewrite checkEnemyCollision_spec, Exists_exists. split.
    + intros (e & Hin & Ha & Hi). exists e. split; [exact Hin |].
      split; [exact Ha |].
      destruct (Hrange e Hin Ha) as [Hx Hy].
      apply isInside_closed_interval in Hi; [exact Hi | lia | lia].
    + intros (e & Hin & Ha & Hx' & Hy'). exists e. split; [exact Hin |].
      split; [exact Ha |].
      destruct (Hrange e Hin Ha) as [Hx Hy].
      apply isInside_closed_interval; [lia | lia | split; assumption].
  - intros Hne.
    destruct (checkEnemyCollision_bool pacman_x pacman_y enemies) as [H | H];
      [exact H | contradiction].
Qed.

(** The player at the far corner of the box of the enemy of level 1, and
    one pixel further. *)
Lemma checkEnemyCollision_geometric_witness :
  let es := initEnemies 1 (replicate 6 (Enemy.mk 0 0 0 0)) in
  checkEnemyCollision 22 26 es = 1 /\ checkEnemyCollision 23 26 es = 0.
Proof.
  intros es.
  assert (Hrange : forall e, In e es -> Enemy.active e <> 0 ->
                             0 <= Enemy.x e <= 65523 /\ 0 <= Enemy.y e <= 65519).
  { intros e Hin Ha. simpl in Hin.
    repeat (destruct Hin as [<- | Hin]; [simpl in *; lia |]). destruct Hin. }
  destruct (checkEnemyCollision_geometric 22 26 es Hrange) as [H1 _].
  destruct (checkEnemyCollision_geometric 23 26 es Hrange) as [H2 H3].
  split.
  - apply H1. exists (Enemy.mk 10 10 1 1).
    split; [left; reflexivity |]. simpl. repeat split; lia || discriminate.
  - apply H3. intros H. apply H2 in H. destruct H as (e & Hin & Ha & Hx & _).
    simpl in Hin.
    repeat (destruct Hin as [<- | Hin]; [simpl in *; lia |]). destruct Hin.
Defined.

(** ** Level 2 on an odd tick *)

Lemma moveEnemy_level2_odd ms px py e :
  ms mod 2 = 1 ->
  (Enemy.active e <> 0 -> 0 <= Enemy.x e <= 115 /\ 0 <= Enemy.y e <= 144) ->
  moveEnemy 2 ms px py e = e.
Proof.
  intros Hodd Hr. unfold moveEnemy, truthy.
  destruct (Enemy.active e =? 0) eqn:Ea; zbool; cbn [negb]; [reflexivity |].
  destruct (Hr Ea) as [Hx Hy]. cbn [Z.eqb Pos.eqb]. rewrite Hodd. cbn [Z.eqb].
  rewrite !Z.add_0_r, !Z.sub_0_r, !wrap16_small by lia.
  destruct e as [x y a s]. cbn in *.
  assert (Ex : (if x <=? 0 then 0 else if x >=? 115 then 115 else x) = x)
    by (repeat case_test; lia).
  assert (Ey : (if y <=? 0 then 0 else if y >=? 144 then 144 else y) = y)
    by (repeat case_test; lia).
  destruct (x <? px), (y <? py); rewrite ?wrap16_small by lia;
    destruct (x >? px), (y >? py); rewrite ?wrap16_small by lia;
    rewrite Ex, Ey; reflexivity.
Qed.

(** X25: In level 2 an enemy pass that falls on an odd value of the
    millisecond counter moves no enemy, but it restarts the 65 ms wait
    all the same. *)
Theorem level2_pass_on_odd_tick_moves_nobody (px py : Z) (g : Game.t) :
  Game.current_level g = 2 -> Game.game_won g = 0 ->
  65 <= wrap32 (now g - Game.pumpkin_move_delay g) ->
  now g mod 2 = 1 ->
  (forall e, In e (Game.enemies g) -> Enemy.active e <> 0 ->
             0 <= Enemy.x e <= 115 /\ 0 <= Enemy.y e <= 144) ->
  moveEnemies px py g = Game.set_pumpkin_move_delay (now g) g.
Proof.
  intros Hl Hw Hdue Hodd Hr. unfold moveEnemies.
  rewrite (truthy_false _ Hw), Hl. cbn [Z.eqb Pos.eqb].
  replace (wrap32 (now g - Game.pumpkin_move_delay g) <? 65) with false
    by (symmetry; apply Z.ltb_ge; exact Hdue).
  fields.
  change (now (Game.set_pumpkin_move_delay (now g) g)) with (now g).
  assert (E : map (moveEnemy 2 (now g) px py) (Game.enemies g) = Game.enemies g).
  { revert Hr. generalize (Game.enemies g). intros es Hr.
    induction es as [|e es IH]; [reflexivity |].
    cbn [map]. rewrite moveEnemy_level2_odd; [| exact Hodd |].
    - rewrite IH; [reflexivity |]. intros e0 Hin. apply Hr. right. exact Hin.
    - apply Hr. left. reflexivity. }
  rewrite Hl, E. destruct g; reflexivity.
Qed.

(** The three enemies of level 2 at tick 65. *)
Lemma level2_pass_on_odd_tick_moves_nobody_witness :
  let g := Game.set_isr (Isr.mk 65 None None 0 0 0 0 [])
             (Game.set_enemies (initEnemies 2 (Game.enemies Game_init))
                (Game.set_current_level 2 Game_init)) in
  Game.enemies (moveEnemies 50 50 g) = Game.enemies g
  /\ Game.pumpkin_move_delay (moveEnemies 50 50 g) = 65.
Proof.
  intros g.
  assert (Hr : forall e, In e (Game.enemies g) -> Enemy.active e <> 0 ->
                         0 <= Enemy.x e <= 115 /\ 0 <= Enemy.y e <= 144).
  { intros e Hin Ha. simpl in Hin.
    repeat (destruct Hin as [<- | Hin]; [simpl in *; lia |]). destruct Hin. }
  rewrite (level2_pass_on_odd_tick_moves_nobody 50 50 g eq_refl eq_refl
             ltac:(apply Z.leb_le; reflexivity) eq_refl Hr).
  split; reflexivity.
Defined.

(** ** The menu leaves the game alone *)


